(** * Vertex groups from a greyscale texture: a model of [init.py]

    The add-on samples a raster through a mesh's UV map and either
    partitions the vertices into groups by quantized grey level
    ([quantize_colors], [assign_vertex_groups]) or paints one group with
    the sampled intensity ([assign_weights_from_texture]).

    Modelling conventions.
    - A numpy/Python float is an exact rational [Q], kept in lowest terms
      by the arithmetic below; rounding of binary64 is not modelled.  The
      results a float division by zero produces in numpy (inf, nan) are
      the extra constructors of [npfloat].
    - A Python exception is a value of [exn]; code that can raise returns
      a [result].
    - The host object's vertex groups are explicit state, together with
      the log of the calls made on [obj.vertex_groups]. *)

From Stdlib Require Import ZArith QArith Qabs Qminmax Qround List String Ascii Bool Lia.
From Stdlib Require Import DecimalString DecimalNat Sorted Permutation.
Import ListNotations.

Local Open Scope Z_scope.

(** ** Exceptions and results *)

Inductive exn : Type :=
| ValueError (msg : string)
| IndexError (msg : string)
| KeyError (msg : string)
| UnboundLocalError (msg : string).

Inductive result (A : Type) : Type :=
| Ok (a : A)
| Raise (e : exn).

Arguments Ok {A} a.
Arguments Raise {A} e.

Definition rbind {A B : Type} (r : result A) (k : A -> result B) : result B :=
  match r with
  | Ok a => k a
  | Raise e => Raise e
  end.

Declare Scope result_scope.
Delimit Scope result_scope with result.
Notation "x <- r ;; k" := (rbind r (fun x => k))
  (at level 61, r at next level, right associativity) : result_scope.

(** ** Floats as rationals in lowest terms *)

Definition fadd (a b : Q) : Q := Qred (a + b).
Definition fsub (a b : Q) : Q := Qred (a - b).
Definition fmul (a b : Q) : Q := Qred (a * b).
Definition fdiv (a b : Q) : Q := Qred (a / b).
Definition fabs (a : Q) : Q := Qabs a.

(** [a >= b] and [a > b] on floats. *)
Definition fge (a b : Q) : bool := Qle_bool b a.
Definition fgt (a b : Q) : bool := negb (Qle_bool a b).

(** Python's [int(x)] on a float: truncation towards zero. *)
Definition py_int (x : Q) : Z := Z.quot (Qnum x) (Zpos (Qden x)).

(** The value of a numpy float64: finite, or what a division by zero gives. *)
Inductive npfloat : Type :=
| Fin (q : Q)
| PInf
| NInf
| NaN.

(** [i / d] for an integer array element [i] and a Python int [d]
    (numpy's true_divide: a zero divisor yields inf or nan with a runtime
    warning, never an exception). *)
Definition true_divide (i d : Z) : npfloat :=
  if d =? 0 then
    (if 0 <? i then PInf else if i <? 0 then NInf else NaN)
  else Fin (fdiv (inject_Z i) (inject_Z d)).

(** numpy's sort order: -inf, the finite values, +inf, then nan. *)
Definition npfloat_compare (a b : npfloat) : comparison :=
  match a, b with
  | Fin x, Fin y => Qcompare x y
  | NInf, NInf => Eq
  | NInf, _ => Lt
  | _, NInf => Gt
  | NaN, NaN => Eq
  | NaN, _ => Gt
  | _, NaN => Lt
  | PInf, PInf => Eq
  | PInf, Fin _ => Gt
  | Fin _, PInf => Lt
  end.

(** ** The numpy operations the add-on uses *)

Section Unique.
Context {A : Type} (cmp : A -> A -> comparison).

(** Insert into a strictly increasing list, dropping a value already there. *)
Fixpoint insert_unique (x : A) (l : list A) : list A :=
  match l with
  | [] => [x]
  | y :: t =>
      match cmp x y with
      | Lt => x :: l
      | Eq => l
      | Gt => y :: insert_unique x t
      end
  end.

(** [np.unique]: the sorted distinct values. *)
Definition np_unique (l : list A) : list A :=
  fold_left (fun acc x => insert_unique x acc) l [].
End Unique.

(** [np.min] and [np.max]; both raise on an empty array. *)
Definition np_min (l : list Q) : result Q :=
  match l with
  | [] => Raise (ValueError
      "zero-size array to reduction operation minimum which has no identity")
  | x :: t => Ok (fold_left Qmin t x)
  end.

Definition np_max (l : list Q) : result Q :=
  match l with
  | [] => Raise (ValueError
      "zero-size array to reduction operation maximum which has no identity")
  | x :: t => Ok (fold_left Qmax t x)
  end.

(** [range(n)] as integers. *)
Definition zrange (n : Z) : list Z := map Z.of_nat (seq 0 (Z.to_nat n)).

Definition string_of_Z (n : Z) : string := NilZero.string_of_int (Z.to_int n).

(** [np.linspace(start, stop, num)]: [num] points from [start] to [stop]
    inclusive, spaced by [(stop - start) / (num - 1)]; a negative [num]
    raises. *)
Definition linspace (start stop : Q) (num : Z) : result (list Q) :=
  if num <? 0 then
    Raise (ValueError
      ("Number of samples, " ++ string_of_Z num ++ ", must be non-negative."))
  else
    let step := fdiv (fsub stop start) (inject_Z (num - 1)) in
    Ok (map (fun i => fadd start (fmul (inject_Z i) step)) (zrange num)).

(** [np.digitize(x, bins)] for non-decreasing [bins] (what [linspace]
    from the minimum to the maximum gives): the index [i] with
    [bins[i-1] <= x < bins[i]], that is the number of edges [<= x]. *)
Definition digitize (x : Q) (bins : list Q) : Z :=
  Z.of_nat (List.length (filter (fun b => Qle_bool b x) bins)).

(** [np.mean] of a one-dimensional array. *)
Definition np_mean (l : list Q) : Q :=
  fdiv (fold_left fadd l 0%Q) (inject_Z (Z.of_nat (List.length l))).

(** ** [quantize_colors] *)

Definition quantize_colors (colors : list Q) (num_clusters : Z)
  : result (list npfloat) :=
  (min_color <- np_min colors ;;
   max_color <- np_max colors ;;
   bins <- linspace min_color max_color (num_clusters + 1) ;;
   let quantized_colors :=
     map (fun c => true_divide (digitize c bins - 1) (num_clusters - 1)) colors in
   Ok (np_unique npfloat_compare quantized_colors))%result.

(** ** Rasters *)

(** A host image: [size] is (width, height); [pixels] is the flat buffer. *)
Record Image : Type := {
  size : nat * nat;
  channels : nat;
  pixels : list Q
}.

(** A buffer reshaped to (height, width, channels), in row-major order. *)
Record ndarray3 : Type := {
  shape : nat * nat * nat;
  flat : list Q
}.

Definition string_of_nat (n : nat) : string := NilZero.string_of_uint (Nat.to_uint n).

Definition reshape (buf : list Q) (height width chans : nat) : result ndarray3 :=
  if (List.length buf =? height * width * chans)%nat then
    Ok {| shape := (height, width, chans); flat := buf |}
  else
    Raise (ValueError ("cannot reshape array of size "
                         ++ string_of_nat (List.length buf) ++ " into shape ("
                         ++ string_of_nat height ++ "," ++ string_of_nat width
                         ++ "," ++ string_of_nat chans ++ ")"))%string.

(** An integer index on an axis of extent [n]: a negative index counts
    from the end, anything outside [-n, n) raises. *)
Definition np_index (axis n : nat) (i : Z) : result nat :=
  if (0 <=? i) && (i <? Z.of_nat n) then Ok (Z.to_nat i)
  else if (- Z.of_nat n <=? i) && (i <? 0) then Ok (Z.to_nat (i + Z.of_nat n))
  else Raise (IndexError ("index " ++ string_of_Z i ++ " is out of bounds for axis "
                            ++ string_of_nat axis ++ " with size "
                            ++ string_of_nat n))%string.

(** [pixels[y, x]]: the channel vector of one pixel. *)
Definition getitem2 (a : ndarray3) (y x : Z) : result (list Q) :=
  let '(height, width, chans) := shape a in
  (yi <- np_index 0 height y ;;
   xi <- np_index 1 width x ;;
   Ok (firstn chans (skipn ((yi * width + xi) * chans) (flat a))))%result.

(** [pixels[y, x, k]]. *)
Definition getitem3 (a : ndarray3) (y x k : Z) : result Q :=
  let '(height, width, chans) := shape a in
  (yi <- np_index 0 height y ;;
   xi <- np_index 1 width x ;;
   ki <- np_index 2 chans k ;;
   Ok (nth ((yi * width + xi) * chans + ki) (flat a) 0%Q))%result.

(** The channel vectors of all pixels, row by row. *)
Definition pixel_vectors (a : ndarray3) : list (list Q) :=
  let '(height, width, chans) := shape a in
  map (fun k => firstn chans (skipn (k * chans) (flat a))) (seq 0 (height * width)).

(** ** [analyze_texture] *)

Definition analyze_texture (image : Image) : result (list Q) :=
  let '(width, height) := size image in
  (px <- reshape (pixels image) height width (channels image) ;;
   greyscale <-
     (if (1 <? channels image)%nat then
        Ok (map (fun v => np_mean (firstn 3 v)) (pixel_vectors px))
      else if (channels image =? 0)%nat then
        Raise (IndexError "index 0 is out of bounds for axis 2 with size 0")
      else
        Ok (map (fun v => nth 0 v 0%Q) (pixel_vectors px))) ;;
   Ok (np_unique Qcompare greyscale))%result.

(** ** Sampling a raster at a UV coordinate

    Both engines repeat the same two statements for every face-corner:
    [x, y = int(uv.x * (width - 1)), int(uv.y * (height - 1))] and
    [pixel_value = np.mean(pixels[y, x]) if image.channels > 1
                   else pixels[y, x, 0]]. *)
Definition pixel_coords (width height : nat) (uv : Q * Q) : Z * Z :=
  (py_int (fmul (fst uv) (inject_Z (Z.of_nat width - 1))),
   py_int (fmul (snd uv) (inject_Z (Z.of_nat height - 1)))).

Definition pixel_value_at (px : ndarray3) (width height chans : nat) (uv : Q * Q)
  : result Q :=
  let '(x, y) := pixel_coords width height uv in
  if (1 <? chans)%nat then
    (v <- getitem2 px y x ;; Ok (np_mean v))%result
  else getitem3 px y x 0.

(** ** Meshes and the host object *)

Record Mesh : Type := {
  polygons : list (list nat);            (* loop_indices of each polygon *)
  loops : list nat;                      (* vertex_index of each loop *)
  uv_layers_active : option (list (Q * Q)) (* uv of each loop, when a layer is active *)
}.

(** Calls made on [obj.vertex_groups] and on the groups it returns. *)
Inductive vg_call : Type :=
| VgGet (name : string)
| VgNew (name : string)
| VgAdd (name : string) (vertex_index : nat) (weight : Q).

Record Object : Type := {
  data : Mesh;
  vertex_groups : list (string * list (nat * Q));
  calls : list vg_call                   (* history, oldest first *)
}.

(** Python sequence indexing with a non-negative index. *)
Definition py_getitem {A : Type} (l : list A) (i : nat) : result A :=
  match nth_error l i with
  | Some a => Ok a
  | None => Raise (IndexError "index out of range")
  end.

(** A [for] loop whose body may raise. *)
Fixpoint for_each {A S : Type} (l : list A) (body : A -> S -> result S) (s : S)
  : result S :=
  match l with
  | [] => Ok s
  | a :: t => (s' <- body a s ;; for_each t body s')%result
  end.

(** [min(xs, key=key)]: the first element with the least key. *)
Fixpoint min_by_from {A : Type} (key : A -> Q) (best : A) (l : list A) : A :=
  match l with
  | [] => best
  | a :: t => min_by_from key (if fgt (key best) (key a) then a else best) t
  end.

Definition py_min_by {A : Type} (key : A -> Q) (l : list A) : result A :=
  match l with
  | [] => Raise (ValueError "min() arg is an empty sequence")
  | a :: t => Ok (min_by_from key a t)
  end.

(** A dict keyed by floats, in insertion order; the values are Python
    sets of vertex indices, kept as duplicate-free lists.  (Python leaves
    the iteration order of a set unspecified; the list is in insertion
    order, and no property below depends on it.) *)
Definition assignments : Type := list (Q * list nat).

Fixpoint dict_set (d : assignments) (k : Q) (v : list nat) : assignments :=
  match d with
  | [] => [(k, v)]
  | (k', v') :: t =>
      if Qeq_bool k' k then (k', v) :: t else (k', v') :: dict_set t k v
  end.

Fixpoint dict_get (d : assignments) (k : Q) : option (list nat) :=
  match d with
  | [] => None
  | (k', v') :: t => if Qeq_bool k' k then Some v' else dict_get t k
  end.

Definition set_add (x : nat) (s : list nat) : list nat :=
  if existsb (Nat.eqb x) s then s else s ++ [x].

(** [sorted(xs)] on floats: a stable insertion sort. *)
Fixpoint sorted_insert (x : Q) (l : list Q) : list Q :=
  match l with
  | [] => [x]
  | y :: t => if fgt y x then x :: l else y :: sorted_insert x t
  end.

Definition py_sorted (l : list Q) : list Q :=
  fold_left (fun acc x => sorted_insert x acc) l [].

(** [f"{n:02d}"]: decimal, padded with a zero to at least two characters. *)
Definition format_02d (n : nat) : string :=
  let s := string_of_nat n in
  if (String.length s <? 2)%nat then ("0" ++ s)%string else s.

(** ** Host state: computations that read and update the object *)

Definition host (A : Type) : Type := Object -> result A * Object.

Definition hret {A : Type} (a : A) : host A := fun o => (Ok a, o).

Definition hlift {A : Type} (r : result A) : host A := fun o => (r, o).

(** An exception leaves the object as it was when it was raised. *)
Definition hbind {A B : Type} (m : host A) (k : A -> host B) : host B :=
  fun o =>
    match m o with
    | (Ok a, o') => k a o'
    | (Raise e, o') => (Raise e, o')
    end.

Declare Scope host_scope.
Delimit Scope host_scope with host.
Notation "x <- m ;; k" := (hbind m (fun x => k))
  (at level 61, m at next level, right associativity) : host_scope.

Fixpoint hfor_each {A S : Type} (l : list A) (body : A -> S -> host S) (s : S)
  : host S :=
  match l with
  | [] => hret s
  | a :: t => (s' <- body a s ;; hfor_each t body s')%host
  end.

Definition log_call (c : vg_call) (o : Object) : Object :=
  {| data := data o; vertex_groups := vertex_groups o; calls := calls o ++ [c] |}.

Definition has_group (name : string) (gs : list (string * list (nat * Q))) : bool :=
  existsb (fun g => String.eqb (fst g) name) gs.

(** [obj.vertex_groups.get(name)]: the group of that name, or None.  A
    group is referred to by its name. *)
Definition vertex_groups_get (name : string) : host (option string) :=
  fun o =>
    (Ok (if has_group name (vertex_groups o) then Some name else None),
     log_call (VgGet name) o).

(** [obj.vertex_groups.new(name=name)], called when no group has that name. *)
Definition vertex_groups_new (name : string) : host string :=
  fun o =>
    (Ok name,
     log_call (VgNew name)
       {| data := data o;
          vertex_groups := vertex_groups o ++ [(name, [])];
          calls := calls o |}).

(** [obj.vertex_groups.get(name) or obj.vertex_groups.new(name=name)] *)
Definition get_or_new (name : string) : host string :=
  (g <- vertex_groups_get name ;;
   match g with
   | Some h => hret h
   | None => vertex_groups_new name
   end)%host.

Fixpoint weight_replace (ws : list (nat * Q)) (v : nat) (w : Q) : list (nat * Q) :=
  match ws with
  | [] => [(v, w)]
  | (v', w') :: t =>
      if (v' =? v)%nat then (v', w) :: t else (v', w') :: weight_replace t v w
  end.

Fixpoint group_update (gs : list (string * list (nat * Q))) (name : string)
  (v : nat) (w : Q) : list (string * list (nat * Q)) :=
  match gs with
  | [] => []
  | (n, ws) :: t =>
      if String.eqb n name then (n, weight_replace ws v w) :: t
      else (n, ws) :: group_update t name v w
  end.

(** [group.add([vertex_index], weight, 'REPLACE')] *)
Definition group_add (group : string) (vertex_index : nat) (weight : Q) : host unit :=
  fun o =>
    (Ok tt,
     log_call (VgAdd group vertex_index weight)
       {| data := data o;
          vertex_groups := group_update (vertex_groups o) group vertex_index weight;
          calls := calls o |}).

Definition no_active_uv : exn :=
  ValueError "No active UV map found. Please ensure the object has an active UV map.".

(** ** [assign_vertex_groups] *)

Definition dict_getitem (d : assignments) (k : Q) : result (list nat) :=
  match dict_get d k with
  | Some s => Ok s
  | None => Raise (KeyError "key not found")
  end.

(** The body of the sampling loop, for one face-corner.  The state is the
    dict of assignments and the local variable [pixel_value], unbound
    before the first iteration. *)
Definition sample_corner (mesh : Mesh) (uv_layer : list (Q * Q)) (px : ndarray3)
  (width height chans : nat) (unique_colors : list Q)
  (loop_idx : nat) (st : assignments * option Q)
  : result (assignments * option Q) :=
  (vertex_index <- py_getitem (loops mesh) loop_idx ;;
   uv <- py_getitem uv_layer loop_idx ;;
   pixel_value <- pixel_value_at px width height chans uv ;;
   closest_color <- py_min_by (fun c => fabs (fsub c pixel_value)) unique_colors ;;
   members <- dict_getitem (fst st) closest_color ;;
   Ok (dict_set (fst st) closest_color (set_add vertex_index members),
       Some pixel_value))%result.

Definition read_local (name : string) (v : option Q) : result Q :=
  match v with
  | Some x => Ok x
  | None => Raise (UnboundLocalError name)
  end.

(** The inner loop of the second pass: one weight per member, computed
    from [color] and the local [pixel_value]. *)
Definition add_members (group : string) (color : Q) (pixel_value : option Q)
  (threshold : Q) (vertex_indices : list nat) : host unit :=
  hfor_each vertex_indices
    (fun vertex_index _ =>
       (pv <- hlift (read_local "pixel_value" pixel_value) ;;
        let weight := fsub 1 (fabs (fsub color pv)) in
        if fge weight threshold then group_add group vertex_index weight
        else hret tt)%host)
    tt.

Definition group_name_of (base_group_name : string) (groups_created : nat) : string :=
  (base_group_name ++ "." ++ format_02d (groups_created + 1))%string.

(** The body of the second loop, for one level; the state is [groups_created]. *)
Definition emit_level (vga : assignments) (pixel_value : option Q)
  (threshold : Q) (min_group_size : Z) (base_group_name : string)
  (color : Q) (groups_created : nat) : host nat :=
  (vertex_indices <- hlift (dict_getitem vga color) ;;
   if Z.of_nat (List.length vertex_indices) >=? min_group_size then
     (let group_name := group_name_of base_group_name groups_created in
      group <- get_or_new group_name ;;
      _ <- add_members group color pixel_value threshold vertex_indices ;;
      hret (groups_created + 1)%nat)
   else hret groups_created)%host.

Definition sampling_pass (mesh : Mesh) (uv_layer : list (Q * Q)) (px : ndarray3)
  (width height chans : nat) (unique_colors : list Q)
  : result (assignments * option Q) :=
  for_each (polygons mesh)
    (fun poly st =>
       for_each poly (sample_corner mesh uv_layer px width height chans unique_colors) st)
    (fold_left (fun d color => dict_set d color []) unique_colors [], None).

Definition assign_vertex_groups (obj : Object) (unique_colors : list Q)
  (image : Image) (threshold : Q) (min_group_size : Z) (base_group_name : string)
  : result bool * Object :=
  let mesh := data obj in
  match uv_layers_active mesh with
  | None => (Raise no_active_uv, obj)
  | Some uv_layer =>
      let '(width, height) := size image in
      (px <- hlift (reshape (pixels image) height width (channels image)) ;;
       st <- hlift (sampling_pass mesh uv_layer px width height (channels image)
                      unique_colors) ;;
       let '(vertex_group_assignments, pixel_value) := st in
       _ <- hfor_each (py_sorted (map fst vertex_group_assignments))
              (emit_level vertex_group_assignments pixel_value threshold
                 min_group_size base_group_name)
              0%nat ;;
       hret true)%host obj
  end.

(** ** [assign_weights_from_texture] *)

Definition py_min (l : list Q) : result Q :=
  match l with
  | [] => Raise (ValueError "min() arg is an empty sequence")
  | x :: t => Ok (fold_left Qmin t x)
  end.

Definition py_max (l : list Q) : result Q :=
  match l with
  | [] => Raise (ValueError "max() arg is an empty sequence")
  | x :: t => Ok (fold_left Qmax t x)
  end.

(** The body of [if normalize:]. *)
Definition normalize_weights (weights : list (nat * Q)) : result (list (nat * Q)) :=
  (min_weight <- py_min (map snd weights) ;;
   max_weight <- py_max (map snd weights) ;;
   let weight_range := fsub max_weight min_weight in
   if fgt weight_range 0 then
     Ok (map (fun iw => (fst iw, fdiv (fsub (snd iw) min_weight) weight_range)) weights)
   else
     Ok (map (fun iw => (fst iw, 1%Q)) weights))%result.

Definition weight_corner (mesh : Mesh) (uv_layer : list (Q * Q)) (px : ndarray3)
  (width height chans : nat) (loop_idx : nat) (weights : list (nat * Q))
  : result (list (nat * Q)) :=
  (vertex_index <- py_getitem (loops mesh) loop_idx ;;
   uv <- py_getitem uv_layer loop_idx ;;
   pixel_value <- pixel_value_at px width height chans uv ;;
   Ok (weights ++ [(vertex_index, pixel_value)]))%result.

Definition collect_weights (mesh : Mesh) (uv_layer : list (Q * Q)) (px : ndarray3)
  (width height chans : nat) : result (list (nat * Q)) :=
  for_each (polygons mesh)
    (fun poly ws => for_each poly (weight_corner mesh uv_layer px width height chans) ws)
    [].

Definition assign_weights_from_texture (obj : Object) (image : Image)
  (group_name : string) (normalize : bool) : result bool * Object :=
  let mesh := data obj in
  match uv_layers_active mesh with
  | None => (Raise no_active_uv, obj)
  | Some uv_layer =>
      let '(width, height) := size image in
      (px <- hlift (reshape (pixels image) height width (channels image)) ;;
       group <- get_or_new group_name ;;
       weights <- hlift (collect_weights mesh uv_layer px width height (channels image)) ;;
       weights <- hlift (if normalize then normalize_weights weights else Ok weights) ;;
       _ <- hfor_each weights
              (fun iw _ => group_add group (fst iw) (snd iw)) tt ;;
       hret true)%host obj
  end.

(** ** Observations on the call log *)

(** The calls an invocation appended to the log of [o]. *)
Definition new_calls (o o' : Object) : list vg_call :=
  skipn (List.length (calls o)) (calls o').

(** The names passed to [vertex_groups.get], one per group the engine
    obtained, in order. *)
Definition group_names (cs : list vg_call) : list string :=
  flat_map (fun c => match c with VgGet n => [n] | _ => [] end) cs.

(** The weights passed to [group.add], in order. *)
Definition added_weights (cs : list vg_call) : list Q :=
  flat_map (fun c => match c with VgAdd _ _ w => [w] | _ => [] end) cs.

(** The members a dict holds for a level (empty when the key is absent). *)
Definition members (vga : assignments) (color : Q) : list nat :=
  match dict_get vga color with
  | Some s => s
  | None => []
  end.

(** Whether a level's member set reaches the minimum size (line 196). *)
Definition level_kept (vga : assignments) (min_group_size : Z) (color : Q) : bool :=
  Z.of_nat (List.length (members vga color)) >=? min_group_size.

(** The levels, ascending, whose member set reaches the minimum size. *)
Definition kept_levels (vga : assignments) (min_group_size : Z) : list Q :=
  filter (level_kept vga min_group_size) (py_sorted (map fst vga)).

(** The weight line 200 computes for a level, given the value the local
    [pixel_value] holds after the sampling loop. *)
Definition level_weight (color pixel_value : Q) : Q :=
  fsub 1 (fabs (fsub color pixel_value)).

(** The calls of the inner loop for one group: the same weight for every
    member, or nothing when that weight is below the threshold. *)
Definition member_calls (group : string) (color : Q) (pixel_value : option Q)
  (threshold : Q) (vertex_indices : list nat) : list vg_call :=
  match pixel_value with
  | Some p =>
      if fge (level_weight color p) threshold
      then map (fun v => VgAdd group v (level_weight color p)) vertex_indices
      else []
  | None => []
  end.

(** Reading a decimal string back. *)
Definition nat_of_string (s : string) : option nat :=
  option_map Nat.of_uint (NilZero.uint_of_string s).

Definition is_digit (c : ascii) : bool :=
  let n := nat_of_ascii c in ((48 <=? n) && (n <=? 57))%nat.

(** [name] is [base], a dot, and exactly two decimal digits. *)
Definition two_digit_name (base name : string) : bool :=
  let k := (String.length name - 2)%nat in
  String.eqb (substring 0 k name) (base ++ ".")
  && (String.length name =? String.length base + 3)%nat
  && match get k name, get (k + 1) name with
     | Some a, Some b => is_digit a && is_digit b
     | _, _ => false
     end.

(** ** Concrete inputs *)

Definition empty_object (m : Mesh) : Object :=
  {| data := m; vertex_groups := []; calls := [] |}.

(** A triangle whose three corners sample a 5x1 one-channel ramp at
    0, 1/4 and 1/4. *)
Definition ramp_image : Image :=
  {| size := (5, 1)%nat; channels := 1; pixels := [0; 1#4; 1#2; 3#4; 1]%Q |}.

Definition ramp_triangle : Mesh :=
  {| polygons := [[0; 1; 2]%nat];
     loops := [0; 1; 2]%nat;
     uv_layers_active := Some [(0, 0); (1#4, 0); (1#4, 0)]%Q |}.

(** One opaque-white RGBA pixel with zero alpha, and a triangle on it. *)
Definition rgba_image : Image :=
  {| size := (1, 1)%nat; channels := 4; pixels := [1; 1; 1; 0]%Q |}.

Definition flat_triangle : Mesh :=
  {| polygons := [[0; 1; 2]%nat];
     loops := [0; 1; 2]%nat;
     uv_layers_active := Some [(0, 0); (0, 0); (0, 0)]%Q |}.

(** A 2x2 one-channel raster (top row 0, bottom row 1) and a quad on its
    four pixels. *)
Definition checker_image : Image :=
  {| size := (2, 2)%nat; channels := 1; pixels := [0; 0; 1; 1]%Q |}.

Definition quad : Mesh :=
  {| polygons := [[0; 1; 2; 3]%nat];
     loops := [0; 1; 2; 3]%nat;
     uv_layers_active := Some [(0, 0); (1, 0); (1, 1); (0, 1)]%Q |}.

Definition quad_without_uv : Mesh :=
  {| polygons := [[0; 1; 2; 3]%nat];
     loops := [0; 1; 2; 3]%nat;
     uv_layers_active := None |}.

(** A triangle whose first corner has u = 2, outside the raster. *)
Definition stray_triangle : Mesh :=
  {| polygons := [[0; 1; 2]%nat];
     loops := [0; 1; 2]%nat;
     uv_layers_active := Some [(2, 0); (0, 0); (0, 0)]%Q |}.

(** A mesh with an active UV layer and no polygon. *)
Definition bare_mesh : Mesh :=
  {| polygons := []; loops := []; uv_layers_active := Some [] |}.

(** A 129x1 one-channel ramp with pixel [i] holding [i/128], the levels
    [0/128 .. 99/128], and a 100-gon whose corner [i] has u = [i/128]. *)
Definition dyadic (i : nat) : Q := Qred (Z.of_nat i # 128).

Definition wide_image : Image :=
  {| size := (129, 1)%nat; channels := 1; pixels := map dyadic (seq 0 129) |}.

Definition hundred_levels : list Q := map dyadic (seq 0 100).

Definition hundred_gon : Mesh :=
  {| polygons := [seq 0 100];
     loops := seq 0 100;
     uv_layers_active := Some (map (fun i => (dyadic i, 0%Q)) (seq 0 100)) |}.

(** ** Further observations *)

(** The intensity [analyze_texture] derives from one pixel's channel
    vector (line 164). *)
Definition greyscale_of (chans : nat) (v : list Q) : Q :=
  if (1 <? chans)%nat then np_mean (firstn 3 v) else nth 0 v 0%Q.

(** Strictly ascending in numpy's sort order. *)
Definition ascending (l : list npfloat) : Prop :=
  StronglySorted (fun a b => npfloat_compare a b = Lt) l.

(** The weight a group of the object stores for a vertex, if any. *)
Definition group_weights (o : Object) (group : string) : option (list (nat * Q)) :=
  option_map snd (find (fun g => String.eqb (fst g) group) (vertex_groups o)).

Definition stored_weight (o : Object) (group : string) (v : nat) : option Q :=
  match group_weights o group with
  | Some ws => option_map snd (find (fun iw => (fst iw =? v)%nat) ws)
  | None => None
  end.

(** The weight of the last pair written for a vertex, if any. *)
Definition last_write (v : nat) (weights : list (nat * Q)) : option Q :=
  fold_left (fun acc iw => if (fst iw =? v)%nat then Some (snd iw) else acc)
    weights None.

(** Every loop index of every polygon addresses a loop and a UV entry. *)
Definition corners_valid (mesh : Mesh) (uv_layer : list (Q * Q)) : Prop :=
  Forall (fun loop_idx => (loop_idx < List.length (loops mesh))%nat
                          /\ (loop_idx < List.length uv_layer)%nat)
    (List.concat (polygons mesh)).

(** Every UV coordinate lies in [-1,1] x [-1,1]. *)
Definition uvs_within_wrap (uv_layer : list (Q * Q)) : Prop :=
  Forall (fun uv => (-(1) <= fst uv)%Q /\ (fst uv <= 1)%Q
                    /\ (-(1) <= snd uv)%Q /\ (snd uv <= 1)%Q) uv_layer.

(** The buffer has one sample per pixel and channel, and no extent is 0. *)
Definition image_valid (image : Image) : Prop :=
  (1 <= fst (size image))%nat /\ (1 <= snd (size image))%nat
  /\ (1 <= channels image)%nat
  /\ List.length (pixels image)
     = (snd (size image) * fst (size image) * channels image)%nat.

(** Face-corner [loop_idx] belongs to vertex [v], and [level] is what
    line 190 picks for the intensity sampled at its UV coordinate. *)
Definition corner_level (mesh : Mesh) (uv_layer : list (Q * Q)) (px : ndarray3)
  (width height chans : nat) (unique_colors : list Q)
  (loop_idx v : nat) (level : Q) : Prop :=
  exists uv p,
    py_getitem (loops mesh) loop_idx = Ok v
    /\ py_getitem uv_layer loop_idx = Ok uv
    /\ pixel_value_at px width height chans uv = Ok p
    /\ py_min_by (fun c => fabs (fsub c p)) unique_colors = Ok level.

(** What the sampling loop maintains about the dict, after the corners
    [done] have been processed. *)
Definition sampling_invariant (mesh : Mesh) (uv_layer : list (Q * Q)) (px : ndarray3)
  (width height chans : nat) (unique_colors : list Q)
  (done : list nat) (d : assignments) : Prop :=
  (forall c, In c unique_colors -> dict_get d c <> None)
  /\ (forall loop_idx, In loop_idx done ->
        exists v level,
          corner_level mesh uv_layer px width height chans unique_colors
            loop_idx v level
          /\ In v (members d level))
  /\ (forall k v, In v (members d k) ->
        exists loop_idx level,
          In loop_idx done
          /\ corner_level mesh uv_layer px width height chans unique_colors
               loop_idx v level
          /\ (level == k)%Q)
  /\ (forall k, NoDup (members d k)).

(** A call that is not a weight, or a weight in [threshold, 1]. *)
Definition call_within (threshold : Q) (c : vg_call) : Prop :=
  match c with
  | VgAdd _ _ w => (threshold <= w)%Q /\ (w <= 1)%Q
  | _ => True
  end.

(** ** The operator [VGBT_OT_create_groups] *)

Module VGBT_OT_create_groups.

Inductive texture_source_item : Type := EXISTING | NEW.

Inductive report_type : Type := INFO | ERROR.

Inductive status : Type := FINISHED | CANCELLED.

(** The operator's properties.  [num_clusters] and [min_group_size] are
    declared with hard limits (min=2, max=256 and min=1), which the host
    enforces on every assignment; the record carries them. *)
Record Operator : Type := {
  texture_source : texture_source_item;
  texture_name : string;
  filepath : string;
  use_weights : bool;
  weight_group_name : string;
  normalize_weights : bool;
  num_clusters : Z;
  min_group_size : Z;
  base_group_name : string;
  num_clusters_limits : (2 <=? num_clusters) && (num_clusters <=? 256) = true;
  min_group_size_limits : (1 <=? min_group_size) = true
}.

Record Context : Type := {
  mode : string;
  object : Object
}.

(** [bpy.ops.object.mode_set(mode=m)] *)
Definition mode_set (m : string) (context : Context) : Context :=
  {| mode := m; object := object context |}.

(** A level as the float handed on to [assign_vertex_groups].  With
    [num_clusters >= 2] every level [quantize_colors] returns is finite,
    so the other cases do not arise. *)
Definition finite_level (x : npfloat) : Q :=
  match x with
  | Fin q => q
  | _ => 0%Q
  end.

Section Execute.

(** [bpy.data.images]: indexing by name and loading from a path are the
    host's; either may raise an exception of the host's own. *)
Variable host_error : Type.
Variable images_getitem : string -> host_error + Image.
Variable images_load : string -> host_error + Image.

(** How a call of [execute] ends: with a returned status, or with an
    exception that no handler caught. *)
Inductive outcome : Type :=
| Returned (s : status)
| Escaped (e : exn)
| EscapedHost (e : host_error).

Definition reports : Type := list (report_type * string).

(** The two statements after an engine call: the report and the value
    of [success]. *)
Definition report_success (success : bool) (info failure : string) : reports :=
  if success then [(INFO, info)] else [(ERROR, failure)].

(** The body of the [try] statement: the result of the engine, the
    object as the engine left it, and what was reported. *)
Definition try_body (self : Operator) (image : Image) (obj : Object)
  : result bool * Object * reports :=
  if use_weights self then
    match assign_weights_from_texture obj image (weight_group_name self)
            (normalize_weights self) with
    | (Ok success, obj') =>
        (Ok success, obj',
         report_success success
           ("Created vertex group '" ++ weight_group_name self
              ++ "' with weights from texture")
           "Failed to create vertex group. Check UV mapping.")
    | (Raise e, obj') => (Raise e, obj', [])
    end
  else
    match analyze_texture image with
    | Raise e => (Raise e, obj, [])
    | Ok unique_colors =>
        match quantize_colors unique_colors (num_clusters self) with
        | Raise e => (Raise e, obj, [])
        | Ok quantized_colors =>
            let threshold := fdiv 1 (inject_Z (2 * num_clusters self)) in
            match assign_vertex_groups obj (map finite_level quantized_colors)
                    image threshold (min_group_size self) (base_group_name self) with
            | (Ok success, obj') =>
                (Ok success, obj',
                 report_success success "Created vertex groups based on texture"
                   "Failed to create vertex groups. Check UV mapping.")
            | (Raise e, obj') => (Raise e, obj', [])
            end
        end
    end.

(** The image the operator works on: a message when nothing is
    selected, else what the host's lookup or load gives. *)
Definition select_image (self : Operator) : string + (host_error + Image) :=
  match texture_source self with
  | EXISTING =>
      if String.eqb (texture_name self) "" then inl "No texture selected"%string
      else inr (images_getitem (texture_name self))
  | NEW =>
      if String.eqb (filepath self) "" then inl "No file selected"%string
      else inr (images_load (filepath self))
  end.

Definition execute (self : Operator) (context : Context)
  : outcome * Context * reports :=
  let context :=
    if String.eqb (mode context) "OBJECT" then context
    else mode_set "OBJECT" context in
  match select_image self with
  | inl message => (Returned CANCELLED, context, [(ERROR, message)])
  | inr (inl e) => (EscapedHost e, context, [])
  | inr (inr image) =>
      match try_body self image (object context) with
      | (r, obj', reported) =>
          let context' := {| mode := mode context; object := obj' |} in
          match r with
          | Ok success =>
              (Returned (if success then FINISHED else CANCELLED), context', reported)
          | Raise (ValueError message) =>
              (Returned CANCELLED, context', reported ++ [(ERROR, message)])
          | Raise e => (Escaped e, context', reported)
          end
      end
  end.

End Execute.

Arguments Returned {host_error} s.
Arguments Escaped {host_error} e.
Arguments EscapedHost {host_error} e.

End VGBT_OT_create_groups.

(** ** Concrete operators *)

(** An operator set up for group mode and one for weight mode, both on
    the existing texture "checker"; a library holding only that texture;
    a context still in edit mode. *)
Definition group_operator : VGBT_OT_create_groups.Operator :=
  {| VGBT_OT_create_groups.texture_source := VGBT_OT_create_groups.EXISTING;
     VGBT_OT_create_groups.texture_name := "checker";
     VGBT_OT_create_groups.filepath := "";
     VGBT_OT_create_groups.use_weights := false;
     VGBT_OT_create_groups.weight_group_name := "Texture_Weights";
     VGBT_OT_create_groups.normalize_weights := false;
     VGBT_OT_create_groups.num_clusters := 2;
     VGBT_OT_create_groups.min_group_size := 1;
     VGBT_OT_create_groups.base_group_name := "group";
     VGBT_OT_create_groups.num_clusters_limits := eq_refl;
     VGBT_OT_create_groups.min_group_size_limits := eq_refl |}.

Definition weight_operator : VGBT_OT_create_groups.Operator :=
  {| VGBT_OT_create_groups.texture_source := VGBT_OT_create_groups.EXISTING;
     VGBT_OT_create_groups.texture_name := "checker";
     VGBT_OT_create_groups.filepath := "";
     VGBT_OT_create_groups.use_weights := true;
     VGBT_OT_create_groups.weight_group_name := "Texture_Weights";
     VGBT_OT_create_groups.normalize_weights := true;
     VGBT_OT_create_groups.num_clusters := 64;
     VGBT_OT_create_groups.min_group_size := 10;
     VGBT_OT_create_groups.base_group_name := "group";
     VGBT_OT_create_groups.num_clusters_limits := eq_refl;
     VGBT_OT_create_groups.min_group_size_limits := eq_refl |}.

Definition checker_library (name : string) : unit + Image :=
  if String.eqb name "checker" then inr checker_image else inl tt.

Definition edit_context (m : Mesh) : VGBT_OT_create_groups.Context :=
  {| VGBT_OT_create_groups.mode := "EDIT_MESH";
     VGBT_OT_create_groups.object := empty_object m |}.

(** * Properties *)

(** ** Quantization *)

(** C1 (the code departs from the claim): on the intensities
    {0, 0.5, 1} with K = 2 the bins are [0, 0.5, 1]; [digitize] puts the
    maximum past the last edge, so the bin indices are 0, 1, 2 and the
    levels 0, 1, 2: three levels for K = 2, one of them above 1. *)
Theorem quantize_colors_max_overflows :
  quantize_colors [0; 1#2; 1]%Q 2 = Ok [Fin 0; Fin 1; Fin 2].
Proof. vm_compute. reflexivity. Qed.

(** C9, counterexample: with K = 1 on the set {0.5} the division by
    K - 1 = 0 yields the level inf; nothing is raised. *)
Lemma quantize_colors_K1_returns :
  quantize_colors [1#2]%Q 1 = Ok [PInf]
  /\ ~ (exists e, quantize_colors [1#2]%Q 1 = Raise e).
Proof.
  split; [vm_compute; reflexivity|].
  intros [e He]. vm_compute in He. discriminate He.
Qed.

(** C9, as amended: [quantize_colors] does not validate K.  On a
    non-empty set it returns a result for K in {-1, 0, 1}; for K <= -2 it
    raises the ValueError of [linspace] (negative number of samples). *)
Theorem quantize_colors_small_K (colors : list Q) (K : Z) :
  colors <> [] -> K < 2 ->
  if -1 <=? K then exists levels, quantize_colors colors K = Ok levels
  else exists msg, quantize_colors colors K = Raise (ValueError msg).
Proof.
  intros Hne HK. destruct colors as [|c t]; [congruence|].
  unfold quantize_colors, linspace; simpl.
  destruct (-1 <=? K) eqn:E.
  - assert ((K + 1 <? 0) = false) as -> by lia. simpl. eauto.
  - assert ((K + 1 <? 0) = true) as -> by lia. simpl. eauto.
Qed.

Lemma quantize_colors_small_K_witness :
  exists levels, quantize_colors [1#2]%Q 0 = Ok levels.
Proof.
  apply (quantize_colors_small_K [1#2]%Q 0); [discriminate | lia].
Defined.

(** ** Missing UV layer *)

(** C6: without an active UV layer both engines raise the "No active UV
    map found" ValueError and hand the object back untouched: no vertex
    group was created and no call was made on [obj.vertex_groups]. *)
Theorem no_uv_layer_fails_before_mutation
  (obj : Object) (unique_colors : list Q) (image : Image) (threshold : Q)
  (min_group_size : Z) (base_group_name group_name : string) (normalize : bool) :
  uv_layers_active (data obj) = None ->
  assign_vertex_groups obj unique_colors image threshold min_group_size base_group_name
    = (Raise no_active_uv, obj)
  /\ assign_weights_from_texture obj image group_name normalize
    = (Raise no_active_uv, obj).
Proof.
  intros Huv. unfold assign_vertex_groups, assign_weights_from_texture.
  rewrite Huv. split; reflexivity.
Qed.

Lemma no_uv_layer_fails_before_mutation_witness :
  assign_vertex_groups (empty_object quad_without_uv) [0; 1]%Q checker_image
      (1#4)%Q 1 "group"
    = (Raise no_active_uv, empty_object quad_without_uv)
  /\ assign_weights_from_texture (empty_object quad_without_uv) checker_image
      "Texture_Weights" true
    = (Raise no_active_uv, empty_object quad_without_uv).
Proof.
  apply (no_uv_layer_fails_before_mutation (empty_object quad_without_uv)).
  reflexivity.
Defined.

(** ** Greyscale of a multi-channel pixel *)

(** C4 (the code departs from the claim): on an RGBA pixel (1, 1, 1, 0)
    [analyze_texture] averages the first three channels and finds the
    intensity 1, while both engines average all four channels and sample
    3/4: the weight engine writes 3/4, and the group engine, with levels
    {0, 1}, writes 1 - |1 - 3/4| = 3/4 where the mean of RGB would give 1. *)
Theorem samplers_average_alpha :
  analyze_texture rgba_image = Ok [1%Q]
  /\ (px <- reshape (pixels rgba_image) 1 1 4 ;;
      pixel_value_at px 1 1 4 (0, 0)%Q)%result = Ok (3#4)%Q
  /\ added_weights
       (calls (snd (assign_weights_from_texture (empty_object flat_triangle)
                      rgba_image "Texture_Weights" false)))
     = [3#4; 3#4; 3#4]%Q
  /\ added_weights
       (calls (snd (assign_vertex_groups (empty_object flat_triangle) [0; 1]%Q
                      rgba_image (1#4)%Q 1 "group")))
     = [3#4; 3#4; 3#4]%Q.
Proof. vm_compute. repeat split; reflexivity. Qed.

(** ** Weights of the group engine *)

(** C3 (the code departs from the claim): vertex 0 of [ramp_triangle]
    samples intensity 0 at its only corner and lands in the group of
    level 0, so the claim gives it weight 1 - |0 - 0| = 1; the engine
    writes 3/4 = 1 - |0 - 1/4|, from the intensity of the last corner of
    the mesh. *)
Theorem group_weight_uses_last_corner :
  (px <- reshape (pixels ramp_image) 1 5 1 ;;
   pixel_value_at px 5 1 1 (0, 0)%Q)%result = Ok 0%Q
  /\ new_calls (empty_object ramp_triangle)
       (snd (assign_vertex_groups (empty_object ramp_triangle) [0; 1]%Q
               ramp_image (1#4)%Q 1 "group"))
     = [VgGet "group.01"; VgNew "group.01";
        VgAdd "group.01" 0 (3#4)%Q; VgAdd "group.01" 1 (3#4)%Q;
        VgAdd "group.01" 2 (3#4)%Q].
Proof. vm_compute. split; reflexivity. Qed.

(** ** Flat images *)

Section FoldBounds.
Local Open Scope Q_scope.

Lemma fold_min_le_init (t : list Q) (x : Q) : fold_left Qmin t x <= x.
Proof.
  revert x. induction t as [|a t IH]; intros x; simpl.
  - apply Qle_refl.
  - eapply Qle_trans; [apply IH | apply Q.le_min_l].
Qed.

Lemma fold_min_le (t : list Q) (x y : Q) :
  In y (x :: t) -> fold_left Qmin t x <= y.
Proof.
  revert x. induction t as [|a t IH]; intros x [<- | Hin]; simpl.
  - apply Qle_refl.
  - destruct Hin.
  - eapply Qle_trans; [apply fold_min_le_init | apply Q.le_min_l].
  - destruct Hin as [<- | Hin].
    + eapply Qle_trans; [apply fold_min_le_init | apply Q.le_min_r].
    + apply IH. right. exact Hin.
Qed.

Lemma fold_max_ge_init (t : list Q) (x : Q) : x <= fold_left Qmax t x.
Proof.
  revert x. induction t as [|a t IH]; intros x; simpl.
  - apply Qle_refl.
  - eapply Qle_trans; [apply Q.le_max_l | apply IH].
Qed.

Lemma fold_max_ge (t : list Q) (x y : Q) :
  In y (x :: t) -> y <= fold_left Qmax t x.
Proof.
  revert x. induction t as [|a t IH]; intros x [<- | Hin]; simpl.
  - apply Qle_refl.
  - destruct Hin.
  - eapply Qle_trans; [apply Q.le_max_l | apply fold_max_ge_init].
  - destruct Hin as [<- | Hin].
    + eapply Qle_trans; [apply Q.le_max_r | apply fold_max_ge_init].
    + apply IH. right. exact Hin.
Qed.

(** The minimum and the maximum are attained. *)
Lemma fold_min_in (t : list Q) (x : Q) : In (fold_left Qmin t x) (x :: t).
Proof.
  revert x. induction t as [|a t IH]; intros x; simpl.
  - left. reflexivity.
  - destruct (IH (Qmin x a)) as [H | H].
    + revert H. unfold Qmin, GenericMinMax.gmin.
      destruct (x ?= a)%Q; intros <-; auto.
    + right. right. exact H.
Qed.

Lemma fold_max_in (t : list Q) (x : Q) : In (fold_left Qmax t x) (x :: t).
Proof.
  revert x. induction t as [|a t IH]; intros x; simpl.
  - left. reflexivity.
  - destruct (IH (Qmax x a)) as [H | H].
    + revert H. unfold Qmax, GenericMinMax.gmax.
      destruct (x ?= a)%Q; intros <-; auto.
    + right. right. exact H.
Qed.
End FoldBounds.

Lemma np_unique_const {A : Type} (cmp : A -> A -> comparison) (x : A) (n : nat) :
  cmp x x = Eq -> np_unique cmp (repeat x (S n)) = [x].
Proof.
  intros Hrefl. unfold np_unique. simpl.
  induction n as [|n IH]; simpl; [reflexivity|].
  rewrite Hrefl. exact IH.
Qed.

Lemma map_const_repeat {A B : Type} (x : B) (l : list A) :
  map (fun _ => x) l = repeat x (List.length l).
Proof. induction l; simpl; congruence. Qed.

(** On a flat image every bin edge equals the single intensity, so
    [digitize] counts all of them. *)
Lemma digitize_all_edges (x : Q) (bins : list Q) :
  Forall (fun b => (b <= x)%Q) bins ->
  digitize x bins = Z.of_nat (List.length bins).
Proof.
  intros H. unfold digitize. f_equal.
  induction H as [|b bins Hb _ IH]; simpl; [reflexivity|].
  apply Qle_bool_iff in Hb. rewrite Hb. simpl. congruence.
Qed.

Lemma linspace_flat_edge (lo hi : Q) (d i : Z) :
  (lo == hi)%Q ->
  (fadd lo (fmul (inject_Z i) (fdiv (fsub hi lo) (inject_Z d))) == lo)%Q.
Proof.
  intros E. unfold fadd, fmul, fdiv, fsub.
  rewrite !Qred_correct. rewrite E.
  assert (hi - hi == 0)%Q as -> by ring.
  unfold Qdiv. ring.
Qed.

(** C2, counterexample: the flat set {0.5} with K = 4 yields the single
    level 4/3, not 0. *)
Lemma quantize_colors_flat_is_not_zero :
  ~ (exists q, quantize_colors [1#2]%Q 4 = Ok [Fin q] /\ (q == 0)%Q).
Proof.
  intros [q [H E]]. vm_compute in H. injection H as <-.
  revert E. unfold Qeq. simpl. discriminate.
Qed.

(** C2, as amended: on a flat intensity set (minimum equal to maximum)
    and K >= 2, [quantize_colors] raises nothing, divides by K - 1 > 0,
    and returns exactly one finite level. *)
Theorem quantize_colors_flat_single_level (colors : list Q) (K : Z) (lo hi : Q) :
  np_min colors = Ok lo -> np_max colors = Ok hi -> (lo == hi)%Q -> 2 <= K ->
  exists q, quantize_colors colors K = Ok [Fin q].
Proof.
  intros Hlo Hhi E HK. unfold quantize_colors. rewrite Hlo, Hhi. simpl.
  unfold linspace. assert ((K + 1 <? 0) = false) as -> by lia. simpl.
  destruct colors as [|c t]; [discriminate Hlo|].
  injection Hlo as Hlo. injection Hhi as Hhi.
  set (bins := map _ (zrange (K + 1))).
  exists (fdiv (inject_Z (Z.of_nat (List.length bins) - 1)) (inject_Z (K - 1))).
  rewrite (map_ext_in _ (fun _ =>
    true_divide (Z.of_nat (List.length bins) - 1) (K - 1))).
  - rewrite map_const_repeat. simpl List.length.
    unfold true_divide. assert ((K - 1 =? 0) = false) as -> by lia.
    f_equal. apply np_unique_const. simpl. apply Qeq_alt. reflexivity.
  - intros x Hx. f_equal. f_equal. apply digitize_all_edges.
    apply Forall_forall. intros b Hb. unfold bins in Hb.
    apply in_map_iff in Hb. destruct Hb as [i [<- _]].
    rewrite linspace_flat_edge by exact E.
    subst lo. apply fold_min_le. exact Hx.
Qed.

Lemma quantize_colors_flat_single_level_witness :
  exists q, quantize_colors [1#2]%Q 4 = Ok [Fin q].
Proof.
  apply (quantize_colors_flat_single_level [1#2]%Q 4 (1#2)%Q (1#2)%Q);
    [reflexivity | reflexivity | reflexivity | lia].
Defined.

(** ** The maximum always overflows *)

Lemma insert_unique_keeps {A : Type} (cmp : A -> A -> comparison) (x y : A) (l : list A) :
  In y l -> In y (insert_unique cmp x l).
Proof.
  induction l as [|a l IH]; simpl; [intros []|].
  intros Hin. destruct (cmp x a); simpl; auto.
  destruct Hin as [-> | Hin]; auto.
Qed.

Lemma insert_unique_has {A : Type} (cmp : A -> A -> comparison) (x : A) (l : list A) :
  exists y, In y (insert_unique cmp x l) /\ (y = x \/ cmp x y = Eq).
Proof.
  induction l as [|a l IH]; simpl.
  - exists x. auto.
  - destruct (cmp x a) eqn:E.
    + exists a. simpl. auto.
    + exists x. simpl. auto.
    + destruct IH as [y [Hin Hy]]. exists y. simpl. auto.
Qed.

Lemma np_unique_has {A : Type} (cmp : A -> A -> comparison) (x : A) (l : list A) :
  In x l -> exists y, In y (np_unique cmp l) /\ (y = x \/ cmp x y = Eq).
Proof.
  unfold np_unique. generalize (@nil A) as acc.
  induction l as [|a l IH]; intros acc; [intros []|].
  intros [-> | Hin]; simpl.
  - destruct (insert_unique_has cmp x acc) as [y [Hy Hxy]].
    exists y. split; [|exact Hxy].
    clear IH. revert Hy. generalize (insert_unique cmp x acc) as acc'.
    induction l as [|b l IH]; intros acc' Hy; simpl; [exact Hy|].
    apply IH. apply insert_unique_keeps. exact Hy.
  - apply IH. exact Hin.
Qed.

Lemma zrange_bounds (n i : Z) : In i (zrange n) -> 0 <= i < n.
Proof.
  unfold zrange. intros H. apply in_map_iff in H. destruct H as [k [<- Hk]].
  apply in_seq in Hk. lia.
Qed.

Lemma linspace_edge_le_stop (lo hi : Q) (K i : Z) :
  (lo <= hi)%Q -> 0 < K -> 0 <= i <= K ->
  (fadd lo (fmul (inject_Z i) (fdiv (fsub hi lo) (inject_Z K))) <= hi)%Q.
Proof.
  intros Hle HK Hi. unfold fadd, fmul, fdiv, fsub. rewrite !Qred_correct.
  assert (0 < inject_Z K)%Q as HK'
    by (change 0%Q with (inject_Z 0); rewrite <- Zlt_Qlt; exact HK).
  assert (0 <= hi - lo)%Q as Hd.
  { rewrite <- (Qplus_opp_r lo). apply Qplus_le_compat; [exact Hle | apply Qle_refl]. }
  assert (inject_Z i / inject_Z K <= 1)%Q as Hfrac.
  { apply Qle_shift_div_r; [exact HK'|]. rewrite Qmult_1_l. rewrite <- Zle_Qle. lia. }
  assert (inject_Z i * ((hi - lo) / inject_Z K)
          == (inject_Z i / inject_Z K) * (hi - lo))%Q as ->.
  { field. intros E. rewrite E in HK'. exact (Qlt_irrefl _ HK'). }
  assert (hi == lo + 1 * (hi - lo))%Q as Ehi by ring.
  rewrite Ehi at 2.
  apply Qplus_le_compat; [apply Qle_refl|].
  apply Qmult_le_compat_r; assumption.
Qed.

(** The edges [linspace] produces between the minimum and the maximum
    never decrease, which is the case [digitize] is modelled for. *)
Lemma linspace_edges_nondecreasing (lo hi : Q) (d i j : Z) :
  (lo <= hi)%Q -> 0 <= d -> i <= j ->
  (fadd lo (fmul (inject_Z i) (fdiv (fsub hi lo) (inject_Z d)))
   <= fadd lo (fmul (inject_Z j) (fdiv (fsub hi lo) (inject_Z d))))%Q.
Proof.
  intros Hle Hd Hij. unfold fadd, fmul, fdiv, fsub. rewrite !Qred_correct.
  apply Qplus_le_compat; [apply Qle_refl|].
  apply Qmult_le_compat_r; [rewrite <- Zle_Qle; exact Hij|].
  unfold Qdiv. apply Qmult_le_0_compat.
  - rewrite <- (Qplus_opp_r lo). apply Qplus_le_compat; [exact Hle | apply Qle_refl].
  - apply Qinv_le_0_compat. change 0%Q with (inject_Z 0). rewrite <- Zle_Qle. exact Hd.
Qed.

(** The departure of C1 is systematic: for every non-empty intensity set
    and K >= 2 the maximum gets bin index K, so the result contains a
    level equal to K/(K-1), above 1. *)
Lemma quantize_colors_always_exceeds_one (colors : list Q) (K : Z) :
  colors <> [] -> 2 <= K ->
  exists levels q,
    quantize_colors colors K = Ok levels /\ In (Fin q) levels /\ (1 < q)%Q.
Proof.
  intros Hne HK. destruct colors as [|c t]; [congruence|].
  unfold quantize_colors. cbn [np_min np_max rbind].
  unfold linspace. assert ((K + 1 <? 0) = false) as -> by lia. cbn [rbind].
  set (lo := fold_left Qmin t c). set (hi := fold_left Qmax t c).
  set (bins := map _ (zrange (K + 1))).
  match goal with |- context [np_unique npfloat_compare ?l] => set (quantized := l) end.
  assert (In hi (c :: t)) as Hhi by apply fold_max_in.
  assert (lo <= hi)%Q as Hle.
  { eapply Qle_trans; [apply fold_min_le_init | apply fold_max_ge_init]. }
  assert (digitize hi bins = K + 1) as Hdig.
  { rewrite digitize_all_edges.
    - unfold bins, zrange. rewrite !length_map, length_seq. lia.
    - apply Forall_forall. intros b Hb. unfold bins in Hb.
      apply in_map_iff in Hb. destruct Hb as [i [<- Hi]].
      apply zrange_bounds in Hi.
      replace (K + 1 - 1) with K by lia.
      apply linspace_edge_le_stop; [exact Hle | lia | lia]. }
  assert (In (Fin (fdiv (inject_Z K) (inject_Z (K - 1)))) quantized) as Hin.
  { unfold quantized. apply in_map_iff. exists hi. split; [|exact Hhi].
    rewrite Hdig. replace (K + 1 - 1) with K by lia.
    unfold true_divide. assert ((K - 1 =? 0) = false) as -> by lia. reflexivity. }
  destruct (np_unique_has npfloat_compare _ _ Hin) as [y [Hy Hxy]].
  assert (1 < fdiv (inject_Z K) (inject_Z (K - 1)))%Q as Hgt.
  { unfold fdiv. rewrite Qred_correct.
    assert (0 < inject_Z (K - 1))%Q as Hpos
      by (change 0%Q with (inject_Z 0); rewrite <- Zlt_Qlt; lia).
    apply Qlt_shift_div_l; [exact Hpos|]. rewrite Qmult_1_l. rewrite <- Zlt_Qlt. lia. }
  destruct Hxy as [-> | Hcmp].
  - eexists. eexists. split; [reflexivity|]. split; [exact Hy | exact Hgt].
  - destruct y as [q| | |]; simpl in Hcmp; try discriminate Hcmp.
    apply Qeq_alt in Hcmp. exists (np_unique npfloat_compare quantized), q.
    split; [reflexivity|]. split; [exact Hy|]. rewrite <- Hcmp. exact Hgt.
Qed.

(** ** Sampling and UV range *)

Lemma py_int_floor (q : Q) : (0 <= q)%Q -> py_int q = Qfloor q.
Proof.
  intros H. unfold py_int, Qfloor. destruct q as [n d]; simpl.
  apply Z.quot_div_nonneg; [|lia].
  unfold Qle in H. simpl in H. lia.
Qed.

Lemma py_int_scaled_range (u : Q) (n : Z) :
  (0 <= u)%Q -> (u <= 1)%Q -> 0 <= n ->
  0 <= py_int (fmul u (inject_Z n)) <= n.
Proof.
  intros H0 H1 Hn. unfold fmul.
  assert (0 <= inject_Z n)%Q as Hn'
    by (change 0%Q with (inject_Z 0); rewrite <- Zle_Qle; exact Hn).
  assert (0 <= u * inject_Z n)%Q as Hlo by (apply Qmult_le_0_compat; assumption).
  assert (u * inject_Z n <= inject_Z n)%Q as Hhi.
  { rewrite <- (Qmult_1_l (inject_Z n)) at 2.
    apply Qmult_le_compat_r; assumption. }
  rewrite py_int_floor by (rewrite Qred_correct; exact Hlo).
  rewrite (Qfloor_comp _ _ (Qred_correct _)).
  split.
  - rewrite <- (Qfloor_Z 0) at 1. apply Qfloor_resp_le. exact Hlo.
  - rewrite <- (Qfloor_Z n) at 2. apply Qfloor_resp_le. exact Hhi.
Qed.

Lemma np_index_in_range (axis n : nat) (i : Z) :
  0 <= i < Z.of_nat n -> np_index axis n i = Ok (Z.to_nat i).
Proof.
  intros H. unfold np_index.
  assert (((0 <=? i) && (i <? Z.of_nat n))%bool = true) as -> by lia.
  reflexivity.
Qed.

(** C5, counterexample: on the 2x2 raster, u = 2 gives x = int(2 * 1) = 2
    and the read [pixels[0, 2]] raises IndexError; nothing is clamped. *)
Lemma sampling_outside_unit_square_faults :
  (px <- reshape (pixels checker_image) 2 2 1 ;;
   pixel_value_at px 2 2 1 (2, 0)%Q)%result
  = Raise (IndexError "index 2 is out of bounds for axis 1 with size 2").
Proof. vm_compute. reflexivity. Qed.

(** C5, as amended: no clamping is performed; for a UV coordinate that
    already lies in [0,1]x[0,1] the pixel coordinates
    x = int(u * (W - 1)), y = int(v * (H - 1)) fall inside the raster and
    sampling returns the value of that pixel without faulting. *)
Theorem sampling_inside_unit_square
  (buf : list Q) (width height chans : nat) (px : ndarray3) (u v : Q) :
  reshape buf height width chans = Ok px ->
  (1 <= width)%nat -> (1 <= height)%nat -> (1 <= chans)%nat ->
  (0 <= u)%Q -> (u <= 1)%Q -> (0 <= v)%Q -> (v <= 1)%Q ->
  let x := fst (pixel_coords width height (u, v)) in
  let y := snd (pixel_coords width height (u, v)) in
  0 <= x < Z.of_nat width /\ 0 <= y < Z.of_nat height
  /\ pixel_value_at px width height chans (u, v)
     = Ok (let k := ((Z.to_nat y * width + Z.to_nat x) * chans)%nat in
           if (1 <? chans)%nat then np_mean (firstn chans (skipn k buf))
           else nth (k + 0) buf 0%Q).
Proof.
  intros Hre Hw Hh Hc Hu0 Hu1 Hv0 Hv1 x y.
  assert (0 <= x <= Z.of_nat width - 1) as Hx
    by (apply py_int_scaled_range; [assumption | assumption | lia]).
  assert (0 <= y <= Z.of_nat height - 1) as Hy
    by (apply py_int_scaled_range; [assumption | assumption | lia]).
  split; [lia | split; [lia|]].
  unfold reshape in Hre.
  destruct (List.length buf =? height * width * chans)%nat; [|discriminate Hre].
  injection Hre as <-.
  unfold pixel_value_at.
  change (pixel_coords width height (u, v)) with (x, y).
  unfold getitem2, getitem3; simpl shape; simpl flat. cbv iota.
  rewrite (np_index_in_range 0 height y) by lia.
  rewrite (np_index_in_range 1 width x) by lia.
  destruct (1 <? chans)%nat eqn:Ec; simpl.
  - reflexivity.
  - rewrite (np_index_in_range 2 chans 0) by lia. reflexivity.
Qed.

Lemma sampling_inside_unit_square_witness :
  0 <= fst (pixel_coords 2 2 (1, 1)%Q) < 2
  /\ 0 <= snd (pixel_coords 2 2 (1, 1)%Q) < 2
  /\ pixel_value_at {| shape := (2, 2, 1)%nat; flat := pixels checker_image |}
       2 2 1 (1, 1)%Q = Ok 1%Q.
Proof.
  apply (sampling_inside_unit_square (pixels checker_image) 2 2 1
           {| shape := (2, 2, 1)%nat; flat := pixels checker_image |} 1%Q 1%Q);
    first [reflexivity | lia | discriminate].
Defined.

(** ** Loops and the call log *)

Lemma for_each_app {A S : Type} (l1 l2 : list A) (body : A -> S -> result S) (s : S) :
  for_each (l1 ++ l2) body s
  = (s' <- for_each l1 body s ;; for_each l2 body s')%result.
Proof.
  revert s. induction l1 as [|a l1 IH]; intros s; simpl; [reflexivity|].
  destruct (body a s); simpl; [apply IH | reflexivity].
Qed.

(** The nested loop over polygons and their corners is one loop over
    the corners of the mesh in order. *)
Lemma for_each_concat {A S : Type} (ls : list (list A)) (body : A -> S -> result S)
  (s : S) :
  for_each ls (fun l st => for_each l body st) s = for_each (List.concat ls) body s.
Proof.
  revert s. induction ls as [|l ls IH]; intros s; simpl; [reflexivity|].
  rewrite for_each_app. destruct (for_each l body s); simpl; [apply IH | reflexivity].
Qed.

Lemma new_calls_app (o o' : Object) (cs : list vg_call) :
  calls o' = calls o ++ cs -> new_calls o o' = cs.
Proof.
  intros H. unfold new_calls. rewrite H. rewrite skipn_app, skipn_all, Nat.sub_diag.
  reflexivity.
Qed.

Lemma get_or_new_run (name : string) (o : Object) :
  exists o' cs,
    get_or_new name o = (Ok name, o')
    /\ data o' = data o
    /\ calls o' = calls o ++ VgGet name :: cs
    /\ (cs = [] \/ cs = [VgNew name]).
Proof.
  unfold get_or_new, hbind, vertex_groups_get, vertex_groups_new, hret.
  destruct (has_group name (vertex_groups o)); simpl.
  - eexists. exists []. repeat split; auto.
  - eexists. exists [VgNew name]. repeat split; auto.
    simpl. rewrite <- app_assoc. reflexivity.
Qed.

Lemma write_weights_run (group : string) (weights : list (nat * Q)) (o : Object) :
  exists o',
    hfor_each weights (fun iw _ => group_add group (fst iw) (snd iw)) tt o = (Ok tt, o')
    /\ data o' = data o
    /\ calls o' = calls o ++ map (fun iw => VgAdd group (fst iw) (snd iw)) weights.
Proof.
  revert o. induction weights as [|iw weights IH]; intros o; simpl.
  - exists o. unfold hret. rewrite app_nil_r. auto.
  - unfold hbind at 1. unfold group_add at 1.
    match goal with |- context [hfor_each _ _ _ ?o1] =>
      destruct (IH o1) as [o' [Hrun [Hd Hc]]] end.
    exists o'. rewrite Hrun. repeat split; auto.
    rewrite Hc. simpl. rewrite <- app_assoc. reflexivity.
Qed.

Lemma added_weights_app (l1 l2 : list vg_call) :
  added_weights (l1 ++ l2) = added_weights l1 ++ added_weights l2.
Proof. unfold added_weights. apply flat_map_app. Qed.

Lemma added_weights_adds (group : string) (weights : list (nat * Q)) :
  added_weights (map (fun iw => VgAdd group (fst iw) (snd iw)) weights)
  = map snd weights.
Proof. induction weights as [|iw ws IH]; simpl; congruence. Qed.

(** ** Normalization *)

Section Normalize.
Local Open Scope Q_scope.

Lemma fdiv_zero (a r : Q) : a == 0 -> fdiv a r = 0.
Proof.
  intros E. unfold fdiv. change 0 with (Qred 0). apply Qred_complete.
  rewrite E. unfold Qdiv. ring.
Qed.

Lemma fdiv_self (a r : Q) : ~ r == 0 -> a == r -> fdiv a r = 1.
Proof.
  intros Hr E. unfold fdiv. change 1 with (Qred 1). apply Qred_complete.
  rewrite E. field. exact Hr.
Qed.

Lemma fdiv_unit (a r : Q) : 0 < r -> 0 <= a -> a <= r -> 0 <= fdiv a r /\ fdiv a r <= 1.
Proof.
  intros Hr H0 H1. unfold fdiv. rewrite Qred_correct. split.
  - apply Qle_shift_div_l; [exact Hr|]. rewrite Qmult_0_l. exact H0.
  - apply Qle_shift_div_r; [exact Hr|]. rewrite Qmult_1_l. exact H1.
Qed.

Lemma fsub_correct (a b : Q) : fsub a b == a - b.
Proof. unfold fsub. apply Qred_correct. Qed.

Lemma fgt_iff (a b : Q) : fgt a b = true <-> b < a.
Proof.
  unfold fgt. rewrite negb_true_iff. split.
  - intros H. apply Qnot_le_lt. intros Hle.
    apply Qle_bool_iff in Hle. congruence.
  - intros H. destruct (Qle_bool a b) eqn:E; [|reflexivity].
    apply Qle_bool_iff in E. exfalso. exact (Qlt_not_le _ _ H E).
Qed.

(** What [if normalize:] computes from a non-empty list of samples
    with minimum [lo] and maximum [hi]. *)
Lemma normalize_weights_spec (weights : list (nat * Q)) (lo hi : Q) :
  py_min (map snd weights) = Ok lo ->
  py_max (map snd weights) = Ok hi ->
  exists out,
    normalize_weights weights = Ok out
    /\ List.length out = List.length weights
    /\ (lo < hi ->
        In 0 (map snd out) /\ In 1 (map snd out)
        /\ Forall (fun w => 0 <= w /\ w <= 1) (map snd out))
    /\ (lo == hi -> Forall (fun w => w = 1) (map snd out)).
Proof.
  intros Hlo Hhi. unfold normalize_weights. rewrite Hlo, Hhi. simpl.
  destruct (map snd weights) as [|x t] eqn:Ews; [discriminate Hlo|].
  injection Hlo as Hlo. injection Hhi as Hhi.
  assert (forall w, In w (x :: t) -> lo <= w /\ w <= hi) as Hbounds.
  { intros w Hw. split; [subst lo; apply fold_min_le | subst hi; apply fold_max_ge];
      exact Hw. }
  assert (In lo (x :: t)) as Hlo_in by (subst lo; apply fold_min_in).
  assert (In hi (x :: t)) as Hhi_in by (subst hi; apply fold_max_in).
  destruct (fgt (fsub hi lo) 0) eqn:G.
  - apply fgt_iff in G. rewrite fsub_correct in G.
    eexists. split; [reflexivity|]. split; [apply length_map|].
    rewrite map_map. simpl.
    rewrite <- (map_map snd (fun w => fdiv (fsub w lo) (fsub hi lo))), Ews.
    split.
    + intros _. split; [|split].
      * apply in_map_iff. exists lo. split; [|exact Hlo_in].
        apply fdiv_zero. rewrite fsub_correct. ring.
      * apply in_map_iff. exists hi. split; [|exact Hhi_in].
        apply fdiv_self; [|reflexivity].
        rewrite fsub_correct. intros E0. rewrite E0 in G.
        exact (Qlt_irrefl _ G).
      * apply Forall_forall. intros w Hw. apply in_map_iff in Hw.
        destruct Hw as [s [<- Hs]]. destruct (Hbounds s Hs) as [B1 B2].
        apply fdiv_unit.
        -- rewrite fsub_correct. exact G.
        -- rewrite fsub_correct. rewrite <- (Qplus_opp_r lo).
           apply Qplus_le_compat; [exact B1 | apply Qle_refl].
        -- rewrite !fsub_correct.
           apply Qplus_le_compat; [exact B2 | apply Qle_refl].
    + intros E. exfalso. rewrite E in G.
      assert (hi - hi == 0) as E0 by ring. rewrite E0 in G.
      exact (Qlt_irrefl _ G).
  - eexists. split; [reflexivity|]. split; [apply length_map|].
    rewrite map_map. simpl. split.
    + intros Hlt. exfalso.
      assert (fgt (fsub hi lo) 0 = true) as G'.
      { apply fgt_iff. rewrite fsub_correct.
        rewrite <- (Qplus_opp_r lo).
        apply Qplus_lt_le_compat; [exact Hlt | apply Qle_refl]. }
      congruence.
    + intros _. apply Forall_forall. intros w Hw.
      apply in_map_iff in Hw. destruct Hw as [s [<- _]]. reflexivity.
Qed.
End Normalize.

Lemma weight_corners_length (mesh : Mesh) (uv_layer : list (Q * Q)) (px : ndarray3)
  (width height chans : nat) (corners : list nat) (ws0 ws : list (nat * Q)) :
  for_each corners (weight_corner mesh uv_layer px width height chans) ws0 = Ok ws ->
  List.length ws = (List.length ws0 + List.length corners)%nat.
Proof.
  revert ws0. induction corners as [|c corners IH]; intros ws0 H; simpl in H.
  - injection H as <-. simpl. lia.
  - destruct (weight_corner mesh uv_layer px width height chans c ws0) as [ws1|e] eqn:E;
      simpl in H; [|discriminate H].
    apply IH in H. rewrite H. simpl.
    unfold weight_corner in E.
    destruct (py_getitem (loops mesh) c) as [vi|]; simpl in E; [|discriminate E].
    destruct (py_getitem uv_layer c) as [uv|]; simpl in E; [|discriminate E].
    destruct (pixel_value_at px width height chans uv); simpl in E; [|discriminate E].
    injection E as <-. rewrite length_app. simpl. lia.
Qed.

(** One sample is recorded per face-corner. *)
Lemma collect_weights_length (mesh : Mesh) (uv_layer : list (Q * Q)) (px : ndarray3)
  (width height chans : nat) (ws : list (nat * Q)) :
  collect_weights mesh uv_layer px width height chans = Ok ws ->
  List.length ws = List.length (List.concat (polygons mesh)).
Proof.
  unfold collect_weights. rewrite for_each_concat. intros H.
  apply weight_corners_length in H. exact H.
Qed.

(** C8: weight painting with [normalize = True] on a mesh with at least
    one face-corner, where [lo] and [hi] are the least and greatest
    sampled intensity.  The engine returns, having passed one weight per
    face-corner to [group.add]; if [lo < hi] these weights lie in [0,1]
    and both 0 and 1 occur among them (minimum exactly 0, maximum exactly
    1); if [lo = hi] every one of them is exactly 1. *)
Theorem normalized_weights_span_unit_interval
  (obj : Object) (image : Image) (group_name : string)
  (uv_layer : list (Q * Q)) (px : ndarray3) (ws : list (nat * Q)) (lo hi : Q) :
  uv_layers_active (data obj) = Some uv_layer ->
  reshape (pixels image) (snd (size image)) (fst (size image)) (channels image) = Ok px ->
  collect_weights (data obj) uv_layer px (fst (size image)) (snd (size image))
    (channels image) = Ok ws ->
  List.concat (polygons (data obj)) <> [] ->
  py_min (map snd ws) = Ok lo ->
  py_max (map snd ws) = Ok hi ->
  exists obj',
    assign_weights_from_texture obj image group_name true = (Ok true, obj')
    /\ let out := added_weights (new_calls obj obj') in
       List.length out = List.length (List.concat (polygons (data obj)))
       /\ ((lo < hi)%Q ->
           In 0%Q out /\ In 1%Q out /\ Forall (fun w => (0 <= w)%Q /\ (w <= 1)%Q) out)
       /\ ((lo == hi)%Q -> Forall (fun w => w = 1%Q) out).
Proof.
  intros Huv Hre Hcol Hne Hlo Hhi.
  destruct (normalize_weights_spec ws lo hi Hlo Hhi) as [out [Hnorm [Hlen [Hspan Hflat]]]].
  unfold assign_weights_from_texture. rewrite Huv.
  destruct (size image) as [width height]. simpl in Hre, Hcol.
  unfold hbind at 1. unfold hlift at 1. rewrite Hre.
  unfold hbind at 1.
  destruct (get_or_new_run group_name obj) as [o1 [cs [Hget [Hd1 [Hc1 Hcs]]]]].
  rewrite Hget.
  unfold hbind at 1. unfold hlift at 1. rewrite Hcol.
  unfold hbind at 1. unfold hlift at 1. rewrite Hnorm.
  unfold hbind at 1.
  destruct (write_weights_run group_name out o1) as [o2 [Hrun [Hd2 Hc2]]].
  rewrite Hrun. unfold hret. exists o2. split; [reflexivity|].
  assert (added_weights (new_calls obj o2) = map snd out) as Hout.
  { rewrite (new_calls_app obj o2
               (VgGet group_name :: cs
                  ++ map (fun iw => VgAdd group_name (fst iw) (snd iw)) out)).
    - change (VgGet group_name :: cs ++ ?l) with ((VgGet group_name :: cs) ++ l).
      rewrite added_weights_app, added_weights_adds.
      destruct Hcs as [-> | ->]; reflexivity.
    - rewrite Hc2, Hc1. rewrite <- app_assoc. reflexivity. }
  cbv zeta. rewrite Hout. split; [|split; assumption].
  rewrite length_map, Hlen. eapply collect_weights_length. exact Hcol.
Qed.

Lemma normalized_weights_span_unit_interval_witness :
  exists obj',
    assign_weights_from_texture (empty_object quad) checker_image "Texture_Weights" true
      = (Ok true, obj')
    /\ let out := added_weights (new_calls (empty_object quad) obj') in
       List.length out = 4%nat
       /\ ((0 < 1)%Q ->
           In 0%Q out /\ In 1%Q out /\ Forall (fun w => (0 <= w)%Q /\ (w <= 1)%Q) out)
       /\ ((0 == 1)%Q -> Forall (fun w => w = 1%Q) out).
Proof.
  apply (normalized_weights_span_unit_interval (empty_object quad) checker_image
           "Texture_Weights" [(0, 0); (1, 0); (1, 1); (0, 1)]%Q
           {| shape := (2, 2, 1)%nat; flat := pixels checker_image |}
           [(0%nat, 0%Q); (1%nat, 0%Q); (2%nat, 1%Q); (3%nat, 1%Q)] 0%Q 1%Q);
    first [reflexivity | discriminate].
Defined.

(** ** The second pass of the group engine *)

Lemma sorted_insert_in (x y : Q) (l : list Q) :
  In x (sorted_insert y l) -> x = y \/ In x l.
Proof.
  induction l as [|a l IH]; simpl.
  - intros [<- | []]. left. reflexivity.
  - destruct (fgt a y); simpl.
    + intros [<- | H]; auto.
    + intros [<- | H]; auto. destruct (IH H); auto.
Qed.

Lemma py_sorted_in (x : Q) (l : list Q) : In x (py_sorted l) -> In x l.
Proof.
  unfold py_sorted.
  assert (forall acc, In x (fold_left (fun acc y => sorted_insert y acc) l acc) ->
                      In x acc \/ In x l) as H.
  { induction l as [|a l IH]; intros acc; simpl; [auto|].
    intros Hin. destruct (IH _ Hin) as [Hacc | Hl]; [|auto].
    destruct (sorted_insert_in _ _ _ Hacc) as [-> | Hacc']; auto. }
  intros Hin. destruct (H [] Hin) as [[] | Hl]. exact Hl.
Qed.

Lemma dict_get_key (d : assignments) (k : Q) :
  In k (map fst d) -> exists s, dict_get d k = Some s.
Proof.
  induction d as [|[k' s'] d IH]; simpl; [intros []|].
  intros [<- | Hin].
  - rewrite Qeq_bool_refl. eauto.
  - destruct (Qeq_bool k' k); eauto.
Qed.

Lemma add_members_cons (group : string) (color p threshold : Q) (v : nat)
  (vs : list nat) (o : Object) :
  add_members group color (Some p) threshold (v :: vs) o
  = add_members group color (Some p) threshold vs
      (if fge (level_weight color p) threshold
       then snd (group_add group v (level_weight color p) o)
       else o).
Proof.
  unfold add_members. simpl. unfold hbind, hlift. simpl.
  fold (level_weight color p).
  destruct (fge (level_weight color p) threshold); reflexivity.
Qed.

Lemma add_members_run (group : string) (color p threshold : Q)
  (vertex_indices : list nat) (o : Object) :
  exists o',
    add_members group color (Some p) threshold vertex_indices o = (Ok tt, o')
    /\ calls o' = calls o
         ++ (if fge (level_weight color p) threshold
             then map (fun v => VgAdd group v (level_weight color p)) vertex_indices
             else []).
Proof.
  revert o. induction vertex_indices as [|v vs IH]; intros o.
  - exists o. split; [reflexivity|].
    destruct (fge _ _); simpl; rewrite app_nil_r; reflexivity.
  - rewrite add_members_cons.
    destruct (fge (level_weight color p) threshold) eqn:G.
    + destruct (IH (snd (group_add group v (level_weight color p) o)))
        as [o' [Hrun Hc]].
      exists o'. split; [exact Hrun|].
      rewrite Hc. simpl. rewrite <- app_assoc. reflexivity.
    + destruct (IH o) as [o' [Hrun Hc]].
      exists o'. split; [exact Hrun|]. exact Hc.
Qed.

(** With [pixel_value] unbound the inner loop still returns when there is
    no member to iterate over. *)
Lemma add_members_any_run (group : string) (color : Q) (pvo : option Q)
  (threshold : Q) (vertex_indices : list nat) (o : Object) :
  (pvo = None -> vertex_indices = []) ->
  exists o',
    add_members group color pvo threshold vertex_indices o = (Ok tt, o')
    /\ calls o' = calls o ++ member_calls group color pvo threshold vertex_indices.
Proof.
  intros Hunbound. destruct pvo as [p|].
  - apply add_members_run.
  - rewrite (Hunbound eq_refl). exists o. simpl. rewrite app_nil_r. auto.
Qed.

Lemma group_names_app (l1 l2 : list vg_call) :
  group_names (l1 ++ l2) = group_names l1 ++ group_names l2.
Proof. unfold group_names. apply flat_map_app. Qed.

Lemma group_names_member_calls (group : string) (color : Q) (pvo : option Q)
  (threshold : Q) (vs : list nat) :
  group_names (member_calls group color pvo threshold vs) = [].
Proof.
  unfold member_calls. destruct pvo as [p|]; [|reflexivity].
  destruct (fge _ _); [|reflexivity].
  induction vs; simpl; auto.
Qed.

Lemma in_member_calls (group : string) (color : Q) (pvo : option Q)
  (threshold : Q) (vs : list nat) (g : string) (v : nat) (w : Q) :
  In (VgAdd g v w) (member_calls group color pvo threshold vs) ->
  exists p, pvo = Some p /\ g = group /\ w = level_weight color p /\ In v vs.
Proof.
  unfold member_calls. destruct pvo as [p|]; [|intros []].
  destruct (fge _ _); [|intros []].
  intros Hin. apply in_map_iff in Hin. destruct Hin as [v' [Heq Hv']].
  injection Heq as <- <- <-. exists p. auto.
Qed.

Section EmitLevels.
Variables (vga : assignments) (pvo : option Q) (threshold : Q)
          (min_group_size : Z) (base_group_name : string).

(** [pixel_value] is unbound only when no corner was sampled, and then
    no level has a member. *)
Hypothesis unbound_means_empty :
  pvo = None -> forall color s, dict_get vga color = Some s -> s = [].

Let keep := level_kept vga min_group_size.

(** The loop over the sorted levels, started with [groups_created = n]:
    it ends with [n] plus the number of levels kept, obtains one group
    per kept level, numbered consecutively from [n + 1], and every
    weight it writes into the group of a kept level is that level's
    [level_weight]. *)
Lemma emit_levels_run (levels : list Q) (n : nat) (o : Object) :
  (forall color, In color levels -> In color (map fst vga)) ->
  exists o' tr,
    hfor_each levels
      (emit_level vga pvo threshold min_group_size base_group_name) n o
      = (Ok (n + List.length (filter keep levels))%nat, o')
    /\ calls o' = calls o ++ tr
    /\ group_names tr
       = map (group_name_of base_group_name)
           (seq n (List.length (filter keep levels)))
    /\ (forall g v w, In (VgAdd g v w) tr ->
          exists j color p,
            nth_error (filter keep levels) j = Some color
            /\ g = group_name_of base_group_name (n + j)
            /\ pvo = Some p
            /\ w = level_weight color p
            /\ In v (members vga color)).
Proof.
  revert n o. induction levels as [|color levels IH]; intros n o Hkeys.
  - exists o, []. simpl. unfold hret. rewrite Nat.add_0_r, app_nil_r.
    repeat split; auto. intros g v w [].
  - assert (forall c, In c levels -> In c (map fst vga)) as Hkeys'
      by (intros c Hc; apply Hkeys; right; exact Hc).
    destruct (dict_get_key vga color (Hkeys color (or_introl eq_refl))) as [s Hs].
    simpl hfor_each. unfold hbind at 1. unfold emit_level at 1.
    unfold hbind at 1. unfold hlift at 1. unfold dict_getitem. rewrite Hs.
    assert (keep color = (Z.of_nat (List.length s) >=? min_group_size)) as Hkeep
      by (unfold keep, level_kept, members; rewrite Hs; reflexivity).
    change (filter keep (color :: levels))
      with (if keep color then color :: filter keep levels else filter keep levels).
    rewrite Hkeep.
    destruct (Z.of_nat (List.length s) >=? min_group_size) eqn:Ek.
    + unfold hbind at 1.
      destruct (get_or_new_run (group_name_of base_group_name n) o)
        as [o1 [cs [Hget [_ [Hc1 Hcs]]]]].
      rewrite Hget. unfold hbind at 1.
      destruct (add_members_any_run (group_name_of base_group_name n) color pvo
                  threshold s o1
                  (fun E => unbound_means_empty E color s Hs))
        as [o2 [Hadd Hc2]].
      rewrite Hadd. unfold hret at 1.
      destruct (IH (n + 1)%nat o2 Hkeys') as [o' [tr [Hrun [Hc [Hnames Hadds]]]]].
      set (mine := member_calls (group_name_of base_group_name n) color pvo
                     threshold s) in *.
      exists o', ((VgGet (group_name_of base_group_name n) :: cs) ++ mine ++ tr).
      split; [|split; [|split]].
      * rewrite Hrun. simpl List.length. do 2 f_equal. lia.
      * rewrite Hc, Hc2, Hc1. rewrite <- !app_assoc. reflexivity.
      * rewrite !group_names_app. simpl List.length. simpl seq. simpl map.
        replace (S n) with (n + 1)%nat by lia. rewrite <- Hnames.
        unfold mine. rewrite group_names_member_calls.
        destruct Hcs as [-> | ->]; reflexivity.
      * intros g v w Hin. rewrite !in_app_iff in Hin.
        destruct Hin as [Hin | [Hin | Hin]].
        -- exfalso. destruct Hin as [Hin | Hin]; [discriminate Hin|].
           destruct Hcs as [-> | ->]; simpl in Hin; [tauto|].
           destruct Hin as [Hin | []]. discriminate Hin.
        -- apply in_member_calls in Hin.
           destruct Hin as [p [Hp [-> [-> Hv]]]].
           exists 0%nat, color, p.
           rewrite Nat.add_0_r. unfold members. rewrite Hs. auto.
        -- destruct (Hadds g v w Hin) as [j [c [p [Hnth [Hg [Hp [Hw Hv]]]]]]].
           exists (S j), c, p. simpl. repeat split; auto.
           rewrite Hg. f_equal. lia.
    + unfold hret at 1.
      destruct (IH n o Hkeys') as [o' [tr [Hrun [Hc [Hnames Hadds]]]]].
      exists o', tr. auto.
Qed.
End EmitLevels.

(** ** Group names *)

Lemma nat_of_string_of_nat (n : nat) : nat_of_string (string_of_nat n) = Some n.
Proof.
  unfold nat_of_string, string_of_nat.
  pose proof (DecimalNat.Unsigned.of_to n) as Hn.
  destruct (Nat.to_uint n) eqn:E;
    try (rewrite NilZero.usu by discriminate; simpl option_map; congruence).
  rewrite <- Hn. reflexivity.
Qed.

Lemma nat_of_format_02d (n : nat) : nat_of_string (format_02d n) = Some n.
Proof.
  unfold format_02d. destruct (String.length (string_of_nat n) <? 2)%nat.
  - pose proof (nat_of_string_of_nat n) as H.
    unfold nat_of_string in *.
    destruct (string_of_nat n) as [|a s]; [discriminate H|].
    change (NilZero.uint_of_string ("0" ++ String a s))
      with (uint_of_char "0" (NilZero.uint_of_string (String a s))).
    destruct (NilZero.uint_of_string (String a s)) as [d|]; [|discriminate H].
    exact H.
  - apply nat_of_string_of_nat.
Qed.

Lemma format_02d_inj (a b : nat) : format_02d a = format_02d b -> a = b.
Proof.
  intros H. apply (f_equal nat_of_string) in H.
  rewrite !nat_of_format_02d in H. congruence.
Qed.

Lemma string_app_inv_head (s x y : string) : (s ++ x = s ++ y)%string -> x = y.
Proof. induction s as [|c s IH]; simpl; [auto|]. intros H. injection H as H. auto. Qed.

Lemma group_name_of_inj (base : string) (a b : nat) :
  group_name_of base a = group_name_of base b -> a = b.
Proof.
  unfold group_name_of. intros H.
  apply string_app_inv_head in H. simpl in H. injection H as H.
  apply format_02d_inj in H. lia.
Qed.

Lemma format_02d_two_digits (j : nat) :
  (1 <= j <= 99)%nat -> String.length (format_02d j) = 2%nat.
Proof.
  intros H.
  assert (forallb (fun k => String.length (format_02d k) =? 2)%nat (seq 1 99) = true)
    as Hall by (vm_compute; reflexivity).
  rewrite forallb_forall in Hall.
  apply Nat.eqb_eq. apply Hall. apply in_seq. lia.
Qed.

(** ** The sampling pass leaves the last corner's sample in [pixel_value] *)

Lemma sample_corners_last (mesh : Mesh) (uv_layer : list (Q * Q)) (px : ndarray3)
  (width height chans : nat) (unique_colors : list Q) (corners : list nat)
  (st st' : assignments * option Q) :
  for_each corners (sample_corner mesh uv_layer px width height chans unique_colors) st
    = Ok st' ->
  corners <> [] ->
  exists uv p,
    py_getitem uv_layer (last corners 0%nat) = Ok uv
    /\ pixel_value_at px width height chans uv = Ok p
    /\ snd st' = Some p.
Proof.
  intros Hrun Hne. destruct (exists_last Hne) as [l [c ->]].
  rewrite last_last. rewrite for_each_app in Hrun.
  destruct (for_each l _ st) as [s1|e]; simpl in Hrun; [|discriminate Hrun].
  destruct (sample_corner mesh uv_layer px width height chans unique_colors c s1)
    as [s2|e] eqn:E; simpl in Hrun; [|discriminate Hrun].
  injection Hrun as <-. unfold sample_corner in E.
  destruct (py_getitem (loops mesh) c) as [vi|]; simpl in E; [|discriminate E].
  destruct (py_getitem uv_layer c) as [uv|] eqn:Euv; simpl in E; [|discriminate E].
  destruct (pixel_value_at px width height chans uv) as [p|] eqn:Ep; simpl in E;
    [|discriminate E].
  destruct (py_min_by _ unique_colors) as [cc|]; simpl in E; [|discriminate E].
  destruct (dict_getitem (fst s1) cc) as [ms|]; simpl in E; [|discriminate E].
  injection E as <-. exists uv, p. auto.
Qed.

(** Before any corner is sampled every level has the empty set. *)
Lemma dict_set_all_empty (d : assignments) (c : Q) :
  Forall (fun kv => snd kv = []) d ->
  Forall (fun kv => snd kv = []) (dict_set d c []).
Proof.
  induction 1 as [|[k s] d Hk Hd IH]; simpl.
  - constructor; [reflexivity | constructor].
  - destruct (Qeq_bool k c); constructor; auto.
Qed.

Lemma dict_get_all_empty (d : assignments) (k : Q) (s : list nat) :
  Forall (fun kv => snd kv = []) d -> dict_get d k = Some s -> s = [].
Proof.
  induction 1 as [|[k' s'] d Hk _ IH]; simpl; [discriminate|].
  destruct (Qeq_bool k' k); [|exact IH].
  intros H. injection H as <-. exact Hk.
Qed.

Lemma initial_assignments_empty (unique_colors : list Q) :
  Forall (fun kv => snd kv = [])
    (fold_left (fun d color => dict_set d color []) unique_colors []).
Proof.
  assert (forall d, Forall (fun kv : Q * list nat => snd kv = []) d ->
            Forall (fun kv => snd kv = [])
              (fold_left (fun d color => dict_set d color []) unique_colors d)) as H.
  { induction unique_colors as [|c cs IH]; intros d Hd; simpl; [exact Hd|].
    apply IH. apply dict_set_all_empty. exact Hd. }
  apply H. constructor.
Qed.

(** If the sampling pass ends with [pixel_value] unbound, no corner was
    sampled and every level still has the empty set. *)
Lemma sampling_pass_unbound (mesh : Mesh) (uv_layer : list (Q * Q)) (px : ndarray3)
  (width height chans : nat) (unique_colors : list Q) (vga : assignments) :
  sampling_pass mesh uv_layer px width height chans unique_colors = Ok (vga, None) ->
  forall color s, dict_get vga color = Some s -> s = [].
Proof.
  unfold sampling_pass. rewrite for_each_concat. intros Hrun color s Hs.
  destruct (List.concat (polygons mesh)) as [|c cs] eqn:E.
  - simpl in Hrun. injection Hrun as <-.
    eapply dict_get_all_empty; [apply initial_assignments_empty | exact Hs].
  - assert (c :: cs <> []) as Hne by discriminate.
    destruct (sample_corners_last _ _ _ _ _ _ _ _ _ _ Hrun Hne) as [uv [p [_ [_ Hp]]]].
    discriminate Hp.
Qed.

(** The group engine, once the sampling pass has succeeded: it returns,
    and its calls are those of [emit_levels_run] with the counter started
    at 0. *)
Lemma assign_vertex_groups_run
  (obj : Object) (unique_colors : list Q) (image : Image) (threshold : Q)
  (min_group_size : Z) (base_group_name : string)
  (uv_layer : list (Q * Q)) (px : ndarray3) (vga : assignments) (pvo : option Q) :
  uv_layers_active (data obj) = Some uv_layer ->
  reshape (pixels image) (snd (size image)) (fst (size image)) (channels image) = Ok px ->
  sampling_pass (data obj) uv_layer px (fst (size image)) (snd (size image))
    (channels image) unique_colors = Ok (vga, pvo) ->
  exists obj',
    assign_vertex_groups obj unique_colors image threshold min_group_size
      base_group_name = (Ok true, obj')
    /\ group_names (new_calls obj obj')
       = map (group_name_of base_group_name)
           (seq 0 (List.length (kept_levels vga min_group_size)))
    /\ (forall g v w, In (VgAdd g v w) (new_calls obj obj') ->
          exists j color p,
            nth_error (kept_levels vga min_group_size) j = Some color
            /\ g = group_name_of base_group_name j
            /\ pvo = Some p
            /\ w = level_weight color p
            /\ In v (members vga color)).
Proof.
  intros Huv Hre Hpass.
  assert (pvo = None -> forall color s, dict_get vga color = Some s -> s = [])
    as Hunbound.
  { intros ->. eapply sampling_pass_unbound. exact Hpass. }
  destruct (emit_levels_run vga pvo threshold min_group_size base_group_name
              Hunbound (py_sorted (map fst vga)) 0%nat obj
              (fun c H => py_sorted_in c (map fst vga) H))
    as [o' [tr [Hrun [Hc [Hnames Hadds]]]]].
  exists o'.
  unfold assign_vertex_groups. rewrite Huv.
  destruct (size image) as [width height]. simpl in Hre, Hpass |- *.
  unfold hbind at 1. unfold hlift at 1. rewrite Hre.
  unfold hbind at 1. unfold hlift at 1. rewrite Hpass.
  unfold hbind at 1. rewrite Hrun. unfold hret.
  rewrite (new_calls_app obj o' tr Hc).
  repeat split; auto.
Qed.

(** The value [pixel_value] holds after the sampling pass: the sample at
    the last face-corner of the last polygon. *)
Lemma sampling_pass_last (mesh : Mesh) (uv_layer : list (Q * Q)) (px : ndarray3)
  (width height chans : nat) (unique_colors : list Q) (vga : assignments)
  (pvo : option Q) :
  sampling_pass mesh uv_layer px width height chans unique_colors = Ok (vga, pvo) ->
  List.concat (polygons mesh) <> [] ->
  exists uv p,
    py_getitem uv_layer (last (List.concat (polygons mesh)) 0%nat) = Ok uv
    /\ pixel_value_at px width height chans uv = Ok p
    /\ pvo = Some p.
Proof.
  unfold sampling_pass. rewrite for_each_concat. intros Hrun Hne.
  destruct (sample_corners_last _ _ _ _ _ _ _ _ _ _ Hrun Hne) as [uv [p [H1 [H2 H3]]]].
  exists uv, p. auto.
Qed.

(** ** Naming and weights of the created groups *)

(** C7, counterexample: on a 100-gon whose corners fall on 100 distinct
    levels, with minSize = 1, the engine obtains 100 groups and names the
    last one "group.100": the counter has three digits there, not two. *)
Lemma hundredth_group_has_three_digits :
  let names :=
    group_names
      (new_calls (empty_object hundred_gon)
         (snd (assign_vertex_groups (empty_object hundred_gon) hundred_levels
                 wide_image (1#512)%Q 1 "group"))) in
  List.length names = 100%nat
  /\ nth 98 names ""%string = "group.99"%string
  /\ nth 99 names ""%string = "group.100"%string
  /\ forallb (two_digit_name "group") names = false.
Proof. vm_compute. repeat split; reflexivity. Qed.

(** C7, as amended: when the sampling pass has succeeded, the engine
    returns, and the groups it obtains are named, in ascending order of
    level,
    base.format(1), base.format(2), ..., one per level whose member set
    has at least [min_group_size] elements; a smaller level gets no group
    and uses no number.  The counter is printed in decimal with a minimum
    width of two (zero-padded): two digits up to 99, more from 100 on. *)
Theorem created_groups_are_numbered_without_gaps
  (obj : Object) (unique_colors : list Q) (image : Image) (threshold : Q)
  (min_group_size : Z) (base_group_name : string)
  (uv_layer : list (Q * Q)) (px : ndarray3) (vga : assignments) (pvo : option Q) :
  uv_layers_active (data obj) = Some uv_layer ->
  reshape (pixels image) (snd (size image)) (fst (size image)) (channels image) = Ok px ->
  sampling_pass (data obj) uv_layer px (fst (size image)) (snd (size image))
    (channels image) unique_colors = Ok (vga, pvo) ->
  exists obj',
    assign_vertex_groups obj unique_colors image threshold min_group_size
      base_group_name = (Ok true, obj')
    /\ group_names (new_calls obj obj')
       = map (fun j => (base_group_name ++ "." ++ format_02d j)%string)
           (seq 1 (List.length (kept_levels vga min_group_size)))
    /\ (forall j, (1 <= j <= 99)%nat -> String.length (format_02d j) = 2%nat).
Proof.
  intros Huv Hre Hpass.
  destruct (assign_vertex_groups_run obj unique_colors image threshold min_group_size
              base_group_name uv_layer px vga pvo Huv Hre Hpass)
    as [obj' [Hrun [Hnames _]]].
  exists obj'. split; [exact Hrun|]. split; [|apply format_02d_two_digits].
  rewrite Hnames. rewrite <- seq_shift, map_map.
  apply map_ext. intros j. unfold group_name_of.
  replace (j + 1)%nat with (S j) by lia. reflexivity.
Qed.

Lemma created_groups_are_numbered_without_gaps_witness :
  exists obj',
    assign_vertex_groups (empty_object quad) [0; 1#2; 1]%Q checker_image (1#4)%Q 1
      "group" = (Ok true, obj')
    /\ group_names (new_calls (empty_object quad) obj')
       = ["group.01"; "group.02"]%string
    /\ (forall j, (1 <= j <= 99)%nat -> String.length (format_02d j) = 2%nat).
Proof.
  apply (created_groups_are_numbered_without_gaps (empty_object quad) [0; 1#2; 1]%Q
           checker_image (1#4)%Q 1 "group"
           [(0, 0); (1, 0); (1, 1); (0, 1)]%Q
           {| shape := (2, 2, 1)%nat; flat := pixels checker_image |}
           [(0%Q, [0; 1]%nat); ((1#2)%Q, []); (1%Q, [2; 3]%nat)] (Some 1%Q));
    first [reflexivity | discriminate].
Defined.

(** C10: when the sampling pass has succeeded on a mesh with at least
    one face-corner, let [p] be the intensity sampled at the last
    face-corner of the last polygon.  Every weight the engine writes into
    the group of a level [color] is 1 - |color - p|, whatever the vertex;
    so any two weights written into one group are equal. *)
Theorem group_weight_ignores_the_vertex
  (obj : Object) (unique_colors : list Q) (image : Image) (threshold : Q)
  (min_group_size : Z) (base_group_name : string)
  (uv_layer : list (Q * Q)) (px : ndarray3) (vga : assignments) (pvo : option Q) :
  uv_layers_active (data obj) = Some uv_layer ->
  reshape (pixels image) (snd (size image)) (fst (size image)) (channels image) = Ok px ->
  sampling_pass (data obj) uv_layer px (fst (size image)) (snd (size image))
    (channels image) unique_colors = Ok (vga, pvo) ->
  List.concat (polygons (data obj)) <> [] ->
  exists obj' uv p,
    assign_vertex_groups obj unique_colors image threshold min_group_size
      base_group_name = (Ok true, obj')
    /\ py_getitem uv_layer (last (List.concat (polygons (data obj))) 0%nat) = Ok uv
    /\ pixel_value_at px (fst (size image)) (snd (size image)) (channels image) uv = Ok p
    /\ (forall g v w, In (VgAdd g v w) (new_calls obj obj') ->
          exists j color,
            nth_error (kept_levels vga min_group_size) j = Some color
            /\ g = (base_group_name ++ "." ++ format_02d (j + 1))%string
            /\ w = fsub 1 (fabs (fsub color p)))
    /\ (forall g v1 w1 v2 w2,
          In (VgAdd g v1 w1) (new_calls obj obj') ->
          In (VgAdd g v2 w2) (new_calls obj obj') -> w1 = w2).
Proof.
  intros Huv Hre Hpass Hne.
  destruct (assign_vertex_groups_run obj unique_colors image threshold min_group_size
              base_group_name uv_layer px vga pvo Huv Hre Hpass)
    as [obj' [Hrun [_ Hadds]]].
  destruct (sampling_pass_last _ _ _ _ _ _ _ _ _ Hpass Hne) as [uv [p [Hlast [Hp ->]]]].
  exists obj', uv, p. repeat split; try assumption.
  - intros g v w Hin.
    destruct (Hadds g v w Hin) as [j [color [p' [Hnth [Hg [Hp' [Hw _]]]]]]].
    injection Hp' as <-. exists j, color. auto.
  - intros g v1 w1 v2 w2 H1 H2.
    destruct (Hadds g v1 w1 H1) as [j1 [c1 [p1 [Hn1 [Hg1 [Hp1 [Hw1 _]]]]]]].
    destruct (Hadds g v2 w2 H2) as [j2 [c2 [p2 [Hn2 [Hg2 [Hp2 [Hw2 _]]]]]]].
    rewrite Hg1 in Hg2. apply group_name_of_inj in Hg2. subst j2.
    rewrite Hn1 in Hn2. injection Hn2 as <-. congruence.
Qed.

Lemma group_weight_ignores_the_vertex_witness :
  exists obj' uv p,
    assign_vertex_groups (empty_object ramp_triangle) [0; 1]%Q ramp_image (1#4)%Q 1
      "group" = (Ok true, obj')
    /\ py_getitem [(0, 0); (1#4, 0); (1#4, 0)]%Q 2 = Ok uv
    /\ pixel_value_at {| shape := (1, 5, 1)%nat; flat := pixels ramp_image |}
         5 1 1 uv = Ok p
    /\ (forall g v w, In (VgAdd g v w) (new_calls (empty_object ramp_triangle) obj') ->
          exists j color,
            nth_error [0%Q] j = Some color
            /\ g = ("group" ++ "." ++ format_02d (j + 1))%string
            /\ w = fsub 1 (fabs (fsub color p)))
    /\ (forall g v1 w1 v2 w2,
          In (VgAdd g v1 w1) (new_calls (empty_object ramp_triangle) obj') ->
          In (VgAdd g v2 w2) (new_calls (empty_object ramp_triangle) obj') -> w1 = w2).
Proof.
  apply (group_weight_ignores_the_vertex (empty_object ramp_triangle) [0; 1]%Q
           ramp_image (1#4)%Q 1 "group"
           [(0, 0); (1#4, 0); (1#4, 0)]%Q
           {| shape := (1, 5, 1)%nat; flat := pixels ramp_image |}
           [(0%Q, [0; 1; 2]%nat); (1%Q, [])] (Some (1#4)%Q));
    first [reflexivity | discriminate].
Defined.

(** * Further properties of the code *)

(** ** [np.unique]: sorted, and neither losing nor inventing values *)

Section UniqueSorted.
Context {A : Type} (cmp : A -> A -> comparison).
Hypothesis cmp_trans : forall x y z, cmp x y = Lt -> cmp y z = Lt -> cmp x z = Lt.
Hypothesis cmp_gt_lt : forall x y, cmp x y = Gt -> cmp y x = Lt.

Lemma insert_unique_in (x z : A) (l : list A) :
  In z (insert_unique cmp x l) -> z = x \/ In z l.
Proof.
  induction l as [|a l IH]; simpl.
  - intros [<- | []]. auto.
  - destruct (cmp x a); simpl; intros H.
    + auto.
    + destruct H as [<- | H]; auto.
    + destruct H as [<- | H]; auto. destruct (IH H); auto.
Qed.

Lemma insert_unique_sorted (x : A) (l : list A) :
  StronglySorted (fun a b => cmp a b = Lt) l ->
  StronglySorted (fun a b => cmp a b = Lt) (insert_unique cmp x l).
Proof.
  induction 1 as [|a l Hs IH Ha]; simpl.
  - constructor; constructor.
  - destruct (cmp x a) eqn:E.
    + constructor; assumption.
    + constructor; [constructor; assumption|].
      constructor; [exact E|].
      rewrite Forall_forall in Ha |- *. intros z Hz.
      eapply cmp_trans; [exact E | apply Ha; exact Hz].
    + constructor; [exact IH|].
      rewrite Forall_forall in Ha |- *. intros z Hz.
      destruct (insert_unique_in _ _ _ Hz) as [-> | Hz'].
      * apply cmp_gt_lt. exact E.
      * apply Ha. exact Hz'.
Qed.

Lemma np_unique_sorted (l : list A) :
  StronglySorted (fun a b => cmp a b = Lt) (np_unique cmp l).
Proof.
  unfold np_unique.
  assert (forall acc, StronglySorted (fun a b => cmp a b = Lt) acc ->
            StronglySorted (fun a b => cmp a b = Lt)
              (fold_left (fun acc x => insert_unique cmp x acc) l acc)) as H.
  { induction l as [|a l IH]; intros acc Hacc; simpl; [exact Hacc|].
    apply IH. apply insert_unique_sorted. exact Hacc. }
  apply H. constructor.
Qed.

Lemma np_unique_in (z : A) (l : list A) : In z (np_unique cmp l) -> In z l.
Proof.
  unfold np_unique.
  assert (forall acc, In z (fold_left (fun acc x => insert_unique cmp x acc) l acc) ->
                      In z acc \/ In z l) as H.
  { induction l as [|a l IH]; intros acc Hz; simpl in *; [auto|].
    destruct (IH _ Hz) as [Hacc | Hl]; [|auto].
    destruct (insert_unique_in _ _ _ Hacc) as [-> | Hacc']; auto. }
  intros Hz. destruct (H [] Hz) as [[] | Hl]. exact Hl.
Qed.
End UniqueSorted.

Lemma Qcompare_trans_lt (x y z : Q) :
  (x ?= y)%Q = Lt -> (y ?= z)%Q = Lt -> (x ?= z)%Q = Lt.
Proof. rewrite <- !Qlt_alt. apply Qlt_trans. Qed.

Lemma Qcompare_gt_lt (x y : Q) : (x ?= y)%Q = Gt -> (y ?= x)%Q = Lt.
Proof. rewrite <- Qgt_alt, <- Qlt_alt. auto. Qed.

Lemma npfloat_compare_trans_lt (x y z : npfloat) :
  npfloat_compare x y = Lt -> npfloat_compare y z = Lt -> npfloat_compare x z = Lt.
Proof.
  destruct x, y, z; simpl; try discriminate; try reflexivity.
  apply Qcompare_trans_lt.
Qed.

Lemma npfloat_compare_gt_lt (x y : npfloat) :
  npfloat_compare x y = Gt -> npfloat_compare y x = Lt.
Proof.
  destruct x, y; simpl; try discriminate; try reflexivity.
  apply Qcompare_gt_lt.
Qed.

(** X1: whatever [quantize_colors] returns is strictly ascending in
    numpy's order (so it holds no level twice). *)
Theorem quantize_colors_levels_ascending (colors : list Q) (K : Z)
  (levels : list npfloat) :
  quantize_colors colors K = Ok levels -> ascending levels.
Proof.
  unfold quantize_colors. intros H.
  destruct (np_min colors); simpl in H; [|discriminate H].
  destruct (np_max colors); simpl in H; [|discriminate H].
  destruct (linspace _ _ _); simpl in H; [|discriminate H].
  injection H as <-. unfold ascending.
  apply np_unique_sorted;
    [exact npfloat_compare_trans_lt | exact npfloat_compare_gt_lt].
Qed.

Lemma quantize_colors_levels_ascending_witness :
  ascending [Fin 0; Fin (1#3); Fin (2#3); Fin 1; Fin (4#3)]%Q.
Proof.
  apply (quantize_colors_levels_ascending [0; 1#4; 1#2; 3#4; 1]%Q 4).
  vm_compute. reflexivity.
Defined.

(** ** The levels [quantize_colors] can return *)

Lemma digitize_le_length (x : Q) (bins : list Q) :
  digitize x bins <= Z.of_nat (List.length bins).
Proof.
  unfold digitize. apply inj_le.
  induction bins as [|b bins IH]; simpl; [lia|].
  destruct (Qle_bool b x); simpl; lia.
Qed.

Lemma digitize_pos (x b : Q) (bins : list Q) :
  In b bins -> (b <= x)%Q -> 1 <= digitize x bins.
Proof.
  intros Hin Hle. unfold digitize.
  assert (In b (filter (fun b => Qle_bool b x) bins)) as H
    by (apply filter_In; split; [exact Hin | apply Qle_bool_iff; exact Hle]).
  destruct (filter _ bins); [destruct H | simpl; lia].
Qed.

Lemma linspace_first_edge (lo step : Q) :
  (fadd lo (fmul (inject_Z 0) step) == lo)%Q.
Proof. unfold fadd, fmul. rewrite !Qred_correct. ring. Qed.

Lemma zrange_head (n : Z) : 0 < n -> In 0 (zrange n).
Proof.
  intros H. unfold zrange. change 0 with (Z.of_nat 0). apply in_map.
  apply in_seq. lia.
Qed.

Lemma fraction_lt_inv (i j d : Z) :
  0 < d ->
  (fdiv (inject_Z i) (inject_Z d) ?= fdiv (inject_Z j) (inject_Z d))%Q = Lt ->
  i < j.
Proof.
  intros Hd H. apply Qlt_alt in H. unfold fdiv in H. rewrite !Qred_correct in H.
  destruct (Z_lt_le_dec i j) as [Hlt | Hge]; [exact Hlt | exfalso].
  apply (Qlt_not_le _ _ H). unfold Qdiv.
  apply Qmult_le_compat_r; [rewrite <- Zle_Qle; exact Hge|].
  apply Qinv_le_0_compat. change 0%Q with (inject_Z 0). rewrite <- Zle_Qle. lia.
Qed.

(** A strictly ascending list of fractions i/d with integer numerators
    in [a, K] has at most K + 1 - a entries. *)
Lemma ascending_fraction_count (d K : Z) (l : list npfloat) :
  0 < d -> ascending l ->
  forall a,
    Forall (fun x => exists i, a <= i <= K
                               /\ x = Fin (fdiv (inject_Z i) (inject_Z d))) l ->
    a <= K + 1 -> Z.of_nat (List.length l) <= K + 1 - a.
Proof.
  intros Hd Hs. unfold ascending in Hs.
  induction Hs as [|x l Hs IH Hx]; intros a Hall Ha; [simpl; lia|].
  inversion Hall as [|x' l' [i0 [Hi0 ->]] Hrest]; subst.
  assert (Z.of_nat (List.length l) <= K + 1 - (i0 + 1)) as Hlen.
  { apply IH; [|lia].
    rewrite Forall_forall in Hrest, Hx |- *. intros y Hy.
    destruct (Hrest y Hy) as [i [Hi ->]]. exists i. split; [|reflexivity].
    specialize (Hx _ Hy). simpl in Hx. apply fraction_lt_inv in Hx; [lia | exact Hd]. }
  simpl List.length. lia.
Qed.

(** The shape of every level for K >= 2. *)
Lemma quantize_colors_bin_fractions (colors : list Q) (K : Z) :
  colors <> [] -> 2 <= K ->
  exists levels,
    quantize_colors colors K = Ok levels
    /\ 1 <= Z.of_nat (List.length levels) <= K + 1
    /\ Forall (fun x => exists i, 0 <= i <= K
                 /\ x = Fin (fdiv (inject_Z i) (inject_Z (K - 1)))) levels.
Proof.
  intros Hne HK. destruct colors as [|c t]; [congruence|].
  unfold quantize_colors. cbn [np_min np_max rbind].
  unfold linspace. assert ((K + 1 <? 0) = false) as -> by lia. cbn [rbind].
  set (lo := fold_left Qmin t c). set (hi := fold_left Qmax t c).
  set (bins := map _ (zrange (K + 1))).
  match goal with |- context [np_unique npfloat_compare ?l] => set (quantized := l) end.
  assert (List.length bins = Z.to_nat (K + 1)) as Hbins
    by (unfold bins, zrange; rewrite !length_map, length_seq; reflexivity).
  assert (Forall (fun x => exists i, 0 <= i <= K
            /\ x = Fin (fdiv (inject_Z i) (inject_Z (K - 1)))) quantized) as Hq.
  { apply Forall_forall. intros x Hx. unfold quantized in Hx.
    apply in_map_iff in Hx. destruct Hx as [col [<- Hcol]].
    exists (digitize col bins - 1). split.
    - pose proof (digitize_le_length col bins) as Hup. rewrite Hbins in Hup.
      assert (1 <= digitize col bins) as Hlow.
      { apply (digitize_pos col (fadd lo (fmul (inject_Z 0)
                 (fdiv (fsub hi lo) (inject_Z (K + 1 - 1)))))).
        - unfold bins. apply (in_map (fun i => fadd lo (fmul (inject_Z i) _))).
          apply zrange_head. lia.
        - rewrite linspace_first_edge. apply fold_min_le. exact Hcol. }
      lia.
    - unfold true_divide. assert ((K - 1 =? 0) = false) as -> by lia. reflexivity. }
  exists (np_unique npfloat_compare quantized). split; [reflexivity|].
  assert (Forall (fun x => exists i, 0 <= i <= K
            /\ x = Fin (fdiv (inject_Z i) (inject_Z (K - 1))))
            (np_unique npfloat_compare quantized)) as Hlev.
  { rewrite Forall_forall in Hq |- *. intros x Hx. apply Hq.
    eapply np_unique_in. exact Hx. }
  split; [|exact Hlev]. split.
  - assert (In (true_divide (digitize c bins - 1) (K - 1)) quantized) as Hin
      by (unfold quantized; simpl; auto).
    destruct (np_unique_has npfloat_compare _ _ Hin) as [y [Hy _]].
    destruct (np_unique npfloat_compare quantized); [destruct Hy | simpl; lia].
  - pose proof (ascending_fraction_count (K - 1) K
                  (np_unique npfloat_compare quantized)) as Hcount.
    specialize (Hcount ltac:(lia)
      (np_unique_sorted npfloat_compare npfloat_compare_trans_lt
         npfloat_compare_gt_lt quantized) 0 Hlev ltac:(lia)).
    lia.
Qed.

(** X2: for a non-empty intensity set and K >= 2, [quantize_colors]
    returns, every level is a fraction i/(K-1) of an integer bin index
    0 <= i <= K, and there are between 1 and K + 1 levels. *)
Theorem quantize_colors_levels_are_bin_fractions (colors : list Q) (K : Z) :
  colors <> [] -> 2 <= K ->
  exists levels,
    quantize_colors colors K = Ok levels
    /\ 1 <= Z.of_nat (List.length levels) <= K + 1
    /\ Forall (fun x => exists i, 0 <= i <= K
                 /\ x = Fin (fdiv (inject_Z i) (inject_Z (K - 1)))) levels.
Proof. apply quantize_colors_bin_fractions. Qed.

Lemma quantize_colors_levels_are_bin_fractions_witness :
  exists levels,
    quantize_colors [0; 1#2; 1]%Q 2 = Ok levels
    /\ 1 <= Z.of_nat (List.length levels) <= 2 + 1
    /\ Forall (fun x => exists i, 0 <= i <= 2
                 /\ x = Fin (fdiv (inject_Z i) (inject_Z (2 - 1)))) levels.
Proof.
  apply (quantize_colors_levels_are_bin_fractions [0; 1#2; 1]%Q 2);
    [discriminate | lia].
Defined.






(** ** [analyze_texture] *)

Lemma StronglySorted_impl {A : Type} (P R : A -> A -> Prop) (l : list A) :
  (forall a b, P a b -> R a b) -> StronglySorted P l -> StronglySorted R l.
Proof.
  intros HPR. induction 1 as [|a l Hs IH Ha]; constructor; [exact IH|].
  rewrite Forall_forall in Ha |- *. auto.
Qed.

(** X4: what [analyze_texture] returns is strictly ascending, every
    value in it is the greyscale of a pixel of the image, and the
    greyscale of every pixel is in it. *)
Theorem analyze_texture_is_the_sorted_set_of_greyscales
  (image : Image) (values : list Q) :
  analyze_texture image = Ok values ->
  let px := {| shape := (snd (size image), fst (size image), channels image);
               flat := pixels image |} in
  StronglySorted Qlt values
  /\ (forall v, In v values ->
        exists vec, In vec (pixel_vectors px) /\ v = greyscale_of (channels image) vec)
  /\ (forall vec, In vec (pixel_vectors px) ->
        exists v, In v values /\ (v == greyscale_of (channels image) vec)%Q).
Proof.
  intros H px. unfold analyze_texture in H. subst px.
  destruct (size image) as [width height]. cbn [fst snd].
  set (px := {| shape := (height, width, channels image); flat := pixels image |}).
  unfold reshape in H.
  destruct (List.length (pixels image) =? height * width * channels image)%nat;
    [|discriminate H].
  cbn [rbind] in H. fold px in H.
  assert (exists greys,
            greys = map (greyscale_of (channels image)) (pixel_vectors px)
            /\ values = np_unique Qcompare greys) as [greys [Hg ->]].
  { unfold greyscale_of. destruct (1 <? channels image)%nat.
    - cbn [rbind] in H. injection H as <-. eexists. split; reflexivity.
    - destruct (channels image =? 0)%nat; [discriminate H|].
      cbn [rbind] in H. injection H as <-. eexists. split; reflexivity. }
  split; [|split].
  - apply (StronglySorted_impl (fun a b => (a ?= b)%Q = Lt)).
    + intros a b. apply Qlt_alt.
    + apply np_unique_sorted; [exact Qcompare_trans_lt | exact Qcompare_gt_lt].
  - intros v Hv. apply np_unique_in in Hv. rewrite Hg in Hv.
    apply in_map_iff in Hv. destruct Hv as [vec [<- Hvec]]. eauto.
  - intros vec Hvec.
    assert (In (greyscale_of (channels image) vec) greys) as Hin
      by (rewrite Hg; apply in_map; exact Hvec).
    destruct (np_unique_has Qcompare _ _ Hin) as [y [Hy [-> | Hcmp]]].
    + exists (greyscale_of (channels image) vec). split; [exact Hy | reflexivity].
    + exists y. split; [exact Hy|]. apply Qeq_alt in Hcmp. symmetry. exact Hcmp.
Qed.

Lemma analyze_texture_is_the_sorted_set_of_greyscales_witness :
  let px := {| shape := (2, 2, 1)%nat; flat := pixels checker_image |} in
  StronglySorted Qlt [0; 1]%Q
  /\ (forall v, In v [0; 1]%Q ->
        exists vec, In vec (pixel_vectors px) /\ v = greyscale_of 1 vec)
  /\ (forall vec, In vec (pixel_vectors px) ->
        exists v, In v [0; 1]%Q /\ (v == greyscale_of 1 vec)%Q).
Proof.
  apply (analyze_texture_is_the_sorted_set_of_greyscales checker_image [0; 1]%Q).
  vm_compute. reflexivity.
Defined.

(** ** Sampling: index range, wrap-around, and the range of intensities *)

Lemma np_index_spec (axis n : nat) (i : Z) :
  (- Z.of_nat n <= i < Z.of_nat n ->
   np_index axis n i = Ok (Z.to_nat (i mod Z.of_nat n)))
  /\ (~ (- Z.of_nat n <= i < Z.of_nat n) ->
      exists msg, np_index axis n i = Raise (IndexError msg)).
Proof.
  unfold np_index. split.
  - intros H. destruct ((0 <=? i) && (i <? Z.of_nat n)) eqn:E1.
    + rewrite Z.mod_small by lia. reflexivity.
    + assert (((- Z.of_nat n <=? i) && (i <? 0))%bool = true) as -> by lia.
      f_equal. f_equal.
      rewrite <- (Z.mod_add i 1 (Z.of_nat n)) by lia.
      rewrite Z.mod_small by lia. lia.
  - intros H.
    assert (((0 <=? i) && (i <? Z.of_nat n))%bool = false) as -> by lia.
    assert (((- Z.of_nat n <=? i) && (i <? 0))%bool = false) as -> by lia.
    eauto.
Qed.

(** What one read of the raster does, by the range of the truncated
    coordinates. *)
Lemma pixel_value_at_spec
  (buf : list Q) (width height chans : nat) (px : ndarray3) (uv : Q * Q) :
  reshape buf height width chans = Ok px -> (1 <= chans)%nat ->
  let x := fst (pixel_coords width height uv) in
  let y := snd (pixel_coords width height uv) in
  let inside := - Z.of_nat height <= y < Z.of_nat height
                /\ - Z.of_nat width <= x < Z.of_nat width in
  (inside ->
   pixel_value_at px width height chans uv
   = Ok (let k := ((Z.to_nat (y mod Z.of_nat height) * width
                    + Z.to_nat (x mod Z.of_nat width)) * chans)%nat in
         if (1 <? chans)%nat then np_mean (firstn chans (skipn k buf))
         else nth (k + 0) buf 0%Q))
  /\ (~ inside ->
      exists msg, pixel_value_at px width height chans uv = Raise (IndexError msg)).
Proof.
  intros Hre Hc x y inside. unfold reshape in Hre.
  destruct (List.length buf =? height * width * chans)%nat; [|discriminate Hre].
  injection Hre as <-.
  unfold pixel_value_at.
  destruct (pixel_coords width height uv) as [x0 y0] eqn:Ec.
  simpl in x, y. subst x y.
  unfold getitem2, getitem3; simpl shape; simpl flat; cbv iota.
  destruct (np_index_spec 0 height y0) as [Hy_ok Hy_bad].
  destruct (np_index_spec 1 width x0) as [Hx_ok Hx_bad].
  destruct (np_index_spec 2 chans 0) as [Hk_ok _].
  split.
  - intros [Hy Hx]. rewrite (Hy_ok Hy), (Hx_ok Hx). cbn [rbind].
    destruct (1 <? chans)%nat; [reflexivity|].
    rewrite Hk_ok by lia. cbn [rbind]. rewrite Z.mod_0_l by lia. reflexivity.
  - intros Hout.
    destruct (Z_le_dec (- Z.of_nat height) y0) as [Hy1|Hy1];
      [destruct (Z_lt_dec y0 (Z.of_nat height)) as [Hy2|Hy2]|].
    + assert (~ (- Z.of_nat width <= x0 < Z.of_nat width)) as Hx
        by (intros Hx; apply Hout; split; [lia | exact Hx]).
      rewrite (Hy_ok ltac:(lia)). destruct (Hx_bad Hx) as [msg ->].
      destruct (1 <? chans)%nat; cbn [rbind]; eauto.
    + destruct (Hy_bad ltac:(lia)) as [msg ->].
      destruct (1 <? chans)%nat; cbn [rbind]; eauto.
    + destruct (Hy_bad ltac:(lia)) as [msg ->].
      destruct (1 <? chans)%nat; cbn [rbind]; eauto.
Qed.

(** X5: on a raster whose buffer fits its shape, with at least one
    channel, sampling returns exactly when the truncated coordinates
    satisfy -H <= y < H and -W <= x < W, and then reads row [y mod H],
    column [x mod W] (a negative coordinate counts from the opposite
    border); otherwise it raises IndexError. *)
Theorem sampling_returns_iff_indices_in_range
  (buf : list Q) (width height chans : nat) (px : ndarray3) (uv : Q * Q) :
  reshape buf height width chans = Ok px -> (1 <= chans)%nat ->
  let x := fst (pixel_coords width height uv) in
  let y := snd (pixel_coords width height uv) in
  let inside := - Z.of_nat height <= y < Z.of_nat height
                /\ - Z.of_nat width <= x < Z.of_nat width in
  (inside ->
   pixel_value_at px width height chans uv
   = Ok (let k := ((Z.to_nat (y mod Z.of_nat height) * width
                    + Z.to_nat (x mod Z.of_nat width)) * chans)%nat in
         if (1 <? chans)%nat then np_mean (firstn chans (skipn k buf))
         else nth (k + 0) buf 0%Q))
  /\ (~ inside ->
      exists msg, pixel_value_at px width height chans uv = Raise (IndexError msg)).
Proof. apply pixel_value_at_spec. Qed.

Lemma sampling_returns_iff_indices_in_range_witness :
  let x := fst (pixel_coords 5 1 (-(1#4), 0)%Q) in
  let y := snd (pixel_coords 5 1 (-(1#4), 0)%Q) in
  let inside := - Z.of_nat 1 <= y < Z.of_nat 1 /\ - Z.of_nat 5 <= x < Z.of_nat 5 in
  (inside ->
   pixel_value_at {| shape := (1, 5, 1)%nat; flat := pixels ramp_image |} 5 1 1
     (-(1#4), 0)%Q
   = Ok (let k := ((Z.to_nat (y mod Z.of_nat 1) * 5
                    + Z.to_nat (x mod Z.of_nat 5)) * 1)%nat in
         if (1 <? 1)%nat then np_mean (firstn 1 (skipn k (pixels ramp_image)))
         else nth (k + 0) (pixels ramp_image) 0%Q))
  /\ (~ inside ->
      exists msg,
        pixel_value_at {| shape := (1, 5, 1)%nat; flat := pixels ramp_image |} 5 1 1
          (-(1#4), 0)%Q = Raise (IndexError msg)).
Proof.
  apply (sampling_returns_iff_indices_in_range (pixels ramp_image) 5 1 1
           {| shape := (1, 5, 1)%nat; flat := pixels ramp_image |} (-(1#4), 0)%Q);
    [reflexivity | lia].
Defined.

Lemma py_int_opp (q : Q) : py_int (- q) = - py_int q.
Proof.
  unfold py_int. destruct q as [n d]. simpl. apply Z.quot_opp_l. discriminate.
Qed.

Lemma py_int_within (q : Q) (n : Z) :
  (- inject_Z n <= q)%Q -> (q <= inject_Z n)%Q -> - n <= py_int q <= n.
Proof.
  intros Hlo Hhi.
  assert (forall r, (0 <= r)%Q -> (r <= inject_Z n)%Q -> 0 <= py_int r <= n) as Hpos.
  { intros r H0 H1. rewrite py_int_floor by exact H0. split.
    - rewrite <- (Qfloor_Z 0) at 1. apply Qfloor_resp_le. exact H0.
    - rewrite <- (Qfloor_Z n) at 1. apply Qfloor_resp_le. exact H1. }
  destruct (Qlt_le_dec q 0) as [Hneg | Hnn].
  - assert (0 <= py_int (- q) <= n) as H.
    { apply Hpos.
      - apply (Qopp_le_compat q 0). apply Qlt_le_weak. exact Hneg.
      - rewrite <- (Qopp_involutive (inject_Z n)). apply Qopp_le_compat. exact Hlo. }
    rewrite py_int_opp in H. lia.
  - specialize (Hpos q Hnn Hhi). lia.
Qed.

Lemma py_int_scaled_within (u : Q) (n : Z) :
  (- (1) <= u)%Q -> (u <= 1)%Q -> 0 <= n -> - n <= py_int (fmul u (inject_Z n)) <= n.
Proof.
  intros Hlo Hhi Hn.
  assert (0 <= inject_Z n)%Q as Hn'
    by (change 0%Q with (inject_Z 0); rewrite <- Zle_Qle; exact Hn).
  apply py_int_within; unfold fmul; rewrite Qred_correct.
  - assert (- inject_Z n == - (1) * inject_Z n)%Q as -> by ring.
    apply Qmult_le_compat_r; assumption.
  - apply (Qle_trans _ (1 * inject_Z n));
      [apply Qmult_le_compat_r; assumption | rewrite Qmult_1_l; apply Qle_refl].
Qed.

(** UV coordinates in [-1,1]x[-1,1] give indices numpy accepts. *)
Lemma pixel_value_at_within_wrap
  (buf : list Q) (width height chans : nat) (px : ndarray3) (uv : Q * Q) :
  reshape buf height width chans = Ok px ->
  (1 <= width)%nat -> (1 <= height)%nat -> (1 <= chans)%nat ->
  (- (1) <= fst uv)%Q -> (fst uv <= 1)%Q -> (- (1) <= snd uv)%Q -> (snd uv <= 1)%Q ->
  - Z.of_nat width < fst (pixel_coords width height uv) < Z.of_nat width
  /\ - Z.of_nat height < snd (pixel_coords width height uv) < Z.of_nat height
  /\ exists q, pixel_value_at px width height chans uv = Ok q.
Proof.
  intros Hre Hw Hh Hc Hu0 Hu1 Hv0 Hv1.
  assert (- (Z.of_nat width - 1) <= fst (pixel_coords width height uv)
          <= Z.of_nat width - 1) as Hx
    by (apply py_int_scaled_within; [assumption | assumption | lia]).
  assert (- (Z.of_nat height - 1) <= snd (pixel_coords width height uv)
          <= Z.of_nat height - 1) as Hy
    by (apply py_int_scaled_within; [assumption | assumption | lia]).
  split; [lia | split; [lia|]].
  destruct (pixel_value_at_spec buf width height chans px uv Hre Hc)
    as [Hok _].
  eexists. apply Hok. lia.
Qed.

(** X6: with no extent zero, a UV coordinate anywhere in [-1,1]x[-1,1]
    is sampled without a fault: the truncated coordinates stay within
    (-W, W) and (-H, H). *)
Theorem sampling_never_faults_within_wrap
  (buf : list Q) (width height chans : nat) (px : ndarray3) (uv : Q * Q) :
  reshape buf height width chans = Ok px ->
  (1 <= width)%nat -> (1 <= height)%nat -> (1 <= chans)%nat ->
  (- (1) <= fst uv)%Q -> (fst uv <= 1)%Q -> (- (1) <= snd uv)%Q -> (snd uv <= 1)%Q ->
  - Z.of_nat width < fst (pixel_coords width height uv) < Z.of_nat width
  /\ - Z.of_nat height < snd (pixel_coords width height uv) < Z.of_nat height
  /\ exists q, pixel_value_at px width height chans uv = Ok q.
Proof. apply pixel_value_at_within_wrap. Qed.

Lemma sampling_never_faults_within_wrap_witness :
  - Z.of_nat 5 < fst (pixel_coords 5 1 (-(1#4), 0)%Q) < Z.of_nat 5
  /\ - Z.of_nat 1 < snd (pixel_coords 5 1 (-(1#4), 0)%Q) < Z.of_nat 1
  /\ exists q,
       pixel_value_at {| shape := (1, 5, 1)%nat; flat := pixels ramp_image |} 5 1 1
         (-(1#4), 0)%Q = Ok q.
Proof.
  apply (sampling_never_faults_within_wrap (pixels ramp_image) 5 1 1
           {| shape := (1, 5, 1)%nat; flat := pixels ramp_image |} (-(1#4), 0)%Q);
    first [reflexivity | lia | discriminate].
Defined.

Lemma fadd_correct (a b : Q) : (fadd a b == a + b)%Q.
Proof. unfold fadd. apply Qred_correct. Qed.

Lemma sum_of_unit_values (l : list Q) :
  Forall (fun x => (0 <= x)%Q /\ (x <= 1)%Q) l ->
  forall acc,
    (acc <= fold_left fadd l acc)%Q
    /\ (fold_left fadd l acc <= acc + inject_Z (Z.of_nat (List.length l)))%Q.
Proof.
  induction 1 as [|a l [Ha0 Ha1] _ IH]; intros acc.
  - simpl. split; [apply Qle_refl|]. rewrite Qplus_0_r. apply Qle_refl.
  - cbn [fold_left List.length]. destruct (IH (fadd acc a)) as [IH1 IH2]. split.
    + eapply Qle_trans; [|exact IH1]. rewrite fadd_correct.
      rewrite <- (Qplus_0_r acc) at 1.
      apply Qplus_le_compat; [apply Qle_refl | exact Ha0].
    + eapply Qle_trans; [exact IH2|]. rewrite fadd_correct.
      rewrite Nat2Z.inj_succ. unfold Z.succ. rewrite inject_Z_plus.
      assert (acc + (inject_Z (Z.of_nat (List.length l)) + inject_Z 1)
              == acc + 1 + inject_Z (Z.of_nat (List.length l)))%Q as -> by ring.
      apply Qplus_le_compat; [|apply Qle_refl].
      apply Qplus_le_compat; [apply Qle_refl | exact Ha1].
Qed.

(** The mean of a non-empty vector of values in [0,1] is in [0,1]. *)
Lemma np_mean_unit (l : list Q) :
  l <> [] -> Forall (fun x => (0 <= x)%Q /\ (x <= 1)%Q) l ->
  (0 <= np_mean l)%Q /\ (np_mean l <= 1)%Q.
Proof.
  intros Hne Hall. unfold np_mean.
  destruct (sum_of_unit_values l Hall 0%Q) as [H0 H1].
  rewrite Qplus_0_l in H1.
  apply fdiv_unit; [|exact H0 | exact H1].
  change 0%Q with (inject_Z 0). rewrite <- Zlt_Qlt.
  destruct l; [congruence | simpl; lia].
Qed.

Lemma Forall_firstn_skipn {A : Type} (P : A -> Prop) (n k : nat) (l : list A) :
  Forall P l -> Forall P (firstn n (skipn k l)).
Proof.
  intros H. rewrite Forall_forall in H |- *. intros x Hx.
  apply H. rewrite <- (firstn_skipn k l). apply in_or_app. right.
  rewrite <- (firstn_skipn n (skipn k l)). apply in_or_app. left. exact Hx.
Qed.

(** Samples of a buffer with values in [0,1] are in [0,1]. *)
Lemma pixel_value_at_unit
  (buf : list Q) (width height chans : nat) (px : ndarray3) (uv : Q * Q) (q : Q) :
  reshape buf height width chans = Ok px -> (1 <= chans)%nat ->
  Forall (fun x => (0 <= x)%Q /\ (x <= 1)%Q) buf ->
  pixel_value_at px width height chans uv = Ok q ->
  (0 <= q)%Q /\ (q <= 1)%Q.
Proof.
  intros Hre Hc Hall Hq.
  destruct (pixel_value_at_spec buf width height chans px uv Hre Hc)
    as [Hok Hbad].
  set (x := fst (pixel_coords width height uv)) in *.
  set (y := snd (pixel_coords width height uv)) in *.
  destruct (Z_le_dec (- Z.of_nat height) y) as [Hy1|Hy1];
    [destruct (Z_lt_dec y (Z.of_nat height)) as [Hy2|Hy2];
     [destruct (Z_le_dec (- Z.of_nat width) x) as [Hx1|Hx1];
      [destruct (Z_lt_dec x (Z.of_nat width)) as [Hx2|Hx2]|]|]|];
    try (destruct Hbad as [msg Hmsg]; [lia | rewrite Hmsg in Hq; discriminate Hq]).
  rewrite Hok in Hq by lia. injection Hq as <-.
  unfold reshape in Hre.
  destruct (List.length buf =? height * width * chans)%nat eqn:Elen;
    [|discriminate Hre].
  apply Nat.eqb_eq in Elen.
  clear Hok Hbad. clearbody x y.
  assert (0 < Z.of_nat height) as Hh by lia.
  assert (0 < Z.of_nat width) as Hw by lia.
  destruct (Z.mod_pos_bound y (Z.of_nat height) Hh) as [My1 My2].
  destruct (Z.mod_pos_bound x (Z.of_nat width) Hw) as [Mx1 Mx2].
  set (yi := Z.to_nat (y mod Z.of_nat height)).
  set (xi := Z.to_nat (x mod Z.of_nat width)).
  assert (yi < height)%nat as Hyi
    by (apply Nat2Z.inj_lt; unfold yi; rewrite Z2Nat.id; assumption).
  assert (xi < width)%nat as Hxi
    by (apply Nat2Z.inj_lt; unfold xi; rewrite Z2Nat.id; assumption).
  clearbody yi xi.
  assert ((yi * width + xi) * chans + chans <= List.length buf)%nat as Hfit.
  { rewrite Elen.
    assert (yi * width + xi + 1 <= height * width)%nat as Hcell.
    { apply (Nat.le_trans _ ((yi + 1) * width)); [lia|].
      apply Nat.mul_le_mono_r. lia. }
    apply (Nat.le_trans _ ((yi * width + xi + 1) * chans)); [lia|].
    apply Nat.mul_le_mono_r. exact Hcell. }
  cbv zeta. destruct (1 <? chans)%nat.
  - apply np_mean_unit.
    + intros E. apply (f_equal (@List.length Q)) in E.
      rewrite length_firstn, length_skipn in E. simpl in E. lia.
    + apply Forall_firstn_skipn. exact Hall.
  - rewrite Forall_forall in Hall. apply Hall. apply nth_In. lia.
Qed.

(** X7: when every sample of the buffer lies in [0,1], so does every
    intensity that sampling returns, for one channel or several. *)
Theorem sampled_intensity_within_unit_interval
  (buf : list Q) (width height chans : nat) (px : ndarray3) (uv : Q * Q) (q : Q) :
  reshape buf height width chans = Ok px -> (1 <= chans)%nat ->
  Forall (fun x => (0 <= x)%Q /\ (x <= 1)%Q) buf ->
  pixel_value_at px width height chans uv = Ok q ->
  (0 <= q)%Q /\ (q <= 1)%Q.
Proof. apply pixel_value_at_unit. Qed.

Lemma sampled_intensity_within_unit_interval_witness :
  (0 <= 3#4)%Q /\ (3#4 <= 1)%Q.
Proof.
  apply (sampled_intensity_within_unit_interval (pixels rgba_image) 1 1 4
           {| shape := (1, 1, 4)%nat; flat := pixels rgba_image |} (0, 0)%Q (3#4)%Q);
    [reflexivity | lia | | reflexivity].
  repeat constructor; discriminate.
Defined.

(** ** The nearest level *)

Lemma min_by_from_spec {A : Type} (key : A -> Q) (l : list A) (best : A) :
  let r := min_by_from key best l in
  (r = best /\ forall c, In c l -> (key best <= key c)%Q)
  \/ (exists l1 l2,
        l = l1 ++ r :: l2
        /\ (key r < key best)%Q
        /\ (forall c, In c l1 -> (key r < key c)%Q)
        /\ (forall c, In c l2 -> (key r <= key c)%Q)).
Proof.
  revert best. induction l as [|a t IH]; intros best; simpl.
  - left. split; [reflexivity | intros c []].
  - destruct (fgt (key best) (key a)) eqn:G.
    + apply fgt_iff in G. right.
      destruct (IH a) as [[Hr Hall] | [l1 [l2 [Hl [Hlt [H1 H2]]]]]].
      * exists [], t. simpl in Hr |- *. rewrite Hr.
        repeat split; auto. intros c [].
      * exists (a :: l1), l2. simpl in Hl, Hlt, H1, H2 |- *.
        split; [rewrite Hl at 1; reflexivity|].
        split; [eapply Qlt_trans; eassumption|].
        split; [|exact H2].
        intros c [<- | Hc]; [exact Hlt | apply H1; exact Hc].
    + assert (key best <= key a)%Q as Hle.
      { apply Qnot_lt_le. intros Hlt. apply fgt_iff in Hlt. congruence. }
      destruct (IH best) as [[Hr Hall] | [l1 [l2 [Hl [Hlt [H1 H2]]]]]].
      * left. split; [exact Hr|]. intros c [<- | Hc]; auto.
      * right. exists (a :: l1), l2. simpl in Hl, Hlt, H1, H2 |- *.
        split; [rewrite Hl at 1; reflexivity|].
        split; [exact Hlt|]. split; [|exact H2].
        intros c [<- | Hc]; [|apply H1; exact Hc].
        eapply Qlt_le_trans; eassumption.
Qed.

(** X8: the level line 190 picks for a sampled intensity [p] is a level
    of the array at least distance from [p], and the first such level in
    array order; with no level at all the pick raises ValueError. *)
Theorem closest_color_is_first_nearest (unique_colors : list Q) (p : Q) :
  match py_min_by (fun c => fabs (fsub c p)) unique_colors with
  | Ok level =>
      exists before after,
        unique_colors = before ++ level :: after
        /\ (forall c, In c before -> (Qabs (level - p) < Qabs (c - p))%Q)
        /\ (forall c, In c after -> (Qabs (level - p) <= Qabs (c - p))%Q)
  | Raise e => unique_colors = [] /\ exists msg, e = ValueError msg
  end.
Proof.
  assert (forall c, (fabs (fsub c p) == Qabs (c - p))%Q) as Hkey
    by (intros c; unfold fabs; rewrite fsub_correct; reflexivity).
  destruct unique_colors as [|a t]; simpl; [eauto|].
  destruct (min_by_from_spec (fun c => fabs (fsub c p)) t a)
    as [[Hr Hall] | [l1 [l2 [Hl [Hlt [H1 H2]]]]]].
  - rewrite Hr. exists [], t. split; [reflexivity|].
    split; [intros c []|]. intros c Hc.
    rewrite <- (Hkey a), <- (Hkey c). apply Hall. exact Hc.
  - cbv zeta in Hl, Hlt, H1, H2.
    set (r := min_by_from (fun c => fabs (fsub c p)) a t) in *.
    exists (a :: l1), l2. split; [simpl; rewrite Hl at 1; reflexivity|].
    split.
    + intros c [<- | Hc]; rewrite <- (Hkey r); [rewrite <- (Hkey a) | rewrite <- (Hkey c)];
        [exact Hlt | apply H1; exact Hc].
    + intros c Hc. rewrite <- (Hkey r), <- (Hkey c). apply H2. exact Hc.
Qed.

(** ** The dict of assignments *)

Lemma Qeq_bool_trans_r (a k k' : Q) :
  (k == k')%Q -> Qeq_bool a k = Qeq_bool a k'.
Proof.
  intros E. destruct (Qeq_bool a k) eqn:E1; destruct (Qeq_bool a k') eqn:E2;
    try reflexivity.
  - apply Qeq_bool_iff in E1. rewrite E in E1. apply Qeq_bool_iff in E1. congruence.
  - apply Qeq_bool_iff in E2. rewrite <- E in E2. apply Qeq_bool_iff in E2. congruence.
Qed.

Lemma dict_get_Qeq (d : assignments) (k k' : Q) :
  (k == k')%Q -> dict_get d k = dict_get d k'.
Proof.
  intros E. induction d as [|[a s] d IH]; simpl; [reflexivity|].
  rewrite (Qeq_bool_trans_r a k k' E), IH. reflexivity.
Qed.

(** Looking a key up after a store: the stored value under an equal key,
    the old value under any other. *)
Lemma dict_get_set (d : assignments) (k k' : Q) (v : list nat) :
  dict_get (dict_set d k v) k' = if Qeq_bool k k' then Some v else dict_get d k'.
Proof.
  induction d as [|[a s] d IH]; simpl; [reflexivity|].
  destruct (Qeq_bool a k) eqn:Eak; simpl.
  - apply Qeq_bool_iff in Eak.
    rewrite (Qeq_bool_comm a k'), (Qeq_bool_trans_r k' a k Eak), (Qeq_bool_comm k' k).
    destruct (Qeq_bool k k'); reflexivity.
  - destruct (Qeq_bool a k') eqn:Eak'; [|exact IH].
    destruct (Qeq_bool k k') eqn:Ekk'; [|reflexivity].
    apply Qeq_bool_iff in Eak', Ekk'. rewrite <- Ekk' in Eak'.
    apply Qeq_bool_iff in Eak'. congruence.
Qed.

Lemma members_set (d : assignments) (k k' : Q) (v : list nat) :
  members (dict_set d k v) k' = if Qeq_bool k k' then v else members d k'.
Proof. unfold members. rewrite dict_get_set. destruct (Qeq_bool k k'); reflexivity. Qed.

Lemma members_Qeq (d : assignments) (k k' : Q) :
  (k == k')%Q -> members d k = members d k'.
Proof. intros E. unfold members. rewrite (dict_get_Qeq d k k' E). reflexivity. Qed.

Lemma set_add_in (x v : nat) (s : list nat) :
  In x (set_add v s) <-> x = v \/ In x s.
Proof.
  unfold set_add. destruct (existsb (Nat.eqb v) s) eqn:E.
  - split; [auto|]. intros [-> | H]; [|exact H].
    apply existsb_exists in E. destruct E as [y [Hy Ey]].
    apply Nat.eqb_eq in Ey. subst y. exact Hy.
  - rewrite in_app_iff. simpl.
    split; [intros [H | [H | []]]; auto | intros [H | H]; auto].
Qed.

Lemma set_add_nodup (v : nat) (s : list nat) : NoDup s -> NoDup (set_add v s).
Proof.
  intros H. unfold set_add. destruct (existsb (Nat.eqb v) s) eqn:E; [exact H|].
  apply NoDup_app; [exact H | constructor; [intros [] | constructor] |].
  intros x Hx [Ex | []]. subst x.
  assert (existsb (Nat.eqb v) s = true) as E'
    by (apply existsb_exists; exists v; split; [exact Hx | apply Nat.eqb_refl]).
  congruence.
Qed.

Lemma initial_assignments_keys (unique_colors : list Q) (c : Q) :
  In c unique_colors ->
  dict_get (fold_left (fun d color => dict_set d color []) unique_colors []) c <> None.
Proof.
  assert (forall d, (In c unique_colors \/ dict_get d c <> None) ->
            dict_get (fold_left (fun d color => dict_set d color []) unique_colors d) c
            <> None) as H.
  { induction unique_colors as [|a l IH]; intros d Hd; simpl.
    - destruct Hd as [[] | Hd]. exact Hd.
    - apply IH. destruct Hd as [[<- | Hin] | Hd]; [right | left; exact Hin | right].
      + rewrite dict_get_set, Qeq_bool_refl. discriminate.
      + rewrite dict_get_set. destruct (Qeq_bool a c); [discriminate | exact Hd]. }
  intros Hin. apply H. left. exact Hin.
Qed.

(** ** What the sampling loop records *)

Section SamplingLoop.
Variables (mesh : Mesh) (uv_layer : list (Q * Q)) (px : ndarray3)
          (width height chans : nat) (unique_colors : list Q).

Let body := sample_corner mesh uv_layer px width height chans unique_colors.
Let invariant := sampling_invariant mesh uv_layer px width height chans unique_colors.
Let at_level := corner_level mesh uv_layer px width height chans unique_colors.

Lemma sample_corner_step (done : list nat) (loop_idx : nat)
  (st st' : assignments * option Q) :
  invariant done (fst st) -> body loop_idx st = Ok st' ->
  invariant (done ++ [loop_idx]) (fst st').
Proof.
  intros [Hkeys [Hdone [Hmem Hnodup]]] Hrun.
  unfold body, sample_corner in Hrun.
  destruct (py_getitem (loops mesh) loop_idx) as [v|] eqn:Ev;
    cbn [rbind] in Hrun; [|discriminate Hrun].
  destruct (py_getitem uv_layer loop_idx) as [uv|] eqn:Euv;
    cbn [rbind] in Hrun; [|discriminate Hrun].
  destruct (pixel_value_at px width height chans uv) as [p|] eqn:Ep;
    cbn [rbind] in Hrun; [|discriminate Hrun].
  destruct (py_min_by (fun c => fabs (fsub c p)) unique_colors) as [level|] eqn:El;
    cbn [rbind] in Hrun; [|discriminate Hrun].
  unfold dict_getitem in Hrun.
  destruct (dict_get (fst st) level) as [ms|] eqn:Ems;
    cbn [rbind] in Hrun; [|discriminate Hrun].
  injection Hrun as <-. cbn [fst].
  assert (at_level loop_idx v level) as Hcorner
    by (exists uv, p; repeat split; assumption).
  assert (members (fst st) level = ms) as Hms by (unfold members; rewrite Ems; reflexivity).
  repeat split.
  - intros c Hc. rewrite dict_get_set.
    destruct (Qeq_bool level c); [discriminate | apply Hkeys; exact Hc].
  - intros idx Hidx. apply in_app_iff in Hidx. destruct Hidx as [Hidx | [<- | []]].
    + destruct (Hdone idx Hidx) as [v' [level' [Hc' Hin']]].
      exists v', level'. split; [exact Hc'|].
      rewrite members_set. destruct (Qeq_bool level level') eqn:E; [|exact Hin'].
      apply Qeq_bool_iff in E. apply set_add_in. right.
      rewrite <- Hms, (members_Qeq _ _ _ E). exact Hin'.
    + exists v, level. split; [exact Hcorner|].
      rewrite members_set, Qeq_bool_refl. apply set_add_in. left. reflexivity.
  - intros k v' Hv'. rewrite members_set in Hv'.
    destruct (Qeq_bool level k) eqn:E.
    + apply Qeq_bool_iff in E. apply set_add_in in Hv'. destruct Hv' as [-> | Hv'].
      * exists loop_idx, level. split; [apply in_app_iff; right; left; reflexivity|].
        split; [exact Hcorner | exact E].
      * rewrite <- Hms, (members_Qeq _ _ _ E) in Hv'.
        destruct (Hmem k v' Hv') as [idx [level' [Hidx [Hc' Hk]]]].
        exists idx, level'. split; [apply in_app_iff; left; exact Hidx|]. auto.
    + destruct (Hmem k v' Hv') as [idx [level' [Hidx [Hc' Hk]]]].
      exists idx, level'. split; [apply in_app_iff; left; exact Hidx|]. auto.
  - intros k. rewrite members_set. destruct (Qeq_bool level k); [|apply Hnodup].
    apply set_add_nodup. rewrite <- Hms. apply Hnodup.
Qed.

Lemma sample_corners_invariant (corners : list nat) :
  forall (done : list nat) (st st' : assignments * option Q),
    invariant done (fst st) -> for_each corners body st = Ok st' ->
    invariant (done ++ corners) (fst st').
Proof.
  induction corners as [|c corners IH]; intros done st st' Hinv Hrun; simpl in Hrun.
  - injection Hrun as <-. rewrite app_nil_r. exact Hinv.
  - destruct (body c st) as [s1|] eqn:E; cbn [rbind] in Hrun; [|discriminate Hrun].
    replace (done ++ c :: corners) with ((done ++ [c]) ++ corners)
      by (rewrite <- app_assoc; reflexivity).
    eapply IH; [|exact Hrun]. eapply sample_corner_step; eassumption.
Qed.

Lemma initial_invariant :
  invariant [] (fold_left (fun d color => dict_set d color []) unique_colors []).
Proof.
  assert (forall k, members (fold_left (fun d color => dict_set d color [])
                               unique_colors []) k = []) as Hempty.
  { intros k. unfold members.
    destruct (dict_get _ k) as [s|] eqn:E; [|reflexivity].
    eapply dict_get_all_empty; [apply initial_assignments_empty | exact E]. }
  repeat split.
  - intros c Hc. apply initial_assignments_keys. exact Hc.
  - intros idx [].
  - intros k v Hv. rewrite Hempty in Hv. destruct Hv.
  - intros k. rewrite Hempty. constructor.
Qed.

Lemma sampling_pass_invariant (vga : assignments) (pvo : option Q) :
  sampling_pass mesh uv_layer px width height chans unique_colors = Ok (vga, pvo) ->
  invariant (List.concat (polygons mesh)) vga.
Proof.
  unfold sampling_pass. rewrite for_each_concat. intros Hrun.
  exact (sample_corners_invariant _ []
           (fold_left (fun d color => dict_set d color []) unique_colors [], None)
           (vga, pvo) initial_invariant Hrun).
Qed.
End SamplingLoop.

(** X9: after a sampling pass that returned, every level has an entry
    in the dict; the vertex of every face-corner is a member of the
    level picked for that corner's sample; every member of a level got
    there through such a corner; and no member set holds a vertex twice. *)
Theorem sampling_pass_records_each_corner
  (mesh : Mesh) (uv_layer : list (Q * Q)) (px : ndarray3)
  (width height chans : nat) (unique_colors : list Q)
  (vga : assignments) (pvo : option Q) :
  sampling_pass mesh uv_layer px width height chans unique_colors = Ok (vga, pvo) ->
  (forall c, In c unique_colors -> dict_get vga c <> None)
  /\ (forall loop_idx, In loop_idx (List.concat (polygons mesh)) ->
        exists v level,
          corner_level mesh uv_layer px width height chans unique_colors
            loop_idx v level
          /\ In v (members vga level))
  /\ (forall k v, In v (members vga k) ->
        exists loop_idx level,
          In loop_idx (List.concat (polygons mesh))
          /\ corner_level mesh uv_layer px width height chans unique_colors
               loop_idx v level
          /\ (level == k)%Q)
  /\ (forall k, NoDup (members vga k)).
Proof. intros H. exact (sampling_pass_invariant _ _ _ _ _ _ _ _ _ H). Qed.

Lemma sampling_pass_records_each_corner_witness :
  (forall c, In c [0; 1]%Q ->
     dict_get [(0%Q, [0; 1; 2]%nat); (1%Q, [])] c <> None)
  /\ (forall loop_idx, In loop_idx (List.concat (polygons ramp_triangle)) ->
        exists v level,
          corner_level ramp_triangle [(0, 0); (1#4, 0); (1#4, 0)]%Q
            {| shape := (1, 5, 1)%nat; flat := pixels ramp_image |} 5 1 1 [0; 1]%Q
            loop_idx v level
          /\ In v (members [(0%Q, [0; 1; 2]%nat); (1%Q, [])] level))
  /\ (forall k v, In v (members [(0%Q, [0; 1; 2]%nat); (1%Q, [])] k) ->
        exists loop_idx level,
          In loop_idx (List.concat (polygons ramp_triangle))
          /\ corner_level ramp_triangle [(0, 0); (1#4, 0); (1#4, 0)]%Q
               {| shape := (1, 5, 1)%nat; flat := pixels ramp_image |} 5 1 1 [0; 1]%Q
               loop_idx v level
          /\ (level == k)%Q)
  /\ (forall k, NoDup (members [(0%Q, [0; 1; 2]%nat); (1%Q, [])] k)).
Proof.
  apply (sampling_pass_records_each_corner ramp_triangle
           [(0, 0); (1#4, 0); (1#4, 0)]%Q
           {| shape := (1, 5, 1)%nat; flat := pixels ramp_image |} 5 1 1 [0; 1]%Q
           [(0%Q, [0; 1; 2]%nat); (1%Q, [])] (Some (1#4)%Q)).
  vm_compute. reflexivity.
Defined.

(** ** Inputs on which the engines return *)

Lemma py_min_by_in {A : Type} (key : A -> Q) (l : list A) (r : A) :
  py_min_by key l = Ok r -> In r l.
Proof.
  destruct l as [|a t]; simpl; [discriminate|]. intros H. injection H as <-.
  destruct (min_by_from_spec key t a) as [[Hr _] | [l1 [l2 [Hl _]]]].
  - left. symmetry. exact Hr.
  - right. cbv zeta in Hl. rewrite Hl at 2. apply in_elt.
Qed.

Lemma py_getitem_ok {A : Type} (l : list A) (i : nat) :
  (i < List.length l)%nat -> exists a, py_getitem l i = Ok a /\ In a l.
Proof.
  intros H. unfold py_getitem. destruct (nth_error l i) as [a|] eqn:E.
  - exists a. split; [reflexivity|]. eapply nth_error_In. exact E.
  - apply nth_error_None in E. lia.
Qed.

Lemma reshape_ok (image : Image) :
  image_valid image ->
  reshape (pixels image) (snd (size image)) (fst (size image)) (channels image)
  = Ok {| shape := (snd (size image), fst (size image), channels image);
          flat := pixels image |}.
Proof.
  intros [_ [_ [_ Hlen]]]. unfold reshape. rewrite Hlen, Nat.eqb_refl. reflexivity.
Qed.

Section ValidInputs.
Variables (mesh : Mesh) (uv_layer : list (Q * Q)) (image : Image).
Hypothesis image_ok : image_valid image.
Hypothesis uvs_ok : uvs_within_wrap uv_layer.

Let width := fst (size image).
Let height := snd (size image).
Let px := {| shape := (height, width, channels image); flat := pixels image |}.

Lemma corner_sample_ok (loop_idx : nat) :
  (loop_idx < List.length (loops mesh))%nat ->
  (loop_idx < List.length uv_layer)%nat ->
  exists v uv p,
    py_getitem (loops mesh) loop_idx = Ok v
    /\ py_getitem uv_layer loop_idx = Ok uv
    /\ pixel_value_at px width height (channels image) uv = Ok p.
Proof.
  intros Hl Hu.
  destruct (py_getitem_ok (loops mesh) loop_idx Hl) as [v [Hv _]].
  destruct (py_getitem_ok uv_layer loop_idx Hu) as [uv [Huv Hin]].
  unfold uvs_within_wrap in uvs_ok. rewrite Forall_forall in uvs_ok.
  destruct (uvs_ok uv Hin) as [U0 [U1 [V0 V1]]].
  destruct image_ok as [Hw [Hh [Hc Hlen]]].
  destruct (pixel_value_at_within_wrap (pixels image) width height (channels image)
              px uv (reshape_ok image image_ok) Hw Hh Hc U0 U1 V0 V1)
    as [_ [_ [p Hp]]].
  exists v, uv, p. auto.
Qed.

Lemma sample_corners_total (unique_colors : list Q) (corners : list nat) :
  unique_colors <> [] ->
  Forall (fun i => (i < List.length (loops mesh))%nat
                   /\ (i < List.length uv_layer)%nat) corners ->
  forall done st,
    sampling_invariant mesh uv_layer px width height (channels image)
      unique_colors done (fst st) ->
    exists st',
      for_each corners
        (sample_corner mesh uv_layer px width height (channels image) unique_colors)
        st = Ok st'.
Proof.
  intros Hne. induction 1 as [|c corners [Hl Hu] _ IH]; intros done st Hinv.
  - exists st. reflexivity.
  - destruct (corner_sample_ok c Hl Hu) as [v [uv [p [Hv [Huv Hp]]]]].
    assert (exists s1, sample_corner mesh uv_layer px width height (channels image)
                         unique_colors c st = Ok s1) as [s1 Hs1].
    { unfold sample_corner. rewrite Hv. cbn [rbind]. rewrite Huv. cbn [rbind].
      rewrite Hp. cbn [rbind].
      destruct unique_colors as [|a t] eqn:Ecol; [congruence|]. rewrite <- Ecol in *.
      destruct (py_min_by (fun col => fabs (fsub col p)) unique_colors) as [level|] eqn:El;
        [|rewrite Ecol in El; discriminate El].
      cbn [rbind]. unfold dict_getitem.
      destruct Hinv as [Hkeys _].
      destruct (dict_get (fst st) level) as [ms|] eqn:Ems.
      - cbn [rbind]. eauto.
      - exfalso. apply (Hkeys level); [eapply py_min_by_in; exact El | exact Ems]. }
    simpl. rewrite Hs1. cbn [rbind].
    apply (IH (done ++ [c])).
    eapply sample_corner_step; eassumption.
Qed.

Lemma sampling_pass_total (unique_colors : list Q) :
  unique_colors <> [] -> corners_valid mesh uv_layer ->
  exists vga pvo,
    sampling_pass mesh uv_layer px width height (channels image) unique_colors
    = Ok (vga, pvo).
Proof.
  intros Hne Hvalid. unfold sampling_pass. rewrite for_each_concat.
  destruct (sample_corners_total unique_colors _ Hne Hvalid []
              (fold_left (fun d color => dict_set d color []) unique_colors [], None)
              (initial_invariant mesh uv_layer px width height (channels image)
                 unique_colors)) as [[vga pvo] H].
  exists vga, pvo. exact H.
Qed.

Lemma weight_corners_total (corners : list nat) :
  Forall (fun i => (i < List.length (loops mesh))%nat
                   /\ (i < List.length uv_layer)%nat) corners ->
  forall ws0,
    exists ws,
      for_each corners
        (weight_corner mesh uv_layer px width height (channels image)) ws0 = Ok ws.
Proof.
  induction 1 as [|c corners [Hl Hu] _ IH]; intros ws0.
  - exists ws0. reflexivity.
  - destruct (corner_sample_ok c Hl Hu) as [v [uv [p [Hv [Huv Hp]]]]].
    simpl. unfold weight_corner at 1. rewrite Hv. cbn [rbind]. rewrite Huv.
    cbn [rbind]. rewrite Hp. cbn [rbind]. apply IH.
Qed.

Lemma collect_weights_total :
  corners_valid mesh uv_layer ->
  exists ws,
    collect_weights mesh uv_layer px width height (channels image) = Ok ws.
Proof.
  intros Hvalid. unfold collect_weights. rewrite for_each_concat.
  apply weight_corners_total. exact Hvalid.
Qed.
End ValidInputs.

(** The group engine returns on well-formed input. *)
Lemma assign_vertex_groups_total
  (obj : Object) (unique_colors : list Q) (image : Image) (threshold : Q)
  (min_group_size : Z) (base_group_name : string) (uv_layer : list (Q * Q)) :
  uv_layers_active (data obj) = Some uv_layer ->
  image_valid image ->
  corners_valid (data obj) uv_layer ->
  uvs_within_wrap uv_layer ->
  unique_colors <> [] ->
  exists obj',
    assign_vertex_groups obj unique_colors image threshold min_group_size
      base_group_name = (Ok true, obj').
Proof.
  intros Huv Himg Hcorners Huvs Hne.
  destruct (sampling_pass_total (data obj) uv_layer image Himg Huvs unique_colors
              Hne Hcorners) as [vga [pvo Hpass]].
  destruct (assign_vertex_groups_run obj unique_colors image threshold min_group_size
              base_group_name uv_layer _ vga pvo Huv (reshape_ok image Himg) Hpass)
    as [obj' [Hrun _]].
  exists obj'. exact Hrun.
Qed.

(** X10: with an active UV layer, a consistent non-empty raster, loop
    indices that address the mesh's loops and UVs, UV coordinates in
    [-1,1]x[-1,1] and at least one level, the group engine returns True. *)
Theorem assign_vertex_groups_returns_on_valid_input
  (obj : Object) (unique_colors : list Q) (image : Image) (threshold : Q)
  (min_group_size : Z) (base_group_name : string) (uv_layer : list (Q * Q)) :
  uv_layers_active (data obj) = Some uv_layer ->
  image_valid image ->
  corners_valid (data obj) uv_layer ->
  uvs_within_wrap uv_layer ->
  unique_colors <> [] ->
  exists obj',
    assign_vertex_groups obj unique_colors image threshold min_group_size
      base_group_name = (Ok true, obj').
Proof. apply assign_vertex_groups_total. Qed.

Lemma assign_vertex_groups_returns_on_valid_input_witness :
  exists obj',
    assign_vertex_groups (empty_object quad) [0; 1]%Q checker_image (1#4)%Q 1 "group"
    = (Ok true, obj').
Proof.
  apply (assign_vertex_groups_returns_on_valid_input (empty_object quad) [0; 1]%Q
           checker_image (1#4)%Q 1 "group" [(0, 0); (1, 0); (1, 1); (0, 1)]%Q).
  - reflexivity.
  - repeat split; simpl; lia.
  - repeat constructor.
  - repeat constructor; discriminate.
  - discriminate.
Defined.

(** Every failure of the group engine precedes its first mutation. *)
Lemma assign_vertex_groups_raise_unchanged
  (obj obj' : Object) (unique_colors : list Q) (image : Image) (threshold : Q)
  (min_group_size : Z) (base_group_name : string) (e : exn) :
  assign_vertex_groups obj unique_colors image threshold min_group_size
    base_group_name = (Raise e, obj') ->
  obj' = obj.
Proof.
  intros H.
  destruct (uv_layers_active (data obj)) as [uv_layer|] eqn:Huv.
  - destruct (reshape (pixels image) (snd (size image)) (fst (size image))
                (channels image)) as [px|e1] eqn:Hre.
    + destruct (sampling_pass (data obj) uv_layer px (fst (size image))
                  (snd (size image)) (channels image) unique_colors)
        as [[vga pvo]|e2] eqn:Hpass.
      * destruct (assign_vertex_groups_run obj unique_colors image threshold
                    min_group_size base_group_name uv_layer px vga pvo Huv Hre Hpass)
          as [o [Hrun _]].
        rewrite Hrun in H. discriminate H.
      * unfold assign_vertex_groups in H. rewrite Huv in H.
        destruct (size image) as [width height]. simpl in Hre, Hpass.
        unfold hbind, hlift in H. rewrite Hre, Hpass in H.
        injection H as _ <-. reflexivity.
    + unfold assign_vertex_groups in H. rewrite Huv in H.
      destruct (size image) as [width height]. simpl in Hre.
      unfold hbind, hlift in H. rewrite Hre in H.
      injection H as _ <-. reflexivity.
  - unfold assign_vertex_groups in H. rewrite Huv in H.
    injection H as _ <-. reflexivity.
Qed.

(** X11: if the group engine raises, whatever the exception, the object
    it was given is returned untouched: every failure happens before the
    first call on [obj.vertex_groups]. *)
Theorem assign_vertex_groups_fails_without_mutation
  (obj obj' : Object) (unique_colors : list Q) (image : Image) (threshold : Q)
  (min_group_size : Z) (base_group_name : string) (e : exn) :
  assign_vertex_groups obj unique_colors image threshold min_group_size
    base_group_name = (Raise e, obj') ->
  obj' = obj.
Proof. apply assign_vertex_groups_raise_unchanged. Qed.

Lemma assign_vertex_groups_fails_without_mutation_witness :
  empty_object quad = empty_object quad.
Proof.
  apply (assign_vertex_groups_fails_without_mutation (empty_object quad)
           (empty_object quad) [] checker_image (1#4)%Q 1 "group"
           (ValueError "min() arg is an empty sequence")).
  vm_compute. reflexivity.
Defined.

(** ** Stored weights *)

Lemma lookup_weight_replace (ws : list (nat * Q)) (v v' : nat) (w : Q) :
  option_map snd (find (fun iw => (fst iw =? v')%nat) (weight_replace ws v w))
  = if (v =? v')%nat then Some w
    else option_map snd (find (fun iw => (fst iw =? v')%nat) ws).
Proof.
  induction ws as [|[a b] ws IH]; simpl.
  - destruct (v =? v')%nat; reflexivity.
  - destruct (a =? v)%nat eqn:Eav; simpl.
    + apply Nat.eqb_eq in Eav. subst a. destruct (v =? v')%nat; reflexivity.
    + destruct (a =? v')%nat eqn:Eav'; [|exact IH].
      apply Nat.eqb_eq in Eav'. subst a. rewrite Nat.eqb_sym in Eav.
      rewrite Nat.eqb_sym. rewrite Nat.eqb_sym in Eav. rewrite Eav. reflexivity.
Qed.

Lemma find_group_update (gs : list (string * list (nat * Q))) (g g' : string)
  (v : nat) (w : Q) :
  option_map snd (find (fun gr => String.eqb (fst gr) g') (group_update gs g v w))
  = if String.eqb g g'
    then option_map (fun ws => weight_replace ws v w)
           (option_map snd (find (fun gr => String.eqb (fst gr) g) gs))
    else option_map snd (find (fun gr => String.eqb (fst gr) g') gs).
Proof.
  induction gs as [|[n ws] gs IH]; simpl.
  - destruct (String.eqb g g'); reflexivity.
  - destruct (String.eqb n g) eqn:Eng; simpl.
    + apply String.eqb_eq in Eng. subst n. destruct (String.eqb g g'); reflexivity.
    + destruct (String.eqb n g') eqn:Eng'; [|exact IH].
      apply String.eqb_eq in Eng'. subst n.
      rewrite String.eqb_sym, Eng. reflexivity.
Qed.

(** Writing a weight into an existing group: the vertex written reads
    back the new weight, every other vertex and group reads as before. *)
Lemma stored_weight_group_add (o : Object) (g g' : string) (v v' : nat) (w : Q) :
  group_weights o g <> None ->
  stored_weight (snd (group_add g v w o)) g' v'
  = if String.eqb g g' && (v =? v')%nat then Some w else stored_weight o g' v'.
Proof.
  intros Hex. unfold stored_weight, group_weights in *. simpl.
  rewrite find_group_update.
  destruct (String.eqb g g') eqn:Egg'; simpl; [|reflexivity].
  apply String.eqb_eq in Egg'. subst g'.
  destruct (option_map snd (find (fun gr => String.eqb (fst gr) g) (vertex_groups o)))
    as [ws|]; [|congruence].
  simpl. apply lookup_weight_replace.
Qed.

Lemma group_weights_group_add (o : Object) (g : string) (v : nat) (w : Q) :
  group_weights o g <> None -> group_weights (snd (group_add g v w o)) g <> None.
Proof.
  unfold group_weights. simpl. rewrite find_group_update, String.eqb_refl.
  destruct (option_map snd (find _ (vertex_groups o))); simpl; congruence.
Qed.

Lemma last_write_from (v : nat) (weights : list (nat * Q)) (acc : option Q) :
  fold_left (fun acc iw => if (fst iw =? v)%nat then Some (snd iw) else acc) weights acc
  = match last_write v weights with
    | Some w => Some w
    | None => acc
    end.
Proof.
  unfold last_write. revert acc.
  induction weights as [|iw weights IH]; intros acc; simpl; [reflexivity|].
  rewrite IH. rewrite (IH (if (fst iw =? v)%nat then Some (snd iw) else None)).
  destruct (fold_left _ weights None); [reflexivity|].
  destruct (fst iw =? v)%nat; reflexivity.
Qed.

Lemma write_weights_stored (group : string) (weights : list (nat * Q)) :
  forall o,
    group_weights o group <> None ->
    exists o',
      hfor_each weights (fun iw _ => group_add group (fst iw) (snd iw)) tt o
      = (Ok tt, o')
      /\ (forall v, stored_weight o' group v
                    = match last_write v weights with
                      | Some w => Some w
                      | None => stored_weight o group v
                      end)
      /\ (forall g v, g <> group -> stored_weight o' g v = stored_weight o g v).
Proof.
  induction weights as [|iw weights IH]; intros o Hex.
  - exists o. simpl. unfold hret. auto.
  - simpl hfor_each. unfold hbind at 1.
    destruct (group_add group (fst iw) (snd iw) o) as [r o1] eqn:Eadd.
    assert (r = Ok tt) as -> by (unfold group_add in Eadd; congruence).
    assert (o1 = snd (group_add group (fst iw) (snd iw) o)) as Ho1
      by (rewrite Eadd; reflexivity).
    destruct (IH o1) as [o' [Hrun [Hsame Hother]]].
    { rewrite Ho1. apply group_weights_group_add. exact Hex. }
    exists o'. split; [exact Hrun|]. split.
    + intros v. rewrite Hsame. unfold last_write at 2. simpl fold_left.
      rewrite last_write_from. rewrite Ho1, stored_weight_group_add by exact Hex.
      rewrite String.eqb_refl. simpl.
      destruct (last_write v weights); [reflexivity|].
      destruct (fst iw =? v)%nat; reflexivity.
    + intros g v Hg. rewrite Hother by exact Hg.
      rewrite Ho1, stored_weight_group_add by exact Hex.
      destruct (String.eqb group g) eqn:E; [|reflexivity].
      apply String.eqb_eq in E. congruence.
Qed.

Lemma has_group_weights (name : string) (o : Object) :
  has_group name (vertex_groups o) = true <-> group_weights o name <> None.
Proof.
  unfold has_group, group_weights.
  induction (vertex_groups o) as [|[n ws] gs IH]; simpl.
  - split; [discriminate | congruence].
  - destruct (String.eqb n name); simpl; [|exact IH].
    split; [discriminate | reflexivity].
Qed.

(** Obtaining a group: afterwards it exists, and no stored weight of any
    group has changed. *)
Lemma get_or_new_stored (name : string) (o : Object) :
  exists o',
    get_or_new name o = (Ok name, o')
    /\ group_weights o' name <> None
    /\ (forall g v, stored_weight o' g v = stored_weight o g v).
Proof.
  unfold get_or_new, hbind, vertex_groups_get, vertex_groups_new, hret.
  destruct (has_group name (vertex_groups o)) eqn:E; simpl.
  - eexists. split; [reflexivity|]. split; [|reflexivity].
    apply has_group_weights in E. exact E.
  - eexists. split; [reflexivity|].
    unfold stored_weight, group_weights. simpl.
    assert (forall g,
              option_map snd (find (fun gr => String.eqb (fst gr) g)
                                (vertex_groups o ++ [(name, [])]))
              = match option_map snd (find (fun gr => String.eqb (fst gr) g)
                                        (vertex_groups o)) with
                | Some ws => Some ws
                | None => if String.eqb name g then Some [] else None
                end) as Hfind.
    { intros g. clear E. induction (vertex_groups o) as [|[n ws] gs IH]; simpl.
      - destruct (String.eqb name g); reflexivity.
      - destruct (String.eqb n g); [reflexivity | exact IH]. }
    split.
    + rewrite Hfind, String.eqb_refl. destruct (option_map snd _); discriminate.
    + intros g v. rewrite Hfind.
      destruct (option_map snd (find _ (vertex_groups o))); [reflexivity|].
      destruct (String.eqb name g); reflexivity.
Qed.

(** ** The weight engine as a whole *)

(** The weight engine once sampling and the optional normalization have
    succeeded: it returns, writes the pairs in order, and leaves in the
    group, for each vertex, the weight of the last pair written for it. *)
Lemma assign_weights_from_texture_run
  (obj : Object) (image : Image) (group_name : string) (normalize : bool)
  (uv_layer : list (Q * Q)) (px : ndarray3) (ws ws' : list (nat * Q)) :
  uv_layers_active (data obj) = Some uv_layer ->
  reshape (pixels image) (snd (size image)) (fst (size image)) (channels image) = Ok px ->
  collect_weights (data obj) uv_layer px (fst (size image)) (snd (size image))
    (channels image) = Ok ws ->
  (if normalize then normalize_weights ws else Ok ws) = Ok ws' ->
  exists obj',
    assign_weights_from_texture obj image group_name normalize = (Ok true, obj')
    /\ added_weights (new_calls obj obj') = map snd ws'
    /\ (forall v, stored_weight obj' group_name v
                  = match last_write v ws' with
                    | Some w => Some w
                    | None => stored_weight obj group_name v
                    end)
    /\ (forall g v, g <> group_name -> stored_weight obj' g v = stored_weight obj g v).
Proof.
  intros Huv Hre Hcol Hnorm.
  unfold assign_weights_from_texture. rewrite Huv.
  destruct (size image) as [width height]. simpl in Hre, Hcol.
  unfold hbind at 1. unfold hlift at 1. rewrite Hre.
  unfold hbind at 1.
  destruct (get_or_new_run group_name obj) as [o1 [cs [Hget [_ [Hc1 Hcs]]]]].
  destruct (get_or_new_stored group_name obj) as [o1' [Hget' [Hex Hst1]]].
  assert (o1' = o1) as -> by congruence.
  rewrite Hget.
  unfold hbind at 1. unfold hlift at 1. rewrite Hcol.
  unfold hbind at 1. unfold hlift at 1. rewrite Hnorm.
  unfold hbind at 1.
  destruct (write_weights_run group_name ws' o1) as [o2 [Hrun [_ Hc2]]].
  destruct (write_weights_stored group_name ws' o1 Hex) as [o2' [Hrun' [Hsame Hother]]].
  assert (o2' = o2) as -> by congruence.
  rewrite Hrun. unfold hret. exists o2. split; [reflexivity|].
  split; [|split].
  - rewrite (new_calls_app obj o2
               ((VgGet group_name :: cs)
                  ++ map (fun iw => VgAdd group_name (fst iw) (snd iw)) ws')).
    + rewrite added_weights_app, added_weights_adds.
      destruct Hcs as [-> | ->]; reflexivity.
    + rewrite Hc2, Hc1. rewrite <- app_assoc. reflexivity.
  - intros v. rewrite Hsame, Hst1. reflexivity.
  - intros g v Hg. rewrite Hother by exact Hg. apply Hst1.
Qed.

(** X12: after a successful run of the weight engine the group stores,
    for every vertex, the weight of the last face-corner of that vertex
    in iteration order ("replace" writes: the last one wins); a vertex no
    corner touches keeps what it had, and other groups are not changed. *)
Theorem assign_weights_from_texture_last_write_wins
  (obj : Object) (image : Image) (group_name : string) (normalize : bool)
  (uv_layer : list (Q * Q)) (px : ndarray3) (ws ws' : list (nat * Q)) :
  uv_layers_active (data obj) = Some uv_layer ->
  reshape (pixels image) (snd (size image)) (fst (size image)) (channels image) = Ok px ->
  collect_weights (data obj) uv_layer px (fst (size image)) (snd (size image))
    (channels image) = Ok ws ->
  (if normalize then normalize_weights ws else Ok ws) = Ok ws' ->
  exists obj',
    assign_weights_from_texture obj image group_name normalize = (Ok true, obj')
    /\ (forall v, stored_weight obj' group_name v
                  = match last_write v ws' with
                    | Some w => Some w
                    | None => stored_weight obj group_name v
                    end)
    /\ (forall g v, g <> group_name -> stored_weight obj' g v = stored_weight obj g v).
Proof.
  intros Huv Hre Hcol Hnorm.
  destruct (assign_weights_from_texture_run obj image group_name normalize uv_layer
              px ws ws' Huv Hre Hcol Hnorm) as [obj' [Hrun [_ [Hsame Hother]]]].
  exists obj'. auto.
Qed.

Lemma assign_weights_from_texture_last_write_wins_witness :
  exists obj',
    assign_weights_from_texture (empty_object ramp_triangle) ramp_image
      "Texture_Weights" false = (Ok true, obj')
    /\ (forall v, stored_weight obj' "Texture_Weights" v
                  = match last_write v [(0%nat, 0%Q); (1%nat, (1#4)%Q); (2%nat, (1#4)%Q)]
                    with
                    | Some w => Some w
                    | None => stored_weight (empty_object ramp_triangle)
                                "Texture_Weights" v
                    end)
    /\ (forall g v, g <> "Texture_Weights"%string ->
          stored_weight obj' g v = stored_weight (empty_object ramp_triangle) g v).
Proof.
  apply (assign_weights_from_texture_last_write_wins (empty_object ramp_triangle)
           ramp_image "Texture_Weights" false [(0, 0); (1#4, 0); (1#4, 0)]%Q
           {| shape := (1, 5, 1)%nat; flat := pixels ramp_image |}
           [(0%nat, 0%Q); (1%nat, (1#4)%Q); (2%nat, (1#4)%Q)]
           [(0%nat, 0%Q); (1%nat, (1#4)%Q); (2%nat, (1#4)%Q)]);
    reflexivity.
Defined.

Lemma weight_corners_samples (P : Q -> Prop) (mesh : Mesh) (uv_layer : list (Q * Q))
  (px : ndarray3) (width height chans : nat) (corners : list nat) :
  (forall uv p, pixel_value_at px width height chans uv = Ok p -> P p) ->
  forall ws0 ws,
    for_each corners (weight_corner mesh uv_layer px width height chans) ws0 = Ok ws ->
    Forall P (map snd ws0) -> Forall P (map snd ws).
Proof.
  intros HP. induction corners as [|c corners IH]; intros ws0 ws H H0; simpl in H.
  - injection H as <-. exact H0.
  - destruct (weight_corner mesh uv_layer px width height chans c ws0) as [ws1|] eqn:E;
      cbn [rbind] in H; [|discriminate H].
    apply (IH ws1 ws H). unfold weight_corner in E.
    destruct (py_getitem (loops mesh) c) as [vi|]; cbn [rbind] in E; [|discriminate E].
    destruct (py_getitem uv_layer c) as [uv|]; cbn [rbind] in E; [|discriminate E].
    destruct (pixel_value_at px width height chans uv) as [p|] eqn:Ep;
      cbn [rbind] in E; [|discriminate E].
    injection E as <-. rewrite map_app. apply Forall_app. split; [exact H0|].
    constructor; [eapply HP; exact Ep | constructor].
Qed.

Lemma normalize_weights_unit (ws : list (nat * Q)) :
  ws <> [] ->
  exists out,
    normalize_weights ws = Ok out
    /\ List.length out = List.length ws
    /\ Forall (fun w => (0 <= w)%Q /\ (w <= 1)%Q) (map snd out).
Proof.
  intros Hne.
  destruct (map snd ws) as [|x t] eqn:Ews.
  { destruct ws; [congruence | discriminate Ews]. }
  destruct (normalize_weights_spec ws (fold_left Qmin t x) (fold_left Qmax t x))
    as [out [Hrun [Hlen [Hspan Hflat]]]];
    [rewrite Ews; reflexivity | rewrite Ews; reflexivity |].
  exists out. split; [exact Hrun|]. split; [exact Hlen|].
  destruct (Qlt_le_dec (fold_left Qmin t x) (fold_left Qmax t x)) as [Hlt | Hge].
  - apply Hspan. exact Hlt.
  - assert (fold_left Qmin t x == fold_left Qmax t x)%Q as E.
    { apply Qle_antisym; [|exact Hge].
      eapply Qle_trans; [apply fold_min_le_init | apply fold_max_ge_init]. }
    specialize (Hflat E). rewrite Forall_forall in Hflat |- *.
    intros w Hw. rewrite (Hflat w Hw). split; discriminate.
Qed.

(** X13: with an active UV layer, a consistent non-empty raster whose
    samples lie in [0,1], loop indices that address the mesh's loops and
    UVs, UV coordinates in [-1,1]x[-1,1], and at least one face-corner
    when normalizing, the weight engine returns True, writes one weight
    per face-corner, and every weight it writes lies in [0,1]. *)
Theorem assign_weights_from_texture_returns_on_valid_input
  (obj : Object) (image : Image) (group_name : string) (normalize : bool)
  (uv_layer : list (Q * Q)) :
  uv_layers_active (data obj) = Some uv_layer ->
  image_valid image ->
  Forall (fun x => (0 <= x)%Q /\ (x <= 1)%Q) (pixels image) ->
  corners_valid (data obj) uv_layer ->
  uvs_within_wrap uv_layer ->
  (normalize = true -> List.concat (polygons (data obj)) <> []) ->
  exists obj',
    assign_weights_from_texture obj image group_name normalize = (Ok true, obj')
    /\ List.length (added_weights (new_calls obj obj'))
       = List.length (List.concat (polygons (data obj)))
    /\ Forall (fun w => (0 <= w)%Q /\ (w <= 1)%Q) (added_weights (new_calls obj obj')).
Proof.
  intros Huv Himg Hpix Hcorners Huvs Hnonempty.
  pose proof (reshape_ok image Himg) as Hre.
  destruct (collect_weights_total (data obj) uv_layer image Himg Huvs Hcorners)
    as [ws Hcol].
  pose proof (collect_weights_length _ _ _ _ _ _ _ Hcol) as Hlen.
  assert (Forall (fun w => (0 <= w)%Q /\ (w <= 1)%Q) (map snd ws)) as Hunit.
  { unfold collect_weights in Hcol. rewrite for_each_concat in Hcol.
    apply (weight_corners_samples _ _ _ _ _ _ _ _
             (fun uv p H => pixel_value_at_unit _ _ _ _ _ uv p Hre
                              (proj1 (proj2 (proj2 Himg))) Hpix H)
             [] ws Hcol).
    constructor. }
  assert (exists ws', (if normalize then normalize_weights ws else Ok ws) = Ok ws'
                      /\ List.length ws' = List.length ws
                      /\ Forall (fun w => (0 <= w)%Q /\ (w <= 1)%Q) (map snd ws'))
    as [ws' [Hnorm [Hlen' Hunit']]].
  { destruct normalize.
    - apply normalize_weights_unit. intros ->.
      apply (Hnonempty eq_refl). simpl in Hlen.
      destruct (List.concat (polygons (data obj))); [reflexivity | discriminate Hlen].
    - exists ws. auto. }
  destruct (assign_weights_from_texture_run obj image group_name normalize uv_layer
              _ ws ws' Huv Hre Hcol Hnorm) as [obj' [Hrun [Hadded _]]].
  exists obj'. split; [exact Hrun|]. rewrite Hadded. split; [|exact Hunit'].
  rewrite length_map. congruence.
Qed.

Lemma assign_weights_from_texture_returns_on_valid_input_witness :
  exists obj',
    assign_weights_from_texture (empty_object quad) checker_image "Texture_Weights" true
    = (Ok true, obj')
    /\ List.length (added_weights (new_calls (empty_object quad) obj')) = 4%nat
    /\ Forall (fun w => (0 <= w)%Q /\ (w <= 1)%Q)
         (added_weights (new_calls (empty_object quad) obj')).
Proof.
  apply (assign_weights_from_texture_returns_on_valid_input (empty_object quad)
           checker_image "Texture_Weights" true [(0, 0); (1, 0); (1, 1); (0, 1)]%Q).
  - reflexivity.
  - repeat split; simpl; lia.
  - repeat constructor; discriminate.
  - repeat constructor.
  - repeat constructor; discriminate.
  - discriminate.
Defined.

(** X14: if the weight engine raises, whatever the exception, it has
    written no weight, and every stored weight of the object reads as
    before (at most an empty group was created). *)
Theorem assign_weights_from_texture_fails_without_weights
  (obj obj' : Object) (image : Image) (group_name : string) (normalize : bool)
  (e : exn) :
  assign_weights_from_texture obj image group_name normalize = (Raise e, obj') ->
  added_weights (new_calls obj obj') = []
  /\ (forall g v, stored_weight obj' g v = stored_weight obj g v).
Proof.
  intros H.
  assert (added_weights (new_calls obj obj) = []) as Hnone
    by (unfold new_calls; rewrite skipn_all; reflexivity).
  unfold assign_weights_from_texture in H.
  destruct (uv_layers_active (data obj)) as [uv_layer|] eqn:Huv;
    [|injection H as _ <-; auto].
  destruct (size image) as [width height].
  unfold hbind at 1 in H. unfold hlift at 1 in H.
  destruct (reshape (pixels image) height width (channels image)) as [px|e1] eqn:Hre;
    [|injection H as _ <-; auto].
  unfold hbind at 1 in H.
  destruct (get_or_new_run group_name obj) as [o1 [cs [Hget [_ [Hc1 Hcs]]]]].
  destruct (get_or_new_stored group_name obj) as [o1' [Hget' [Hex Hst1]]].
  assert (o1' = o1) as -> by congruence.
  rewrite Hget in H.
  assert (added_weights (new_calls obj o1) = []) as Hnone1.
  { rewrite (new_calls_app obj o1 (VgGet group_name :: cs) Hc1).
    destruct Hcs as [-> | ->]; reflexivity. }
  unfold hbind at 1 in H. unfold hlift at 1 in H.
  destruct (collect_weights (data obj) uv_layer px width height (channels image))
    as [ws|e2] eqn:Hcol; [|injection H as _ <-; auto].
  unfold hbind at 1 in H. unfold hlift at 1 in H.
  destruct (if normalize then normalize_weights ws else Ok ws) as [ws'|e3] eqn:Hnorm;
    [|injection H as _ <-; auto].
  unfold hbind at 1 in H.
  destruct (write_weights_run group_name ws' o1) as [o2 [Hrun _]].
  rewrite Hrun in H. discriminate H.
Qed.

Lemma assign_weights_from_texture_fails_without_weights_witness :
  added_weights
    (new_calls (empty_object stray_triangle)
       {| data := stray_triangle;
          vertex_groups := [("Texture_Weights"%string, [])];
          calls := [VgGet "Texture_Weights"; VgNew "Texture_Weights"] |}) = []
  /\ (forall g v,
        stored_weight
          {| data := stray_triangle;
             vertex_groups := [("Texture_Weights"%string, [])];
             calls := [VgGet "Texture_Weights"; VgNew "Texture_Weights"] |} g v
        = stored_weight (empty_object stray_triangle) g v).
Proof.
  apply (assign_weights_from_texture_fails_without_weights
           (empty_object stray_triangle) _ checker_image "Texture_Weights" true
           (IndexError "index 2 is out of bounds for axis 1 with size 2")).
  vm_compute. reflexivity.
Defined.

(** X15: on a mesh with an active UV layer and no face-corner, a run of
    the weight engine with [normalize = True] raises
    ValueError("min() arg is an empty sequence") after it has obtained
    the group, which therefore exists afterwards; without normalization
    the same call returns True and writes nothing. *)
Theorem normalizing_without_corners_raises
  (obj : Object) (image : Image) (group_name : string)
  (uv_layer : list (Q * Q)) (px : ndarray3) :
  uv_layers_active (data obj) = Some uv_layer ->
  reshape (pixels image) (snd (size image)) (fst (size image)) (channels image) = Ok px ->
  List.concat (polygons (data obj)) = [] ->
  exists obj',
    assign_weights_from_texture obj image group_name true
    = (Raise (ValueError "min() arg is an empty sequence"), obj')
    /\ group_weights obj' group_name <> None
    /\ assign_weights_from_texture obj image group_name false = (Ok true, obj').
Proof.
  intros Huv Hre Hnone.
  destruct (get_or_new_stored group_name obj) as [o1 [Hget [Hex _]]].
  exists o1.
  assert (forall normalize,
            assign_weights_from_texture obj image group_name normalize
            = match (if normalize then normalize_weights [] else Ok []) with
              | Ok _ => (Ok true, o1)
              | Raise e => (Raise e, o1)
              end) as Hrun.
  { intros normalize. unfold assign_weights_from_texture. rewrite Huv.
    destruct (size image) as [width height]. simpl in Hre.
    unfold hbind at 1. unfold hlift at 1. rewrite Hre.
    unfold hbind at 1. rewrite Hget.
    unfold hbind at 1. unfold hlift at 1.
    assert (collect_weights (data obj) uv_layer px width height (channels image)
            = Ok []) as ->
      by (unfold collect_weights; rewrite for_each_concat, Hnone; reflexivity).
    unfold hbind at 1. unfold hlift at 1.
    destruct (if normalize then normalize_weights [] else Ok []) as [ws'|e] eqn:E;
      [|reflexivity].
    assert (ws' = []) as -> by (destruct normalize; [discriminate E | congruence]).
    reflexivity. }
  split; [|split].
  - rewrite (Hrun true). reflexivity.
  - exact Hex.
  - rewrite (Hrun false). reflexivity.
Qed.

Lemma normalizing_without_corners_raises_witness :
  exists obj',
    assign_weights_from_texture (empty_object bare_mesh) checker_image
      "Texture_Weights" true
    = (Raise (ValueError "min() arg is an empty sequence"), obj')
    /\ group_weights obj' "Texture_Weights" <> None
    /\ assign_weights_from_texture (empty_object bare_mesh) checker_image
         "Texture_Weights" false = (Ok true, obj').
Proof.
  apply (normalizing_without_corners_raises (empty_object bare_mesh) checker_image
           "Texture_Weights" []
           {| shape := (2, 2, 1)%nat; flat := pixels checker_image |});
    reflexivity.
Defined.

(** X16: normalization keeps the list's length, order and vertex
    indices, and maps the weights through one non-decreasing function:
    it never swaps the order of two weights. *)
Theorem normalize_weights_is_monotone (weights out : list (nat * Q)) :
  normalize_weights weights = Ok out ->
  exists f : Q -> Q,
    out = map (fun iw => (fst iw, f (snd iw))) weights
    /\ (forall a b, (a <= b)%Q -> (f a <= f b)%Q).
Proof.
  unfold normalize_weights. intros H.
  destruct (py_min (map snd weights)) as [lo|]; cbn [rbind] in H; [|discriminate H].
  destruct (py_max (map snd weights)) as [hi|]; cbn [rbind] in H; [|discriminate H].
  destruct (fgt (fsub hi lo) 0) eqn:G; injection H as <-.
  - exists (fun w => fdiv (fsub w lo) (fsub hi lo)). split; [reflexivity|].
    intros a b Hab. apply fgt_iff in G.
    unfold fdiv. rewrite !Qred_correct. unfold Qdiv.
    apply Qmult_le_compat_r.
    + rewrite !fsub_correct. apply Qplus_le_compat; [exact Hab | apply Qle_refl].
    + apply Qinv_le_0_compat. apply Qlt_le_weak. exact G.
  - exists (fun _ => 1%Q). split; [reflexivity|]. intros a b _. apply Qle_refl.
Qed.

Lemma normalize_weights_is_monotone_witness :
  exists f : Q -> Q,
    [(0%nat, 0%Q); (1%nat, (1#2)%Q); (2%nat, 1%Q)]
    = map (fun iw => (fst iw, f (snd iw)))
        [(0%nat, (1#4)%Q); (1%nat, (1#2)%Q); (2%nat, (3#4)%Q)]
    /\ (forall a b, (a <= b)%Q -> (f a <= f b)%Q).
Proof.
  apply (normalize_weights_is_monotone
           [(0%nat, (1#4)%Q); (1%nat, (1#2)%Q); (2%nat, (3#4)%Q)]
           [(0%nat, 0%Q); (1%nat, (1#2)%Q); (2%nat, 1%Q)]).
  vm_compute. reflexivity.
Defined.

(** X17: the groups one run of the group engine obtains all have
    different names, so no two levels write into the same group. *)
Theorem created_group_names_are_distinct
  (obj : Object) (unique_colors : list Q) (image : Image) (threshold : Q)
  (min_group_size : Z) (base_group_name : string)
  (uv_layer : list (Q * Q)) (px : ndarray3) (vga : assignments) (pvo : option Q) :
  uv_layers_active (data obj) = Some uv_layer ->
  reshape (pixels image) (snd (size image)) (fst (size image)) (channels image) = Ok px ->
  sampling_pass (data obj) uv_layer px (fst (size image)) (snd (size image))
    (channels image) unique_colors = Ok (vga, pvo) ->
  exists obj',
    assign_vertex_groups obj unique_colors image threshold min_group_size
      base_group_name = (Ok true, obj')
    /\ NoDup (group_names (new_calls obj obj')).
Proof.
  intros Huv Hre Hpass.
  destruct (assign_vertex_groups_run obj unique_colors image threshold min_group_size
              base_group_name uv_layer px vga pvo Huv Hre Hpass)
    as [obj' [Hrun [Hnames _]]].
  exists obj'. split; [exact Hrun|]. rewrite Hnames.
  apply Finite.Injective_map_NoDup; [|apply seq_NoDup].
  intros a b. apply group_name_of_inj.
Qed.

Lemma created_group_names_are_distinct_witness :
  exists obj',
    assign_vertex_groups (empty_object quad) [0; 1#2; 1]%Q checker_image (1#4)%Q 1
      "group" = (Ok true, obj')
    /\ NoDup (group_names (new_calls (empty_object quad) obj')).
Proof.
  apply (created_group_names_are_distinct (empty_object quad) [0; 1#2; 1]%Q
           checker_image (1#4)%Q 1 "group"
           [(0, 0); (1, 0); (1, 1); (0, 1)]%Q
           {| shape := (2, 2, 1)%nat; flat := pixels checker_image |}
           [(0%Q, [0; 1]%nat); ((1#2)%Q, []); (1%Q, [2; 3]%nat)] (Some 1%Q));
    reflexivity.
Defined.

(** ** The order in which levels are emitted *)











(** ** The weights the group engine writes *)

Lemma level_weight_le_one (color p : Q) : (level_weight color p <= 1)%Q.
Proof.
  unfold level_weight. rewrite fsub_correct.
  rewrite <- (Qplus_0_r 1) at 2. apply Qplus_le_compat; [apply Qle_refl|].
  apply (Qopp_le_compat 0). apply Qabs_nonneg.
Qed.

Lemma add_members_within (group : string) (color : Q) (pvo : option Q)
  (threshold : Q) (vertex_indices : list nat) :
  forall o r o',
    add_members group color pvo threshold vertex_indices o = (r, o') ->
    exists tr, calls o' = calls o ++ tr /\ Forall (call_within threshold) tr.
Proof.
  destruct pvo as [p|].
  - intros o r o' H.
    destruct (add_members_run group color p threshold vertex_indices o)
      as [o2 [Hrun Hc]].
    rewrite Hrun in H. injection H as _ <-.
    eexists. split; [exact Hc|].
    destruct (fge (level_weight color p) threshold) eqn:G; [|constructor].
    apply Forall_forall. intros c Hc'. apply in_map_iff in Hc'.
    destruct Hc' as [v [<- _]]. simpl. split.
    + apply Qle_bool_iff. exact G.
    + apply level_weight_le_one.
  - intros o r o' H. exists []. rewrite app_nil_r. split; [|constructor].
    destruct vertex_indices as [|v vs]; unfold add_members in H; simpl in H.
    + unfold hret in H. congruence.
    + unfold hbind, hlift in H. simpl in H. congruence.
Qed.

Lemma emit_levels_within (vga : assignments) (pvo : option Q) (threshold : Q)
  (min_group_size : Z) (base_group_name : string) (levels : list Q) :
  forall n o r o',
    hfor_each levels
      (emit_level vga pvo threshold min_group_size base_group_name) n o = (r, o') ->
    exists tr, calls o' = calls o ++ tr /\ Forall (call_within threshold) tr.
Proof.
  induction levels as [|color levels IH]; intros n o r o' H.
  - simpl in H. unfold hret in H. injection H as _ <-.
    exists []. rewrite app_nil_r. split; [reflexivity | constructor].
  - simpl hfor_each in H. unfold hbind at 1 in H.
    destruct (emit_level vga pvo threshold min_group_size base_group_name color n o)
      as [r1 o1] eqn:E.
    assert (exists tr1, calls o1 = calls o ++ tr1
                        /\ Forall (call_within threshold) tr1) as [tr1 [Hc1 Hw1]].
    { unfold emit_level in E. unfold hbind at 1 in E. unfold hlift at 1 in E.
      destruct (dict_getitem vga color) as [s|e1].
      - destruct (Z.of_nat (List.length s) >=? min_group_size).
        + unfold hbind at 1 in E.
          destruct (get_or_new_run (group_name_of base_group_name n) o)
            as [o2 [cs [Hget [_ [Hc2 Hcs]]]]].
          rewrite Hget in E. unfold hbind at 1 in E.
          destruct (add_members (group_name_of base_group_name n) color pvo
                      threshold s o2) as [r3 o3] eqn:Eadd.
          destruct (add_members_within _ _ _ _ _ _ _ _ Eadd) as [tr3 [Hc3 Hw3]].
          assert (o1 = o3) as ->
            by (destruct r3; unfold hret in E; congruence).
          exists ((VgGet (group_name_of base_group_name n) :: cs) ++ tr3).
          split; [rewrite Hc3, Hc2, <- app_assoc; reflexivity|].
          apply Forall_app. split; [|exact Hw3].
          destruct Hcs as [-> | ->]; repeat constructor.
        + unfold hret in E. injection E as _ <-.
          exists []. rewrite app_nil_r. split; [reflexivity | constructor].
      - injection E as _ <-.
        exists []. rewrite app_nil_r. split; [reflexivity | constructor]. }
    destruct r1 as [n1|e1].
    + destruct (IH n1 o1 r o' H) as [tr [Hc Hw]].
      exists (tr1 ++ tr). split; [rewrite Hc, Hc1, <- app_assoc; reflexivity|].
      apply Forall_app. auto.
    + injection H as _ <-. exists tr1. auto.
Qed.

Lemma added_weights_within (threshold : Q) (tr : list vg_call) :
  Forall (call_within threshold) tr ->
  Forall (fun w => (threshold <= w)%Q /\ (w <= 1)%Q) (added_weights tr).
Proof.
  induction 1 as [|c tr Hc _ IH]; simpl; [constructor|].
  destruct c; simpl; try exact IH. constructor; [exact Hc | exact IH].
Qed.

(** The weights of one call of the group engine, however it ends. *)
Lemma assign_vertex_groups_within
  (obj obj' : Object) (unique_colors : list Q) (image : Image) (threshold : Q)
  (min_group_size : Z) (base_group_name : string) (r : result bool) :
  assign_vertex_groups obj unique_colors image threshold min_group_size
    base_group_name = (r, obj') ->
  Forall (fun w => (threshold <= w)%Q /\ (w <= 1)%Q)
    (added_weights (new_calls obj obj')).
Proof.
  intros H.
  assert (Forall (fun w => (threshold <= w)%Q /\ (w <= 1)%Q)
            (added_weights (new_calls obj obj))) as Hnone
    by (unfold new_calls; rewrite skipn_all; constructor).
  unfold assign_vertex_groups in H.
  destruct (uv_layers_active (data obj)) as [uv_layer|];
    [|injection H as _ <-; exact Hnone].
  destruct (size image) as [width height].
  unfold hbind at 1 in H. unfold hlift at 1 in H.
  destruct (reshape (pixels image) height width (channels image)) as [px|];
    [|injection H as _ <-; exact Hnone].
  unfold hbind at 1 in H. unfold hlift at 1 in H.
  destruct (sampling_pass (data obj) uv_layer px width height (channels image)
              unique_colors) as [[vga pvo]|];
    [|injection H as _ <-; exact Hnone].
  unfold hbind at 1 in H.
  destruct (hfor_each (py_sorted (map fst vga))
              (emit_level vga pvo threshold min_group_size base_group_name) 0%nat obj)
    as [r1 o1] eqn:E.
  destruct (emit_levels_within _ _ _ _ _ _ _ _ _ _ E) as [tr [Hc Hw]].
  assert (obj' = o1) as -> by (destruct r1; unfold hret in H; congruence).
  rewrite (new_calls_app obj o1 tr Hc). apply added_weights_within. exact Hw.
Qed.

(** X19: every weight a call of the group engine passes to [group.add]
    is at least [threshold] and at most 1, however the call ends. *)
Theorem group_weights_between_threshold_and_one
  (obj obj' : Object) (unique_colors : list Q) (image : Image) (threshold : Q)
  (min_group_size : Z) (base_group_name : string) (r : result bool) :
  assign_vertex_groups obj unique_colors image threshold min_group_size
    base_group_name = (r, obj') ->
  Forall (fun w => (threshold <= w)%Q /\ (w <= 1)%Q)
    (added_weights (new_calls obj obj')).
Proof. apply assign_vertex_groups_within. Qed.

Lemma group_weights_between_threshold_and_one_witness :
  Forall (fun w => ((1#4) <= w)%Q /\ (w <= 1)%Q)
    (added_weights
       (new_calls (empty_object ramp_triangle)
          (snd (assign_vertex_groups (empty_object ramp_triangle) [0; 1]%Q ramp_image
                  (1#4)%Q 1 "group")))).
Proof.
  apply (group_weights_between_threshold_and_one (empty_object ramp_triangle)
           _ [0; 1]%Q ramp_image (1#4)%Q 1 "group" (Ok true)).
  vm_compute. reflexivity.
Defined.

(** ** The operator's [execute] *)

Lemma assign_vertex_groups_ok_true
  (obj obj' : Object) (unique_colors : list Q) (image : Image) (threshold : Q)
  (min_group_size : Z) (base_group_name : string) (success : bool) :
  assign_vertex_groups obj unique_colors image threshold min_group_size
    base_group_name = (Ok success, obj') ->
  success = true.
Proof.
  intros H. unfold assign_vertex_groups in H.
  destruct (uv_layers_active (data obj)) as [uv_layer|]; [|discriminate H].
  destruct (size image) as [width height].
  unfold hbind at 1 in H. unfold hlift at 1 in H.
  destruct (reshape (pixels image) height width (channels image)); [|discriminate H].
  unfold hbind at 1 in H. unfold hlift at 1 in H.
  destruct (sampling_pass _ _ _ _ _ _ _) as [[vga pvo]|]; [|discriminate H].
  unfold hbind at 1 in H.
  destruct (hfor_each _ _ _ _) as [[n|] o1]; [|discriminate H].
  unfold hret in H. congruence.
Qed.

Lemma assign_weights_from_texture_ok_true
  (obj obj' : Object) (image : Image) (group_name : string) (normalize success : bool) :
  assign_weights_from_texture obj image group_name normalize = (Ok success, obj') ->
  success = true.
Proof.
  intros H. unfold assign_weights_from_texture in H.
  destruct (uv_layers_active (data obj)) as [uv_layer|]; [|discriminate H].
  destruct (size image) as [width height].
  unfold hbind at 1 in H. unfold hlift at 1 in H.
  destruct (reshape (pixels image) height width (channels image)); [|discriminate H].
  unfold hbind at 1 in H.
  destruct (get_or_new group_name obj) as [[g|] o1]; [|discriminate H].
  unfold hbind at 1 in H. unfold hlift at 1 in H.
  destruct (collect_weights _ _ _ _ _ _); [|discriminate H].
  unfold hbind at 1 in H. unfold hlift at 1 in H.
  destruct (if normalize then _ else _); [|discriminate H].
  unfold hbind at 1 in H.
  destruct (hfor_each _ _ _ _) as [[u|] o2]; [|discriminate H].
  unfold hret in H. congruence.
Qed.

Lemma pixel_vectors_length (a : ndarray3) :
  List.length (pixel_vectors a) = (fst (fst (shape a)) * snd (fst (shape a)))%nat.
Proof.
  unfold pixel_vectors. destruct (shape a) as [[h w] c]. simpl.
  rewrite length_map, length_seq. reflexivity.
Qed.

(** On a consistent raster with at least one pixel and one channel,
    [analyze_texture] returns at least one intensity. *)
Lemma analyze_texture_total (image : Image) :
  image_valid image ->
  exists values, analyze_texture image = Ok values /\ values <> [].
Proof.
  intros Himg. pose proof (reshape_ok image Himg) as Hre.
  destruct Himg as [Hw [Hh [Hc Hlen]]].
  unfold analyze_texture. destruct (size image) as [width height].
  simpl in Hre, Hw, Hh. rewrite Hre. cbn [rbind].
  set (px := {| shape := (height, width, channels image); flat := pixels image |}).
  assert (exists v vs, pixel_vectors px = v :: vs) as [v [vs Hv]].
  { pose proof (pixel_vectors_length px) as L. simpl in L.
    destruct (pixel_vectors px) as [|v vs]; [|eauto].
    simpl in L. assert (1 <= height * width)%nat by nia. lia. }
  assert (forall f : list Q -> Q,
            np_unique Qcompare (map f (pixel_vectors px)) <> []) as Hne.
  { intros f E. rewrite Hv in E.
    destruct (np_unique_has Qcompare (f v) (map f (v :: vs)) ltac:(left; reflexivity))
      as [y [Hy _]].
    rewrite E in Hy. destruct Hy. }
  destruct (1 <? channels image)%nat.
  - cbn [rbind]. eexists. split; [reflexivity | apply Hne].
  - assert ((channels image =? 0)%nat = false) as -> by (apply Nat.eqb_neq; lia).
    cbn [rbind]. eexists. split; [reflexivity | apply Hne].
Qed.

(** With [num_clusters >= 2] the levels [execute] hands to the group
    engine are finite and there is at least one. *)
Lemma quantized_levels_nonempty (colors : list Q) (K : Z) :
  colors <> [] -> 2 <= K ->
  exists levels,
    quantize_colors colors K = Ok levels
    /\ map VGBT_OT_create_groups.finite_level levels <> [].
Proof.
  intros Hne HK.
  destruct (quantize_colors_always_exceeds_one colors K Hne HK)
    as [levels [q [Hrun [Hin _]]]].
  exists levels. split; [exact Hrun|].
  destruct levels; [destruct Hin | discriminate].
Qed.

Section ExecuteProperties.
Variable host_error : Type.
Variables images_getitem images_load : string -> host_error + Image.

Let execute := VGBT_OT_create_groups.execute host_error images_getitem images_load.
Let select_image :=
  VGBT_OT_create_groups.select_image host_error images_getitem images_load.

Lemma try_body_returns (self : VGBT_OT_create_groups.Operator) (image : Image)
  (obj obj1 : Object) (success : bool) (reported : VGBT_OT_create_groups.reports) :
  VGBT_OT_create_groups.try_body self image obj = (Ok success, obj1, reported) ->
  success = true
  /\ reported
     = [(VGBT_OT_create_groups.INFO,
         if VGBT_OT_create_groups.use_weights self
         then ("Created vertex group '"
                 ++ VGBT_OT_create_groups.weight_group_name self
                 ++ "' with weights from texture")%string
         else "Created vertex groups based on texture"%string)].
Proof.
  unfold VGBT_OT_create_groups.try_body. intros H.
  destruct (VGBT_OT_create_groups.use_weights self).
  - destruct (assign_weights_from_texture _ _ _ _) as [[b|e] o1] eqn:E;
      [|discriminate H].
    pose proof (assign_weights_from_texture_ok_true _ _ _ _ _ _ E) as ->.
    injection H as <- _ <-. auto.
  - destruct (analyze_texture image); [|discriminate H].
    destruct (quantize_colors _ _); [|discriminate H].
    destruct (assign_vertex_groups _ _ _ _ _ _) as [[b|e] o1] eqn:E;
      [|discriminate H].
    pose proof (assign_vertex_groups_ok_true _ _ _ _ _ _ _ _ E) as ->.
    injection H as <- _ <-. auto.
Qed.

Lemma try_body_raises (self : VGBT_OT_create_groups.Operator) (image : Image)
  (obj obj1 : Object) (e : exn) (reported : VGBT_OT_create_groups.reports) :
  VGBT_OT_create_groups.try_body self image obj = (Raise e, obj1, reported) ->
  reported = []
  /\ (VGBT_OT_create_groups.use_weights self = false -> obj1 = obj).
Proof.
  unfold VGBT_OT_create_groups.try_body. intros H.
  destruct (VGBT_OT_create_groups.use_weights self).
  - destruct (assign_weights_from_texture _ _ _ _) as [[b|e1] o1]; [discriminate H|].
    injection H as _ _ <-. split; [reflexivity | discriminate].
  - destruct (analyze_texture image); [|injection H as _ <- <-; auto].
    destruct (quantize_colors _ _); [|injection H as _ <- <-; auto].
    destruct (assign_vertex_groups _ _ _ _ _ _) as [[b|e1] o1] eqn:E;
      [discriminate H|].
    apply assign_vertex_groups_raise_unchanged in E.
    injection H as _ <- <-. auto.
Qed.

(** X20: [execute] always leaves the context in object mode.  In group
    mode it is all or nothing: unless it returns FINISHED, the object is
    exactly as it was, whether the call was cancelled or an exception
    escaped. *)
Theorem execute_group_mode_is_all_or_nothing
  (self : VGBT_OT_create_groups.Operator) (context context' : VGBT_OT_create_groups.Context)
  (out : VGBT_OT_create_groups.outcome host_error)
  (reported : VGBT_OT_create_groups.reports) :
  execute self context = (out, context', reported) ->
  VGBT_OT_create_groups.mode context' = "OBJECT"%string
  /\ (VGBT_OT_create_groups.use_weights self = false ->
      out <> VGBT_OT_create_groups.Returned VGBT_OT_create_groups.FINISHED ->
      VGBT_OT_create_groups.object context' = VGBT_OT_create_groups.object context).
Proof.
  unfold execute, VGBT_OT_create_groups.execute.
  set (c0 := if String.eqb (VGBT_OT_create_groups.mode context) "OBJECT"
             then context else VGBT_OT_create_groups.mode_set "OBJECT" context).
  assert (VGBT_OT_create_groups.mode c0 = "OBJECT"%string) as Hmode.
  { unfold c0. destruct (String.eqb _ "OBJECT") eqn:E; [|reflexivity].
    apply String.eqb_eq. exact E. }
  assert (VGBT_OT_create_groups.object c0 = VGBT_OT_create_groups.object context)
    as Hobj by (unfold c0; destruct (String.eqb _ "OBJECT"); reflexivity).
  destruct (VGBT_OT_create_groups.select_image _ _ _ self) as [msg | [e | image]].
  - intros H. injection H as _ <- _. auto.
  - intros H. injection H as _ <- _. auto.
  - destruct (VGBT_OT_create_groups.try_body self image _) as [[r obj1] rp] eqn:E.
    destruct r as [success | e].
    + destruct (try_body_returns _ _ _ _ _ _ E) as [-> _].
      intros H. injection H as <- <- _. split; [exact Hmode|]. congruence.
    + destruct (try_body_raises _ _ _ _ _ _ E) as [_ Hsame].
      intros H.
      assert (context' = {| VGBT_OT_create_groups.mode := VGBT_OT_create_groups.mode c0;
                            VGBT_OT_create_groups.object := obj1 |}) as ->
        by (destruct e; injection H as _ <- _; reflexivity).
      simpl. split; [exact Hmode|]. intros Hg _. rewrite (Hsame Hg). exact Hobj.
Qed.

(** X21: [execute] reports exactly once when it returns and not at all
    when an exception escapes.  FINISHED comes with the INFO message of
    the mode; CANCELLED comes with an ERROR that is either the
    nothing-selected message or the text of a ValueError raised in the
    [try] body.  The two "Failed to create ..." branches are never
    taken, because both engines return True or raise. *)
Theorem execute_reports_once
  (self : VGBT_OT_create_groups.Operator) (context context' : VGBT_OT_create_groups.Context)
  (out : VGBT_OT_create_groups.outcome host_error)
  (reported : VGBT_OT_create_groups.reports) :
  execute self context = (out, context', reported) ->
  match out with
  | VGBT_OT_create_groups.Returned VGBT_OT_create_groups.FINISHED =>
      reported
      = [(VGBT_OT_create_groups.INFO,
          if VGBT_OT_create_groups.use_weights self
          then ("Created vertex group '"
                  ++ VGBT_OT_create_groups.weight_group_name self
                  ++ "' with weights from texture")%string
          else "Created vertex groups based on texture"%string)]
  | VGBT_OT_create_groups.Returned VGBT_OT_create_groups.CANCELLED =>
      exists message,
        reported = [(VGBT_OT_create_groups.ERROR, message)]
        /\ (select_image self = inl message
            \/ exists image obj1,
                 select_image self = inr (inr image)
                 /\ VGBT_OT_create_groups.try_body self image
                      (VGBT_OT_create_groups.object context)
                    = (Raise (ValueError message), obj1, []))
  | _ => reported = []
  end.
Proof.
  unfold execute, select_image, VGBT_OT_create_groups.execute.
  set (c0 := if String.eqb (VGBT_OT_create_groups.mode context) "OBJECT"
             then context else VGBT_OT_create_groups.mode_set "OBJECT" context).
  assert (VGBT_OT_create_groups.object c0 = VGBT_OT_create_groups.object context)
    as Hobj by (unfold c0; destruct (String.eqb _ "OBJECT"); reflexivity).
  rewrite Hobj.
  destruct (VGBT_OT_create_groups.select_image _ _ _ self) as [msg | [e | image]].
  - intros H. injection H as <- _ <-. eauto.
  - intros H. injection H as <- _ <-. reflexivity.
  - destruct (VGBT_OT_create_groups.try_body self image _) as [[r obj1] rp] eqn:E.
    destruct r as [success | e].
    + destruct (try_body_returns _ _ _ _ _ _ E) as [-> ->].
      intros H. injection H as <- _ <-. reflexivity.
    + destruct (try_body_raises _ _ _ _ _ _ E) as [-> _].
      destruct e as [msg | msg | msg | msg]; intros H; injection H as <- _ <-;
        try reflexivity.
      exists msg. split; [reflexivity|]. right. exists image, obj1. auto.
Qed.
End ExecuteProperties.

Lemma execute_group_mode_is_all_or_nothing_witness :
  VGBT_OT_create_groups.mode
    {| VGBT_OT_create_groups.mode := "OBJECT";
       VGBT_OT_create_groups.object := empty_object stray_triangle |}
  = "OBJECT"%string
  /\ (VGBT_OT_create_groups.use_weights group_operator = false ->
      VGBT_OT_create_groups.Escaped
        (IndexError "index 2 is out of bounds for axis 1 with size 2")
      <> VGBT_OT_create_groups.Returned (host_error := unit)
           VGBT_OT_create_groups.FINISHED ->
      VGBT_OT_create_groups.object
        {| VGBT_OT_create_groups.mode := "OBJECT";
           VGBT_OT_create_groups.object := empty_object stray_triangle |}
      = VGBT_OT_create_groups.object (edit_context stray_triangle)).
Proof.
  apply (execute_group_mode_is_all_or_nothing unit checker_library checker_library
           group_operator (edit_context stray_triangle) _ _ []).
  vm_compute. reflexivity.
Defined.

Lemma execute_reports_once_witness :
  exists message,
    [(VGBT_OT_create_groups.ERROR,
      "No active UV map found. Please ensure the object has an active UV map."%string)]
    = [(VGBT_OT_create_groups.ERROR, message)]
    /\ (VGBT_OT_create_groups.select_image unit checker_library checker_library
          weight_operator = inl message
        \/ exists image obj1,
             VGBT_OT_create_groups.select_image unit checker_library checker_library
               weight_operator = inr (inr image)
             /\ VGBT_OT_create_groups.try_body weight_operator image
                  (VGBT_OT_create_groups.object (edit_context quad_without_uv))
                = (Raise (ValueError message), obj1, [])).
Proof.
  apply (execute_reports_once unit checker_library checker_library weight_operator
           (edit_context quad_without_uv)
           {| VGBT_OT_create_groups.mode := "OBJECT";
              VGBT_OT_create_groups.object := empty_object quad_without_uv |}
           (VGBT_OT_create_groups.Returned VGBT_OT_create_groups.CANCELLED)).
  vm_compute. reflexivity.
Defined.

Section ExecuteOnValidInput.
Variable host_error : Type.
Variables images_getitem images_load : string -> host_error + Image.

Let execute := VGBT_OT_create_groups.execute host_error images_getitem images_load.
Let select_image :=
  VGBT_OT_create_groups.select_image host_error images_getitem images_load.

Lemma operator_has_two_clusters (self : VGBT_OT_create_groups.Operator) :
  2 <= VGBT_OT_create_groups.num_clusters self.
Proof.
  pose proof (VGBT_OT_create_groups.num_clusters_limits self) as H.
  apply andb_true_iff in H. destruct H as [H _]. apply Z.leb_le. exact H.
Qed.

(** X22: when a texture is selected whose raster is consistent and
    non-empty, and the object has an active UV layer, loop indices that
    address its loops and UVs, and UV coordinates in [-1,1]x[-1,1] (and,
    for normalized weights, at least one face-corner), [execute] returns
    FINISHED with its INFO report, in either mode. *)
Theorem execute_finishes_on_valid_input
  (self : VGBT_OT_create_groups.Operator) (context : VGBT_OT_create_groups.Context)
  (image : Image) (uv_layer : list (Q * Q)) :
  select_image self = inr (inr image) ->
  image_valid image ->
  uv_layers_active (data (VGBT_OT_create_groups.object context)) = Some uv_layer ->
  corners_valid (data (VGBT_OT_create_groups.object context)) uv_layer ->
  uvs_within_wrap uv_layer ->
  (VGBT_OT_create_groups.use_weights self = true ->
   VGBT_OT_create_groups.normalize_weights self = true ->
   List.concat (polygons (data (VGBT_OT_create_groups.object context))) <> []) ->
  exists context',
    execute self context
    = (VGBT_OT_create_groups.Returned VGBT_OT_create_groups.FINISHED, context',
       [(VGBT_OT_create_groups.INFO,
         if VGBT_OT_create_groups.use_weights self
         then ("Created vertex group '"
                 ++ VGBT_OT_create_groups.weight_group_name self
                 ++ "' with weights from texture")%string
         else "Created vertex groups based on texture"%string)]).
Proof.
  intros Hsel Himg Huv Hcorners Huvs Hnonempty.
  unfold execute, VGBT_OT_create_groups.execute.
  unfold select_image in Hsel. rewrite Hsel.
  set (c0 := if String.eqb (VGBT_OT_create_groups.mode context) "OBJECT"
             then context else VGBT_OT_create_groups.mode_set "OBJECT" context).
  assert (VGBT_OT_create_groups.object c0 = VGBT_OT_create_groups.object context)
    as Hobj by (unfold c0; destruct (String.eqb _ "OBJECT"); reflexivity).
  rewrite Hobj.
  set (obj := VGBT_OT_create_groups.object context) in *.
  assert (exists obj1,
            VGBT_OT_create_groups.try_body self image obj
            = (Ok true, obj1,
               [(VGBT_OT_create_groups.INFO,
                 if VGBT_OT_create_groups.use_weights self
                 then ("Created vertex group '"
                         ++ VGBT_OT_create_groups.weight_group_name self
                         ++ "' with weights from texture")%string
                 else "Created vertex groups based on texture"%string)]))
    as [obj1 Htry].
  { unfold VGBT_OT_create_groups.try_body.
    destruct (VGBT_OT_create_groups.use_weights self) eqn:Emode.
    - destruct (collect_weights_total (data obj) uv_layer image Himg Huvs Hcorners)
        as [ws Hcol].
      assert (exists ws',
                (if VGBT_OT_create_groups.normalize_weights self
                 then normalize_weights ws else Ok ws) = Ok ws') as [ws' Hnorm].
      { destruct (VGBT_OT_create_groups.normalize_weights self) eqn:En; [|eauto].
        destruct (normalize_weights_unit ws) as [out [Hout _]]; [|eauto].
        intros ->. apply (Hnonempty eq_refl eq_refl).
        pose proof (collect_weights_length _ _ _ _ _ _ _ Hcol) as Hlen.
        destruct (List.concat (polygons (data obj))); [reflexivity | discriminate Hlen]. }
      destruct (assign_weights_from_texture_run obj image
                  (VGBT_OT_create_groups.weight_group_name self)
                  (VGBT_OT_create_groups.normalize_weights self) uv_layer _ ws ws'
                  Huv (reshape_ok image Himg) Hcol Hnorm) as [obj1 [Hrun _]].
      exists obj1. rewrite Hrun. reflexivity.
    - destruct (analyze_texture_total image Himg) as [values [Hvalues Hne]].
      rewrite Hvalues.
      destruct (quantized_levels_nonempty values
                  (VGBT_OT_create_groups.num_clusters self) Hne
                  (operator_has_two_clusters self)) as [levels [Hq Hlevels]].
      rewrite Hq.
      destruct (assign_vertex_groups_total obj
                  (map VGBT_OT_create_groups.finite_level levels) image
                  (fdiv 1 (inject_Z (2 * VGBT_OT_create_groups.num_clusters self)))
                  (VGBT_OT_create_groups.min_group_size self)
                  (VGBT_OT_create_groups.base_group_name self) uv_layer
                  Huv Himg Hcorners Huvs Hlevels) as [obj1 Hrun].
      exists obj1. cbv zeta. rewrite Hrun. reflexivity. }
  rewrite Htry. eexists. reflexivity.
Qed.

(** X23: when a texture is selected and the object has no active UV
    layer, [execute] returns CANCELLED, reports the "No active UV map
    found" error, and leaves the object untouched; in group mode this
    needs a consistent non-empty raster, since the raster is analyzed
    before the UV layer is looked at. *)
Theorem execute_cancels_without_uv_layer
  (self : VGBT_OT_create_groups.Operator) (context : VGBT_OT_create_groups.Context)
  (image : Image) :
  select_image self = inr (inr image) ->
  (VGBT_OT_create_groups.use_weights self = false -> image_valid image) ->
  uv_layers_active (data (VGBT_OT_create_groups.object context)) = None ->
  execute self context
  = (VGBT_OT_create_groups.Returned VGBT_OT_create_groups.CANCELLED,
     {| VGBT_OT_create_groups.mode := "OBJECT";
        VGBT_OT_create_groups.object := VGBT_OT_create_groups.object context |},
     [(VGBT_OT_create_groups.ERROR,
       "No active UV map found. Please ensure the object has an active UV map."%string)]).
Proof.
  intros Hsel Himg Huv.
  unfold execute, VGBT_OT_create_groups.execute.
  unfold select_image in Hsel. rewrite Hsel.
  set (c0 := if String.eqb (VGBT_OT_create_groups.mode context) "OBJECT"
             then context else VGBT_OT_create_groups.mode_set "OBJECT" context).
  assert (VGBT_OT_create_groups.mode c0 = "OBJECT"%string) as Hmode.
  { unfold c0. destruct (String.eqb _ "OBJECT") eqn:E; [|reflexivity].
    apply String.eqb_eq. exact E. }
  assert (VGBT_OT_create_groups.object c0 = VGBT_OT_create_groups.object context)
    as Hobj by (unfold c0; destruct (String.eqb _ "OBJECT"); reflexivity).
  rewrite Hobj, Hmode.
  set (obj := VGBT_OT_create_groups.object context) in *.
  assert (VGBT_OT_create_groups.try_body self image obj
          = (Raise no_active_uv, obj, [])) as ->.
  { unfold VGBT_OT_create_groups.try_body.
    destruct (VGBT_OT_create_groups.use_weights self) eqn:Emode.
    - unfold assign_weights_from_texture. rewrite Huv. reflexivity.
    - destruct (analyze_texture_total image (Himg eq_refl)) as [values [-> Hne]].
      destruct (quantized_levels_nonempty values
                  (VGBT_OT_create_groups.num_clusters self) Hne
                  (operator_has_two_clusters self)) as [levels [-> _]].
      cbv zeta. unfold assign_vertex_groups. rewrite Huv. reflexivity. }
  reflexivity.
Qed.

(** X24: in group mode, every weight a call of [execute] writes lies
    between the automatic threshold 1/(2 * num_clusters) and 1, however
    the call ends. *)
Theorem execute_group_weights_reach_threshold
  (self : VGBT_OT_create_groups.Operator) (context context' : VGBT_OT_create_groups.Context)
  (out : VGBT_OT_create_groups.outcome host_error)
  (reported : VGBT_OT_create_groups.reports) :
  VGBT_OT_create_groups.use_weights self = false ->
  execute self context = (out, context', reported) ->
  Forall (fun w => (1 / inject_Z (2 * VGBT_OT_create_groups.num_clusters self) <= w)%Q
                   /\ (w <= 1)%Q)
    (added_weights (new_calls (VGBT_OT_create_groups.object context)
                      (VGBT_OT_create_groups.object context'))).
Proof.
  intros Hmode.
  unfold execute, VGBT_OT_create_groups.execute.
  set (c0 := if String.eqb (VGBT_OT_create_groups.mode context) "OBJECT"
             then context else VGBT_OT_create_groups.mode_set "OBJECT" context).
  assert (VGBT_OT_create_groups.object c0 = VGBT_OT_create_groups.object context)
    as Hobj by (unfold c0; destruct (String.eqb _ "OBJECT"); reflexivity).
  set (obj := VGBT_OT_create_groups.object context) in *.
  set (P := fun w : Q =>
              (1 / inject_Z (2 * VGBT_OT_create_groups.num_clusters self) <= w)%Q
              /\ (w <= 1)%Q).
  assert (Forall P (added_weights (new_calls obj obj))) as Hnone
    by (unfold new_calls; rewrite skipn_all; constructor).
  destruct (VGBT_OT_create_groups.select_image _ _ _ self) as [msg | [e | image]];
    try (intros H; injection H as _ <- _; rewrite Hobj; exact Hnone).
  rewrite Hobj.
  destruct (VGBT_OT_create_groups.try_body self image obj) as [[r obj1] rp] eqn:E.
  assert (Forall P (added_weights (new_calls obj obj1))) as Hw.
  { unfold VGBT_OT_create_groups.try_body in E. rewrite Hmode in E.
    destruct (analyze_texture image); [|injection E as _ <- _; exact Hnone].
    destruct (quantize_colors _ _); [|injection E as _ <- _; exact Hnone].
    cbv zeta in E.
    destruct (assign_vertex_groups _ _ _ _ _ _) as [r1 o1] eqn:Erun.
    apply assign_vertex_groups_within in Erun.
    assert (obj1 = o1) as -> by (destruct r1; injection E as _ <- _; reflexivity).
    rewrite Forall_forall in Erun |- *. intros w Hin.
    destruct (Erun w Hin) as [H1 H2]. split; [|exact H2].
    unfold fdiv in H1. rewrite Qred_correct in H1. exact H1. }
  intros H.
  assert (VGBT_OT_create_groups.object context' = obj1) as ->
    by (destruct r as [b | e]; [|destruct e]; injection H as _ <- _; reflexivity).
  exact Hw.
Qed.
End ExecuteOnValidInput.

Lemma execute_finishes_on_valid_input_witness :
  exists context',
    VGBT_OT_create_groups.execute unit checker_library checker_library
      group_operator (edit_context quad)
    = (VGBT_OT_create_groups.Returned VGBT_OT_create_groups.FINISHED, context',
       [(VGBT_OT_create_groups.INFO, "Created vertex groups based on texture"%string)]).
Proof.
  apply (execute_finishes_on_valid_input unit checker_library checker_library
           group_operator (edit_context quad) checker_image
           [(0, 0); (1, 0); (1, 1); (0, 1)]%Q).
  - reflexivity.
  - repeat split; simpl; lia.
  - reflexivity.
  - repeat constructor.
  - repeat constructor; discriminate.
  - discriminate.
Defined.

Lemma execute_cancels_without_uv_layer_witness :
  VGBT_OT_create_groups.execute unit checker_library checker_library
    group_operator (edit_context quad_without_uv)
  = (VGBT_OT_create_groups.Returned VGBT_OT_create_groups.CANCELLED,
     {| VGBT_OT_create_groups.mode := "OBJECT";
        VGBT_OT_create_groups.object := empty_object quad_without_uv |},
     [(VGBT_OT_create_groups.ERROR,
       "No active UV map found. Please ensure the object has an active UV map."%string)]).
Proof.
  apply (execute_cancels_without_uv_layer unit checker_library checker_library
           group_operator (edit_context quad_without_uv) checker_image).
  - reflexivity.
  - intros _. repeat split; simpl; lia.
  - reflexivity.
Defined.

Lemma execute_group_weights_reach_threshold_witness :
  Forall (fun w => (1 / inject_Z (2 * 2) <= w)%Q /\ (w <= 1)%Q)
    (added_weights
       (new_calls (empty_object quad)
          (VGBT_OT_create_groups.object
             (snd (fst (VGBT_OT_create_groups.execute unit checker_library
                          checker_library group_operator (edit_context quad))))))).
Proof.
  apply (execute_group_weights_reach_threshold unit checker_library checker_library
           group_operator (edit_context quad) _
           (fst (fst (VGBT_OT_create_groups.execute unit checker_library
                        checker_library group_operator (edit_context quad))))
           (snd (VGBT_OT_create_groups.execute unit checker_library
                   checker_library group_operator (edit_context quad)))).
  - reflexivity.
  - vm_compute. reflexivity.
Defined.

(** ** A raster without pixels *)

Section ExecuteWithoutPixels.
Variable host_error : Type.
Variables images_getitem images_load : string -> host_error + Image.

(** X25: in group mode, on a selected image that has no pixel (width or
    height 0, empty buffer), [execute] never reaches the mesh.  With at
    least one channel the quantization raises numpy's zero-size
    ValueError, which is reported and cancels the call; with no channel
    at all the analysis raises IndexError, which escapes.  The object is
    untouched either way. *)
Theorem execute_group_mode_on_raster_without_pixels
  (self : VGBT_OT_create_groups.Operator) (context : VGBT_OT_create_groups.Context)
  (image : Image) :
  VGBT_OT_create_groups.select_image host_error images_getitem images_load self
  = inr (inr image) ->
  VGBT_OT_create_groups.use_weights self = false ->
  (snd (size image) * fst (size image))%nat = 0%nat ->
  pixels image = [] ->
  VGBT_OT_create_groups.execute host_error images_getitem images_load self context
  = (if (channels image =? 0)%nat
     then (VGBT_OT_create_groups.Escaped
             (IndexError "index 0 is out of bounds for axis 2 with size 0"),
           {| VGBT_OT_create_groups.mode := "OBJECT";
              VGBT_OT_create_groups.object := VGBT_OT_create_groups.object context |},
           [])
     else (VGBT_OT_create_groups.Returned VGBT_OT_create_groups.CANCELLED,
           {| VGBT_OT_create_groups.mode := "OBJECT";
              VGBT_OT_create_groups.object := VGBT_OT_create_groups.object context |},
           [(VGBT_OT_create_groups.ERROR,
             "zero-size array to reduction operation minimum which has no identity"%string)])).
Proof.
  intros Hsel Hmode Hzero Hpix.
  unfold VGBT_OT_create_groups.execute. rewrite Hsel.
  set (c0 := if String.eqb (VGBT_OT_create_groups.mode context) "OBJECT"
             then context else VGBT_OT_create_groups.mode_set "OBJECT" context).
  assert (VGBT_OT_create_groups.mode c0 = "OBJECT"%string) as Hm.
  { unfold c0. destruct (String.eqb _ "OBJECT") eqn:E; [|reflexivity].
    apply String.eqb_eq. exact E. }
  assert (VGBT_OT_create_groups.object c0 = VGBT_OT_create_groups.object context)
    as Hobj by (unfold c0; destruct (String.eqb _ "OBJECT"); reflexivity).
  rewrite Hobj, Hm.
  assert (analyze_texture image
          = if (1 <? channels image)%nat then Ok []
            else if (channels image =? 0)%nat
                 then Raise (IndexError "index 0 is out of bounds for axis 2 with size 0")
                 else Ok []) as Han.
  { unfold analyze_texture, reshape, pixel_vectors.
    destruct (size image) as [width height]. simpl in Hzero.
    rewrite Hpix. simpl List.length. rewrite Hzero. simpl (0 * _)%nat.
    cbn [Nat.eqb rbind shape]. rewrite Hzero. simpl seq. simpl map.
    destruct (1 <? channels image)%nat; [reflexivity|].
    destruct (channels image =? 0)%nat; reflexivity. }
  unfold VGBT_OT_create_groups.try_body. rewrite Hmode, Han.
  destruct (channels image =? 0)%nat eqn:Ec.
  - assert ((1 <? channels image)%nat = false) as ->
      by (apply Nat.eqb_eq in Ec; rewrite Ec; reflexivity).
    reflexivity.
  - destruct (1 <? channels image)%nat; reflexivity.
Qed.
End ExecuteWithoutPixels.

Lemma execute_group_mode_on_raster_without_pixels_witness :
  VGBT_OT_create_groups.execute unit
    (fun _ => inr {| size := (0, 0)%nat; channels := 0; pixels := [] |})
    (fun _ => inl tt) group_operator (edit_context quad)
  = (VGBT_OT_create_groups.Escaped
       (IndexError "index 0 is out of bounds for axis 2 with size 0"),
     {| VGBT_OT_create_groups.mode := "OBJECT";
        VGBT_OT_create_groups.object := empty_object quad |},
     []).
Proof.
  apply (execute_group_mode_on_raster_without_pixels unit
           (fun _ => inr {| size := (0, 0)%nat; channels := 0; pixels := [] |})
           (fun _ => inl tt) group_operator (edit_context quad)
           {| size := (0, 0)%nat; channels := 0; pixels := [] |});
    reflexivity.
Defined.

(** ** Running the weight engine again *)



